(** * Multipart copy of ali-oss: [lib/common/multipart-copy.js]

    A shallow embedding of the resumable, checkpointed multipart copy
    ([uploadPartCopy], [multipartUploadCopy], [_resumeMultipartCopy],
    [_divideMultipartCopyParts], [_getObjectMeta]) and the properties of
    its specification.

    JavaScript numbers that hold byte offsets, sizes and part numbers are
    integers of [Z] (all of them are far below 2^53, where the float
    arithmetic of the source is exact); a value that may be [undefined] is
    an [option]; the template strings of the source are kept as the data
    they are built from. *)

From Stdlib Require Import String ZArith QArith List Bool Lia Permutation Sorted.
Import ListNotations.

Local Open Scope Z_scope.

(** ** Numbers *)

(** The result of [Math.ceil(fileSize / partSize)]: a division by zero
    gives an infinity or [NaN] in JavaScript. *)
Inductive jsnum : Type :=
| Num (z : Z)
| Infinity
| NegInfinity
| NaN.

(** [Math.ceil(a / b)] on integers: the ceiling of the exact quotient. *)
Definition Math_ceil_div (a b : Z) : jsnum :=
  if b =? 0 then
    if 0 <? a then Infinity else if a <? 0 then NegInfinity else NaN
  else Num (- ((- a) / b)).

(** ** [_divideMultipartCopyParts] *)

Record PartOff : Type := mkPartOff { start : Z; end_ : Z }.

(** The [for (let i = 0; i < numParts; i++)] loop, [partOffs.push] being
    an append. *)
Fixpoint divide_loop (fuel : nat) (i numParts partSize fileSize startOffset : Z)
    (partOffs : list PartOff) : list PartOff :=
  match fuel with
  | O => partOffs
  | S fuel' =>
      if i <? numParts then
        let start := partSize * i + startOffset in
        let end_ := Z.min (start + partSize) (fileSize + startOffset) in
        divide_loop fuel' (i + 1) numParts partSize fileSize startOffset
          (partOffs ++ [mkPartOff start end_])
      else partOffs
  end.

(** [None] stands for the loop that never ends ([numParts] is [Infinity]);
    [i < NaN] and [i < -Infinity] are false, the loop body never runs. *)
Definition _divideMultipartCopyParts (fileSize partSize startOffset : Z)
    : option (list PartOff) :=
  match Math_ceil_div fileSize partSize with
  | Num numParts =>
      Some (divide_loop (Z.to_nat numParts) 0 numParts partSize fileSize startOffset [])
  | Infinity => None
  | NegInfinity | NaN => Some []
  end.

(** A byte offset lies in a part: [start <= b < end]. *)
Definition in_part (b : Z) (p : PartOff) : Prop := start p <= b < end_ p.

(** ** Data model *)

(** An entry of [checkpoint.doneParts]. *)
Record PartDone : Type := mkPartDone { number : Z; etag : string }.

(** The checkpoint object. [cp_doneParts] is the content of its
    [doneParts] array when the object is handed over (to
    [multipartUploadCopy] by the caller, to the progress callback by the
    copy); while a copy runs the array lives in the state below. *)
Record Checkpoint : Type := mkCheckpoint {
  cp_name : string;
  cp_copySize : Z;
  cp_partSize : Z;
  cp_uploadId : string;
  cp_doneParts : list PartDone
}.

(** The text of an error, kept as the data its template is filled with. *)
Inductive Message : Type :=
| MsgCopySizeTooSmall (minPartSize : Z)
  (* `copySize must not be smaller than ${minPartSize}` *)
| MsgPartSizeTooSmall (minPartSize : Z)
  (* `partSize must not be smaller than ${minPartSize}` *)
| MsgCollaborator (text : string)
  (* the message of an error thrown by a remote operation or by the
     progress callback *)
| MsgTypeError
  (* reading a property of [undefined] *)
| MsgFailedToCopy (inner : Message) (part_num : option Z)
  (* `Failed to copy some parts with error: ${err.toString()} part_num: ${err.partNum}` *).

(** An [Error] object with the two properties this file reads and writes. *)
Record Err : Type := mkErr { message : Message; partNum : option Z }.

(** What a [throw] carries: the cancel event of [_makeCancelEvent] (an
    object that is not an [Error]) or an error. *)
Inductive Thrown : Type :=
| CancelEvent
| Error (e : Err).

(** The response [res] of a remote operation, with the headers read here. *)
Record Response : Type := mkResponse {
  status : Z;
  header_etag : string;
  header_content_length : Z
}.

(** What a pending remote operation or callback comes back with: its
    result or the error it throws, and whether the caller requested
    cancellation ([client.cancel()]) while it was pending. *)
Record Reply (A : Type) : Type := mkReply {
  answer : Err + A;
  cancel_requested : bool
}.
Arguments mkReply {A} _ _.
Arguments answer {A} _.
Arguments cancel_requested {A} _.

(** [sourceData] as the caller passes it. *)
Record SourceData : Type := mkSourceData {
  sourceKey : string;
  sourceBucketName : string;
  startOffset : option Z;
  endOffset : option Z
}.

(** [sourceData] once [multipartUploadCopy] has filled in both offsets;
    [_resumeMultipartCopy] is called with nothing else. *)
Record Source : Type := mkSource {
  src_sourceKey : string;
  src_sourceBucketName : string;
  src_startOffset : Z;
  src_endOffset : Z
}.

(** The progress callback: [progress(ratio, checkpoint, res)]. *)
Definition Progress : Type := Q -> Checkpoint -> Response -> Reply unit.

Record Options : Type := mkOptions {
  opt_partSize : option Z;
  opt_parallel : option Z;
  opt_checkpoint : option Checkpoint;
  opt_progress : option Progress;
  opt_copyheaders : option (list (string * string))
}.

(** The parameters of the PUT request of [uploadPartCopy]. *)
Record Params : Type := mkParams {
  prm_method : string;
  prm_object : string;
  prm_copy_source : string * string;
  (* x-oss-copy-source: `/${bucket}/${encodeURIComponent(key)}` *)
  prm_copy_source_range : option (Z * Z);
  (* x-oss-copy-source-range: `bytes=${start}-${end - 1}` *)
  prm_headers : list (string * string);
  prm_subres : Z * string; (* partNumber, uploadId *)
  prm_successStatuses : list Z
}.

(** The remote operations and callbacks a copy starts, in the order it
    starts them. *)
Inductive Event : Type :=
| EvHead (bucket key : string)
| EvInitMultipartUpload (name : string)
| EvRequest (params : Params)
| EvProgress (ratio : Q) (checkpoint : Checkpoint) (res : Response)
| EvCompleteMultipartUpload (name uploadId : string) (parts : list PartDone).

(** The mutable state a copy works on: the client's current bucket and
    cancel flag, the [doneParts] array shared by the checkpoint and all
    part jobs, and the log of the operations started so far. *)
Record State : Type := mkState {
  bucket : string;
  cancelFlag : bool;
  doneParts : list PartDone;
  trace : list Event
}.

Definition set_bucket (b : string) (s : State) : State :=
  mkState b (cancelFlag s) (doneParts s) (trace s).
Definition set_cancelFlag (c : bool) (s : State) : State :=
  mkState (bucket s) c (doneParts s) (trace s).
Definition set_doneParts (d : list PartDone) (s : State) : State :=
  mkState (bucket s) (cancelFlag s) d (trace s).
Definition log (e : Event) (s : State) : State :=
  mkState (bucket s) (cancelFlag s) (doneParts s) (trace s ++ [e]).

(** ** The monad of generator functions: state, exceptions, divergence *)

Inductive Outcome (A : Type) : Type :=
| Return (a : A)
| Throw (t : Thrown)
| Diverge.
Arguments Return {A} _.
Arguments Throw {A} _.
Arguments Diverge {A}.

Definition M (A : Type) : Type := State -> Outcome A * State.

Definition ret {A} (a : A) : M A := fun s => (Return a, s).
Definition throw {A} (t : Thrown) : M A := fun s => (Throw t, s).
Definition diverge {A} : M A := fun s => (Diverge, s).
Definition bind {A B} (c : M A) (k : A -> M B) : M B := fun s =>
  match c s with
  | (Return a, s') => k a s'
  | (Throw t, s') => (Throw t, s')
  | (Diverge, s') => (Diverge, s')
  end.
Definition try_catch {A} (c : M A) (handler : Thrown -> M A) : M A := fun s =>
  match c s with
  | (Throw t, s') => handler t s'
  | r => r
  end.
Definition gets {A} (f : State -> A) : M A := fun s => (Return (f s), s).
Definition modify (f : State -> State) : M unit := fun s => (Return tt, f s).

Notation "x <- c1 ;; c2" := (bind c1 (fun x => c2))
  (at level 61, c1 at next level, right associativity).
Notation "c1 ;;; c2" := (bind c1 (fun _ => c2))
  (at level 61, right associativity).

(** [yield op]: the operation is started (and logged), the generator is
    suspended, and it is resumed with the operation's result or error;
    a cancellation requested in between shows in the flag. *)
Definition deliver {A} (r : Reply A) : M A := fun s =>
  let s' := set_cancelFlag (cancelFlag s || cancel_requested r) s in
  match answer r with
  | inl e => (Throw (Error e), s')
  | inr a => (Return a, s')
  end.
Definition yield {A} (e : Event) (r : Reply A) : M A :=
  modify (log e) ;;; deliver r.

(** ** The client's helpers *)

(** Modelled from the spec: the cancellation helpers of the client
    ([resetCancelFlag], [isCancel], [_makeCancelEvent]) are defined in
    another file. The spec's CancellationFlag is a boolean of the session
    that the caller sets; [resetCancelFlag] clears it, [isCancel] reads it
    and [_makeCancelEvent] makes the distinct cancellation signal. *)
Definition resetCancelFlag : M unit := modify (set_cancelFlag false).
Definition isCancel : M bool := gets cancelFlag.
Definition _makeCancelEvent : Thrown := CancelEvent.

(** Modelled from the spec: [getBucket] and [setBucket] are defined in
    another file; they read and write the client's current bucket (the
    spec's bucket-switching side state). *)
Definition getBucket : M string := gets bucket.
Definition setBucket (b : string) : M unit := modify (set_bucket b).

(** [x || d] on a number that may be undefined: [undefined] and [0] are
    falsy. *)
Definition or_default (x : option Z) (d : Z) : Z :=
  match x with
  | Some z => if z =? 0 then d else z
  | None => d
  end.

(** [options.partSize && options.partSize < minPartSize]. *)
Definition partSize_too_small (partSize : option Z) (minPartSize : Z) : bool :=
  match partSize with
  | Some z => negb (z =? 0) && (z <? minPartSize)
  | None => false
  end.

Definition minPartSize : Z := 100 * 1024.
Definition defaultParallel : Z := 5.

(** ** The operations of [multipart-copy.js] *)

(** What [uploadPartCopy] returns. *)
Record PartCopyResult : Type := mkPartCopyResult {
  pcr_name : string;
  pcr_etag : string;
  pcr_res : Response
}.

(** [partOffs[partNo - 1]]: [undefined] outside the array. *)
Definition partOffs_at (partOffs : list PartOff) (partNo : Z) : option PartOff :=
  if partNo - 1 <? 0 then None else nth_error partOffs (Z.to_nat (partNo - 1)).

(** [doneParts.length / numParts]. *)
Definition ratio (len numParts : nat) : Q :=
  (inject_Z (Z.of_nat len) / inject_Z (Z.of_nat numParts))%Q.

(** The checkpoint object as a callback sees it at some moment. *)
Definition snapshot (checkpoint : Checkpoint) (s : State) : Checkpoint :=
  mkCheckpoint (cp_name checkpoint) (cp_copySize checkpoint)
    (cp_partSize checkpoint) (cp_uploadId checkpoint) (doneParts s).

(** [err.partNum = partNo]. *)
Definition with_partNum (partNo : Z) (e : Err) : Err :=
  mkErr (message e) (Some partNo).

(** [err.message = `Failed to copy some parts with error: ...`]. *)
Definition failed_to_copy (e : Err) : Err :=
  mkErr (MsgFailedToCopy (message e) (partNum e)) (partNum e).

(** [Array.from(new Array(numParts), (x, i) => i + 1)]. *)
Definition all_parts (numParts : nat) : list Z :=
  map (fun i => Z.of_nat i + 1) (seq 0 numParts).

(** [all.filter(p => done.indexOf(p) < 0)]. *)
Definition todo_parts (all done : list Z) : list Z :=
  filter (fun p => negb (existsb (Z.eqb p) done)) all.

(** A part job as the generator it is: not yet started, suspended at
    [yield self.uploadPartCopy(...)], suspended at
    [yield options.progress(...)], or finished (with the error it threw). *)
Inductive JobState : Type :=
| Queued
| Copying (pending : Reply Response)
| Reporting (pending : Reply unit)
| Finished (thrown : option Err).

Record Job : Type := mkJob { job_part : Z; job_state : JobState }.

Definition in_flight (j : Job) : bool :=
  match job_state j with
  | Copying _ | Reporting _ => true
  | Queued | Finished _ => false
  end.

Definition is_finished (j : Job) : bool :=
  match job_state j with
  | Finished _ => true
  | _ => false
  end.

Definition job_error (j : Job) : list Err :=
  match job_state j with
  | Finished (Some e) => [e]
  | _ => []
  end.

(** The queued jobs of a list of part numbers. *)
Definition queued_jobs (todo : list Z) : list Job :=
  map (fun p => mkJob p Queued) todo.

(** [uploadPartCopyOptions.headers] after
    [copy(options.copyheaders).to(uploadPartCopyOptions.headers)]. *)
Definition copy_headers (options : Options) : list (string * string) :=
  match opt_copyheaders options with
  | Some h => h
  | None => []
  end.

Section Copy.

(** The collaborators, defined outside this file. *)
Variable head : string -> string -> Reply Response.
(* [this.head(name, options)] on the current bucket: bucket, name *)
Variable initMultipartUpload : string -> Options -> Reply (string * Response).
(* name, options; gives the uploadId and the response *)
Variable request : Params -> Reply Response.
Variable completeMultipartUpload :
  string -> string -> list PartDone -> Options -> Reply string.
Variable checkBrowserAndVersion : string -> string -> bool.
Variable _getPartSize : Z -> option Z -> Z.

(** The order in which pending operations of parallel jobs come back:
    the n-th entry picks, among the jobs then in flight, the one that
    is resumed next. *)
Variable schedule : list nat.

(** The request [uploadPartCopy] builds ([_objectRequestParams], defined
    in another file, is taken to copy the headers it is given). *)
Definition uploadPartCopy_params (name uploadId : string) (partNo : Z)
    (range : option (Z * Z)) (sourceData : Source)
    (headers : list (string * string)) : Params :=
  mkParams "PUT" name
    (src_sourceBucketName sourceData, src_sourceKey sourceData)
    range headers (partNo, uploadId) [200].

Definition uploadPartCopy (name uploadId : string) (partNo : Z)
    (range : option (Z * Z)) (sourceData : Source)
    (headers : list (string * string)) : M PartCopyResult :=
  let params := uploadPartCopy_params name uploadId partNo range sourceData headers in
  result <- yield (EvRequest params) (request params) ;;
  ret (mkPartCopyResult name (header_etag result) result).

Definition _getObjectMeta (bucket_ name : string) : M Response :=
  currentBucket <- getBucket ;;
  setBucket bucket_ ;;;
  data <- (b <- getBucket ;; yield (EvHead b name) (head b name)) ;;
  setBucket currentBucket ;;;
  ret data.

Section Resume.

(** The variables the job closure captures. *)
Variable checkpoint : Checkpoint.
Variable sourceData : Source.
Variable options : Options.
Variable partOffs : list PartOff.

Let name := cp_name checkpoint.
Let uploadId := cp_uploadId checkpoint.
Let numParts := length partOffs.
Let headers := copy_headers options.

(** [uploadPartJob(self, partNo, source)]. *)
Definition uploadPartJob (partNo : Z) : M unit :=
  c <- isCancel ;;
  if negb c then
    try_catch
      (match partOffs_at partOffs partNo with
       | None => throw (Error (mkErr MsgTypeError None))
       | Some pi =>
           let range := (start pi, end_ pi - 1) in
           result <- uploadPartCopy name uploadId partNo (Some range)
                       sourceData headers ;;
           c' <- isCancel ;;
           if negb c' then
             modify (fun s =>
               set_doneParts (doneParts s ++
                 [mkPartDone partNo (header_etag (pcr_res result))]) s) ;;;
             match opt_progress options with
             | Some progress =>
                 s <- gets (fun s => s) ;;
                 let r := ratio (length (doneParts s)) numParts in
                 let cp := snapshot checkpoint s in
                 yield (EvProgress r cp (pcr_res result))
                   (progress r cp (pcr_res result))
             | None => ret tt
             end
           else ret tt
       end)
      (fun t =>
         match t with
         | Error err => throw (Error (with_partNum partNo err))
         | CancelEvent => throw CancelEvent
         end)
  else ret tt.

(** The same job as a resumable machine: one call of [job_resume]
    runs the generator from where it stands to its next [yield] or to
    its end. *)
Definition job_resume (partNo : Z) (js : JobState) (s : State)
    : JobState * State :=
  match js with
  | Queued =>
      if cancelFlag s then (Finished None, s)
      else
        match partOffs_at partOffs partNo with
        | None => (Finished (Some (with_partNum partNo (mkErr MsgTypeError None))), s)
        | Some pi =>
            let params := uploadPartCopy_params name uploadId partNo
                            (Some (start pi, end_ pi - 1)) sourceData headers in
            (Copying (request params), log (EvRequest params) s)
        end
  | Copying pending =>
      let s1 := set_cancelFlag (cancelFlag s || cancel_requested pending) s in
      match answer pending with
      | inl err => (Finished (Some (with_partNum partNo err)), s1)
      | inr res =>
          if cancelFlag s1 then (Finished None, s1)
          else
            let s2 := set_doneParts
                        (doneParts s1 ++ [mkPartDone partNo (header_etag res)]) s1 in
            match opt_progress options with
            | Some progress =>
                let r := ratio (length (doneParts s2)) numParts in
                let cp := snapshot checkpoint s2 in
                (Reporting (progress r cp res), log (EvProgress r cp res) s2)
            | None => (Finished None, s2)
            end
      end
  | Reporting pending =>
      let s1 := set_cancelFlag (cancelFlag s || cancel_requested pending) s in
      match answer pending with
      | inl err => (Finished (Some (with_partNum partNo err)), s1)
      | inr _ => (Finished None, s1)
      end
  | Finished r => (Finished r, s)
  end.

Definition resume_job (j : Job) (s : State) : Job * State :=
  let (js, s') := job_resume (job_part j) (job_state j) s in
  (mkJob (job_part j) js, s').

(** A job run from its start to its end without interleaving (it
    stops at two [yield]s at most). *)
Definition run_job (partNo : Z) (s : State) : JobState * State :=
  let (j1, s1) := job_resume partNo Queued s in
  let (j2, s2) := job_resume partNo j1 s1 in
  job_resume partNo j2 s2.

(** Modelled from the spec: the JobPool behind [_thunkPool], which is
    defined in another file, starts the next queued job, in submission
    order, whenever fewer than [parallel] jobs are in flight. [slots] is
    the number of free places. *)
Fixpoint pool_fill (slots : nat) (jobs : list Job) (s : State)
    : list Job * State :=
  match jobs with
  | [] => ([], s)
  | j :: rest =>
      match job_state j, slots with
      | Queued, S slots' =>
          let (j', s1) := resume_job j s in
          let (rest', s2) :=
            pool_fill (if in_flight j' then slots' else slots) rest s1 in
          (j' :: rest', s2)
      | _, _ =>
          let (rest', s2) := pool_fill slots rest s in
          (j :: rest', s2)
      end
  end.

(** Modelled from the spec: the jobs of the JobPool run concurrently, so
    any of the jobs in flight may be the next whose pending operation
    comes back: here the [k]-th of them is resumed with what it waits
    for. *)
Fixpoint pool_deliver (k : nat) (jobs : list Job) (s : State)
    : list Job * State :=
  match jobs with
  | [] => ([], s)
  | j :: rest =>
      if in_flight j then
        match k with
        | O => let (j', s1) := resume_job j s in (j' :: rest, s1)
        | S k' =>
            let (rest', s1) := pool_deliver k' rest s in (j :: rest', s1)
        end
      else
        let (rest', s1) := pool_deliver k rest s in (j :: rest', s1)
  end.

Definition count_in_flight (jobs : list Job) : nat :=
  length (filter in_flight jobs).

(** Modelled from the spec: the JobPool goes on, one pending operation
    coming back after the other in the order [sched] gives, each followed
    by the start of the jobs that now find a free place, until no job is
    in flight. *)
Fixpoint pool_loop (fuel parallel : nat) (sched : list nat)
    (jobs : list Job) (s : State) : list Job * State :=
  match fuel with
  | O => (jobs, s)
  | S fuel' =>
      match count_in_flight jobs with
      | O => (jobs, s)
      | S n =>
          let k := Nat.modulo (hd O sched) (S n) in
          let (jobs1, s1) := pool_deliver k jobs s in
          let (jobs2, s2) :=
            pool_fill (parallel - count_in_flight jobs1) jobs1 s1 in
          pool_loop fuel' parallel (tl sched) jobs2 s2
      end
  end.

(** Modelled from the spec: a run of the JobPool on the jobs of the
    parts [todo]; it gives the state of every job at the end. No job
    takes more than two resumptions after its start. *)
Definition pool_run (todo : list Z) (parallel : Z) (s : State)
    : list Job * State :=
  let (jobs0, s0) :=
    pool_fill (Z.to_nat parallel) (queued_jobs todo) s in
  pool_loop (2 * length todo) (Z.to_nat parallel) schedule jobs0 s0.

(** Modelled from the spec: [_thunkPool(jobs, parallel)] is defined in
    another file. The spec's JobPool runs at most [parallel] jobs at a
    time; when one finishes the next queued job starts; it does not stop
    at the first error but collects the outcome of every job and returns
    the errors in job order. The caller reads [errors[0]] as an error, so
    the sequence holds the errors of the failed jobs only. The spec asks
    for a positive [parallel]; with another one no job can start and the
    pool never comes back. *)
Definition _thunkPool (todo : list Z) (parallel : Z) : M (list Err) :=
  fun s =>
    let (jobs, s') := pool_run todo parallel s in
    if forallb is_finished jobs then (Return (flat_map job_error jobs), s')
    else (Diverge, s').

(** The sequential loop:
    [for (let i = 0; i < todo.length; i++) { ... }]. *)
Fixpoint sequential_loop (todo : list Z) : M unit :=
  match todo with
  | [] => ret tt
  | p :: rest =>
      c <- isCancel ;;
      if c then throw _makeCancelEvent
      else uploadPartJob p ;;; sequential_loop rest
  end.

End Resume.

(** [_resumeMultipartCopy(checkpoint, sourceData, options)]. The
    [doneParts] array of the checkpoint is the shared array of the
    state from here on. *)
Definition _resumeMultipartCopy (checkpoint : Checkpoint)
    (sourceData : Source) (options : Options) : M string :=
  modify (set_doneParts (cp_doneParts checkpoint)) ;;;
  c <- isCancel ;;
  if c then throw _makeCancelEvent
  else
    match _divideMultipartCopyParts (cp_copySize checkpoint)
            (cp_partSize checkpoint) (src_startOffset sourceData) with
    | None => diverge
    | Some partOffs =>
        let numParts := length partOffs in
        let all := all_parts numParts in
        let done := map number (cp_doneParts checkpoint) in
        let todo := todo_parts all done in
        let parallel := or_default (opt_parallel options) defaultParallel in
        (if checkBrowserAndVersion "Internet Explorer" "10" || (parallel =? 1)
         then sequential_loop checkpoint sourceData options partOffs todo
         else
           errors <- _thunkPool checkpoint sourceData options partOffs
                       todo parallel ;;
           c' <- isCancel ;;
           if c' then throw _makeCancelEvent
           else
             match errors with
             | err :: _ => throw (Error (failed_to_copy err))
             | [] => ret tt
             end) ;;;
        dp <- gets doneParts ;;
        yield (EvCompleteMultipartUpload (cp_name checkpoint)
                 (cp_uploadId checkpoint) dp)
          (completeMultipartUpload (cp_name checkpoint)
             (cp_uploadId checkpoint) dp options)
    end.

(** [options.checkpoint && options.checkpoint.uploadId]. *)
Definition resumable (options : Options) : option Checkpoint :=
  match opt_checkpoint options with
  | Some cp => if (cp_uploadId cp =? "")%string then None else Some cp
  | None => None
  end.

(** [multipartUploadCopy(name, sourceData, options)]. *)
Definition multipartUploadCopy (name : string) (sourceData : SourceData)
    (options : Options) : M string :=
  resetCancelFlag ;;;
  objectMeta <- _getObjectMeta (sourceBucketName sourceData)
                  (sourceKey sourceData) ;;
  let fileSize := header_content_length objectMeta in
  let sourceData' :=
    mkSource (sourceKey sourceData) (sourceBucketName sourceData)
      (or_default (startOffset sourceData) 0)
      (or_default (endOffset sourceData) fileSize) in
  match resumable options with
  | Some checkpoint => _resumeMultipartCopy checkpoint sourceData' options
  | None =>
      let copySize := src_endOffset sourceData' - src_startOffset sourceData' in
      if copySize <? minPartSize then
        throw (Error (mkErr (MsgCopySizeTooSmall minPartSize) None))
      else if partSize_too_small (opt_partSize options) minPartSize then
        throw (Error (mkErr (MsgPartSizeTooSmall minPartSize) None))
      else
        result <- yield (EvInitMultipartUpload name)
                    (initMultipartUpload name options) ;;
        let uploadId := fst result in
        let partSize := _getPartSize copySize (opt_partSize options) in
        let checkpoint := mkCheckpoint name copySize partSize uploadId [] in
        match opt_progress options with
        | Some progress =>
            yield (EvProgress 0 checkpoint (snd result))
              (progress 0%Q checkpoint (snd result))
        | None => ret tt
        end ;;;
        _resumeMultipartCopy checkpoint sourceData' options
  end.

End Copy.

(** ** Notions the properties are stated with *)

(** The weight of a job: the number of resumptions it can still take. *)
Definition job_weight (j : Job) : nat :=
  match job_state j with
  | Queued => 2
  | Copying _ => 2
  | Reporting _ => 1
  | Finished _ => 0
  end.

(** A job that can still append to [doneParts]. *)
Definition may_push (j : Job) : bool :=
  match job_state j with
  | Queued | Copying _ => true
  | Reporting _ | Finished _ => false
  end.

Definition is_queued (j : Job) : bool :=
  match job_state j with
  | Queued => true
  | _ => false
  end.

(** Cancellation is never requested while an operation of a part job is
    pending. *)
Definition never_cancelled (request : Params -> Reply Response)
    (options : Options) : Prop :=
  (forall p, cancel_requested (request p) = false) /\
  (forall f r c x, opt_progress options = Some f ->
     cancel_requested (f r c x) = false).

(** The events of a log that are part-copy requests. *)
Definition is_request (e : Event) : bool :=
  match e with
  | EvRequest _ => true
  | _ => false
  end.

(** A reported ratio lies in [0, 1]. *)
Definition ratio_in_range (e : Event) : Prop :=
  match e with
  | EvProgress r _ _ => (0 <= r /\ r <= 1)%Q
  | _ => True
  end.

Section Notions.

Variable request : Params -> Reply Response.
Variable checkpoint : Checkpoint.
Variable sourceData : Source.
Variable options : Options.
Variable partOffs : list PartOff.

(** The copy request of part [partNo], when the plan has that part. *)
Definition part_params (partNo : Z) : option Params :=
  match partOffs_at partOffs partNo with
  | Some pi =>
      Some (uploadPartCopy_params (cp_name checkpoint) (cp_uploadId checkpoint)
              partNo (Some (start pi, end_ pi - 1)) sourceData
              (copy_headers options))
  | None => None
  end.

(** What that request comes back with. *)
Definition part_reply (partNo : Z) : option (Reply Response) :=
  option_map request (part_params partNo).

Definition copy_fails (partNo : Z) (e : Err) : Prop :=
  exists r, part_reply partNo = Some r /\ answer r = inl e.

Definition copy_succeeds (partNo : Z) : bool :=
  match part_reply partNo with
  | Some r => match answer r with inr _ => true | inl _ => false end
  | None => false
  end.

(** The entry a successful copy of part [partNo] appends to
    [doneParts]. *)
Definition copied_entry (partNo : Z) : list PartDone :=
  match part_reply partNo with
  | Some r =>
      match answer r with
      | inr res => [mkPartDone partNo (header_etag res)]
      | inl _ => []
      end
  | None => []
  end.

(** One job of a set of jobs is resumed. Every execution of the jobs,
    one after the other or through the pool, is a sequence of such
    steps. *)
Inductive pool_step : list Job * State -> list Job * State -> Prop :=
| PoolStep pre j post s :
    pool_step (pre ++ j :: post, s)
      (pre ++ fst (resume_job request checkpoint sourceData options partOffs j s)
           :: post,
       snd (resume_job request checkpoint sourceData options partOffs j s)).

Inductive pool_steps : list Job * State -> list Job * State -> Prop :=
| PoolRefl x : pool_steps x x
| PoolTrans x y z : pool_steps x y -> pool_step y z -> pool_steps x z.

(** What holds of the progress reports along every execution of the part
    jobs, whatever is cancelled and whatever fails: [doneParts] never has
    more entries than the plan has parts once the jobs that can still
    append are counted in, and so every ratio reported since the log was
    [t0] lies in [0, 1]. *)
Definition progress_inv (t0 : list Event) (x : list Job * State) : Prop :=
  (length (doneParts (snd x)) + length (filter may_push (fst x))
   <= length partOffs)%nat /\
  exists evs, trace (snd x) = t0 ++ evs /\ Forall ratio_in_range evs.

(** What a job has appended to [doneParts] when nothing is cancelled. *)
Definition recorded (j : Job) : list PartDone :=
  if may_push j then [] else copied_entry (job_part j).

(** The state of a job agrees with what its operations came back with,
    when nothing is cancelled. *)
Definition job_ok (j : Job) : Prop :=
  match job_state j with
  | Queued => True
  | Copying r => part_reply (job_part j) = Some r
  | Reporting pending =>
      copy_succeeds (job_part j) = true /\
      exists f r c x, opt_progress options = Some f /\ pending = f r c x
  | Finished None => copy_succeeds (job_part j) = true
  | Finished (Some e) =>
      partNum e = Some (job_part j) /\
      (forall e0, copy_fails (job_part j) e0 -> e = with_partNum (job_part j) e0) /\
      (copy_succeeds (job_part j) = true ->
       exists f r c x e0, opt_progress options = Some f /\
         answer (f r c x) = inl e0 /\ e = with_partNum (job_part j) e0)
  end.

(** The request of a job that has started is in the log. *)
Definition requested (evs : list Event) (j : Job) : Prop :=
  is_queued j = false ->
  forall prm, part_params (job_part j) = Some prm -> In (EvRequest prm) evs.

(** What holds along every execution of the part jobs in which nothing
    is cancelled, from a state with [doneParts] [d0] and log [t0]. *)
Definition nocancel_inv (d0 : list PartDone) (t0 : list Event)
    (x : list Job * State) : Prop :=
  cancelFlag (snd x) = false /\
  Forall job_ok (fst x) /\
  (exists l, doneParts (snd x) = d0 ++ l /\
             Permutation l (flat_map recorded (fst x))) /\
  (exists evs, trace (snd x) = t0 ++ evs /\ Forall (requested evs) (fst x)).

End Notions.

(** The parts [_resumeMultipartCopy] has to copy: those of the plan that
    the checkpoint does not list as done. *)
Definition resume_todo (checkpoint : Checkpoint) (partOffs : list PartOff)
    : list Z :=
  todo_parts (all_parts (length partOffs))
    (map number (cp_doneParts checkpoint)).

(** The loop of [_resumeMultipartCopy] over the parts to copy: one after
    the other, or through the pool and then the look at its errors. *)
Definition copy_parts (request : Params -> Reply Response)
    (checkBrowserAndVersion : string -> string -> bool) (schedule : list nat)
    (checkpoint : Checkpoint) (sourceData : Source) (options : Options)
    (partOffs : list PartOff) : M unit :=
  let todo := resume_todo checkpoint partOffs in
  let parallel := or_default (opt_parallel options) defaultParallel in
  if checkBrowserAndVersion "Internet Explorer"%string "10"%string || (parallel =? 1)
  then sequential_loop request checkpoint sourceData options partOffs todo
  else
    errors <- _thunkPool request schedule checkpoint sourceData options
                partOffs todo parallel ;;
    c' <- isCancel ;;
    if c' then throw _makeCancelEvent
    else match errors with
         | err :: _ => throw (Error (failed_to_copy err))
         | [] => ret tt
         end.

(** The state after an operation logged as [e] has come back with [r]. *)
Definition after_yield {A} (e : Event) (r : Reply A) (s : State) : State :=
  set_cancelFlag (cancelFlag s || cancel_requested r) (log e s).

(** The checkpoint of a fresh copy. *)
Definition fresh_checkpoint (_getPartSize : Z -> option Z -> Z) (name : string)
    (copySize : Z) (options : Options) (uploadId : string) : Checkpoint :=
  mkCheckpoint name copySize (_getPartSize copySize (opt_partSize options))
    uploadId [].

(** [sourceData] with both offsets filled in, the source having
    [fileSize] bytes. *)
Definition filled_in (sourceData : SourceData) (fileSize : Z) : Source :=
  mkSource (sourceKey sourceData) (sourceBucketName sourceData)
    (or_default (startOffset sourceData) 0)
    (or_default (endOffset sourceData) fileSize).

(** The validation error of a fresh copy, if its sizes are too small. *)
Definition validation_error (copySize : Z) (options : Options) : option Err :=
  if copySize <? minPartSize then
    Some (mkErr (MsgCopySizeTooSmall minPartSize) None)
  else if partSize_too_small (opt_partSize options) minPartSize then
    Some (mkErr (MsgPartSizeTooSmall minPartSize) None)
  else None.


(** ** An example environment

    A source object of 512000 bytes copied in parts of 102400 bytes (five
    parts); every remote operation succeeds unless said otherwise. *)

Definition ok {A} (a : A) : Reply A := mkReply (inr a) false.

Definition ex_head (bucket_ key : string) : Reply Response :=
  ok (mkResponse 200 "" 512000).
Definition ex_init (name : string) (options : Options) : Reply (string * Response) :=
  ok ("upload-1"%string, mkResponse 200 "" 0).
Definition ex_request (params : Params) : Reply Response :=
  ok (mkResponse 200 "etag" 0).
Definition ex_complete (name uploadId : string) (parts : list PartDone)
    (options : Options) : Reply string :=
  ok "completed"%string.
Definition ex_browser (name version : string) : bool := false.
Definition ex_getPartSize (fileSize : Z) (partSize : option Z) : Z :=
  match partSize with
  | Some z => if z =? 0 then 1048576 else z
  | None => 1048576
  end.

(** The copy of part 3 fails. *)
Definition ex_request_fail3 (params : Params) : Reply Response :=
  if fst (prm_subres params) =? 3
  then mkReply (inl (mkErr (MsgCollaborator "connection reset") None)) false
  else ok (mkResponse 200 "etag" 0).

(** Cancellation is requested while part 1 is copied. *)
Definition ex_request_cancel1 (params : Params) : Reply Response :=
  mkReply (inr (mkResponse 200 "etag" 0)) (fst (prm_subres params) =? 1).

Definition ex_state : State := mkState "dst" false [] [].
Definition ex_state_cancelled : State := mkState "dst" true [] [].
Definition ex_source : SourceData := mkSourceData "key" "src" None None.
Definition ex_source_range : SourceData :=
  mkSourceData "key" "src" (Some 1000) (Some 205800).
Definition ex_options : Options :=
  mkOptions (Some 102400) None None None None.
Definition ex_progress : Progress := fun _ _ _ => ok tt.

Definition ex_checkpoint : Checkpoint :=
  mkCheckpoint "target" 512000 102400 "upload-1" [].
Definition ex_src : Source := mkSource "key" "src" 0 512000.
Definition ex_partOffs : list PartOff :=
  [mkPartOff 0 102400; mkPartOff 102400 204800; mkPartOff 204800 307200;
   mkPartOff 307200 409600; mkPartOff 409600 512000].
Definition ex_options_progress : Options :=
  mkOptions (Some 102400) None None (Some ex_progress) None.



(** A range of 1000 bytes, below the minimum, and one of two parts. *)
Definition ex_source_small : SourceData :=
  mkSourceData "key" "src" (Some 0) (Some 1000).
Definition ex_source_two : SourceData :=
  mkSourceData "key" "src" (Some 0) (Some 204800).
Definition ex_source_below : SourceData :=
  mkSourceData "key" "src" (Some 0) (Some 102399).

(** A partSize of zero. *)
Definition ex_options_zero : Options := mkOptions (Some 0) None None None None.

(** A checkpoint with sizes far below the minimum, resumed one part
    after the other with a partSize below the minimum as well. *)
Definition ex_checkpoint_tiny : Checkpoint :=
  mkCheckpoint "target" 10 3 "upload-1" [].
Definition ex_options_resume : Options :=
  mkOptions (Some 1) (Some 1) (Some ex_checkpoint_tiny) None None.

(** The invocations of the examples. *)
Definition ex_copy (request : Params -> Reply Response) (schedule : list nat)
    (sourceData : SourceData) (options : Options) (s : State)
    : Outcome string * State :=
  multipartUploadCopy ex_head ex_init request ex_complete ex_browser
    ex_getPartSize schedule "target" sourceData options s.
Definition ex_resume (request : Params -> Reply Response) (schedule : list nat)
    (options : Options) : Outcome string * State :=
  _resumeMultipartCopy request ex_complete ex_browser schedule ex_checkpoint
    ex_src options ex_state.

(** The request of part [partNo] in the example. *)
Definition ex_params (partNo start_ last : Z) : Params :=
  mkParams "PUT" "target" ("src", "key")%string (Some (start_, last)) []
    (partNo, "upload-1"%string) [200].

(** A checkpoint of two parts with part 2 done, resumed one part after
    the other; and a head request that reports another size. *)
Definition ex_checkpoint_part2 : Checkpoint :=
  mkCheckpoint "target" 204800 102400 "upload-1" [mkPartDone 2 "etag-2"].
Definition ex_options_resume2 : Options :=
  mkOptions None (Some 1) (Some ex_checkpoint_part2) None None.
Definition ex_head_other (bucket_ key : string) : Reply Response :=
  ok (mkResponse 200 "" 999999).

(** A checkpoint recorded with parts of 102400 bytes (the parts 1, 3, 4
    and 5 done) and resumed with a partSize of 256000, a plan of two
    parts. *)
Definition ex_checkpoint_mismatch : Checkpoint :=
  mkCheckpoint "target" 512000 256000 "upload-1"
    [mkPartDone 1 "etag"; mkPartDone 3 "etag"; mkPartDone 4 "etag";
     mkPartDone 5 "etag"].


(** ** Notions of the further properties *)

(** The number of bytes of a part. *)
Definition part_length (p : PartOff) : Z := end_ p - start p.

(** The sum of a list of integers. *)
Definition Z_sum (l : list Z) : Z := fold_right Z.add 0 l.

(** The condition of line 158: the parts are copied one after the other. *)
Definition sequential_mode (checkBrowserAndVersion : string -> string -> bool)
    (options : Options) : bool :=
  checkBrowserAndVersion "Internet Explorer"%string "10"%string
  || (or_default (opt_parallel options) defaultParallel =? 1).

Definition is_complete (e : Event) : bool :=
  match e with
  | EvCompleteMultipartUpload _ _ _ => true
  | _ => false
  end.

(** The events a part job logs: its copy request and its progress
    report. *)
Definition is_part_event (e : Event) : bool :=
  match e with
  | EvRequest _ | EvProgress _ _ _ => true
  | _ => false
  end.

(** The progress callback, if there is one, returns, and no cancellation
    is requested while it runs. *)
Definition quiet_progress (options : Options) : Prop :=
  forall f r c x, opt_progress options = Some f -> f r c x = mkReply (inr tt) false.

Section RunNotions.

Variable request : Params -> Reply Response.
Variable checkpoint : Checkpoint.
Variable sourceData : Source.
Variable options : Options.
Variable partOffs : list PartOff.

(** The copy requests of a list of parts, in that order. *)
Definition request_events (parts : list Z) : list Event :=
  flat_map (fun p =>
              match part_params checkpoint sourceData options partOffs p with
              | Some prm => [EvRequest prm]
              | None => []
              end) parts.

(** The copy of a part comes back with a response, and no cancellation
    is requested while it is pending. *)
Definition copies_quietly (partNo : Z) : Prop :=
  exists res,
    part_reply request checkpoint sourceData options partOffs partNo =
    Some (mkReply (inr res) false).

End RunNotions.

Definition is_nil {A} (l : list A) : bool :=
  match l with
  | [] => true
  | _ :: _ => false
  end.

Section RunInvariant.

Variable request : Params -> Reply Response.
Variable checkpoint : Checkpoint.
Variable sourceData : Source.
Variable options : Options.
Variable partOffs : list PartOff.

(** The state of a job agrees with its part, whatever is cancelled and
    whatever fails: a pending copy is the copy of its part, and an error
    carries the number of its part. *)
Definition job_wf (j : Job) : Prop :=
  match job_state j with
  | Copying r =>
      part_reply request checkpoint sourceData options partOffs (job_part j) = Some r
  | Finished (Some e) => partNum e = Some (job_part j)
  | _ => True
  end.

(** What holds along every execution of the part jobs of distinct
    parts, from a state with bucket [b0], [doneParts] [d0] and log [t0]:
    the jobs log nothing but their requests and progress reports; the
    parts [asked] whose copy was requested are distinct parts of jobs
    that have started; [doneParts] has gained the entries of the parts
    [copied], distinct parts among [asked] whose copy came back with a
    response. *)
Definition run_inv (b0 : string) (d0 : list PartDone) (t0 : list Event)
    (x : list Job * State) : Prop :=
  NoDup (map job_part (fst x)) /\
  Forall job_wf (fst x) /\
  bucket (snd x) = b0 /\
  exists asked copied evs,
    trace (snd x) = t0 ++ evs /\
    Forall (fun e => is_part_event e = true) evs /\
    filter is_request evs =
      request_events checkpoint sourceData options partOffs asked /\
    doneParts (snd x) =
      d0 ++ flat_map (copied_entry request checkpoint sourceData options partOffs)
              copied /\
    NoDup asked /\ NoDup copied /\ incl copied asked /\
    (forall p, In p copied ->
       copy_succeeds request checkpoint sourceData options partOffs p = true) /\
    (forall p, In p asked ->
       exists j, In j (fst x) /\ job_part j = p /\ is_queued j = false) /\
    (forall p, In p copied ->
       exists j, In j (fst x) /\ job_part j = p /\ may_push j = false) /\
    (forall j r, In j (fst x) -> job_state j = Copying r -> In (job_part j) asked).

End RunInvariant.

(** A byte offset lies in the range a part-copy request asks for
    ([bytes=first-last], both ends included). *)
Definition in_range (b : Z) (prm : Params) : Prop :=
  match prm_copy_source_range prm with
  | Some (first, last) => first <= b <= last
  | None => False
  end.

(** The copy of the part of a job that has got its response came back
    without a request for cancellation. *)
Definition uncancelled (request : Params -> Reply Response)
    (checkpoint : Checkpoint) (sourceData : Source) (options : Options)
    (partOffs : list PartOff) (j : Job) : Prop :=
  match job_state j with
  | Reporting _ | Finished _ =>
      forall r, part_reply request checkpoint sourceData options partOffs
                  (job_part j) = Some r ->
                cancel_requested r = false
  | _ => True
  end.

(** The checkpoint object with [doneParts] as given. *)
Definition checkpoint_with (checkpoint : Checkpoint) (d : list PartDone)
    : Checkpoint :=
  mkCheckpoint (cp_name checkpoint) (cp_copySize checkpoint)
    (cp_partSize checkpoint) (cp_uploadId checkpoint) d.

(** The ratio and the checkpoint of a progress report. *)
Definition progress_view (e : Event) : list (Q * Checkpoint) :=
  match e with
  | EvProgress r cp _ => [(r, cp)]
  | _ => []
  end.

(** The reports of the entries [l], appended one by one to [d]. *)
Fixpoint progress_reports (checkpoint : Checkpoint) (numParts : nat)
    (d l : list PartDone) : list (Q * Checkpoint) :=
  match l with
  | [] => []
  | x :: l' =>
      (ratio (length (d ++ [x])) numParts, checkpoint_with checkpoint (d ++ [x]))
      :: progress_reports checkpoint numParts (d ++ [x]) l'
  end.

(** ** More of the example environment *)

(** The parts are copied one after the other. *)
Definition ex_options_seq : Options :=
  mkOptions (Some 102400) (Some 1) None None None.

(** Cancellation is requested while part 5, the last one, is copied. *)
Definition ex_request_cancel5 (params : Params) : Reply Response :=
  mkReply (inr (mkResponse 200 "etag" 0)) (fst (prm_subres params) =? 5).

(** A checkpoint that lists every part as done, and one whose partSize
    is zero. *)
Definition ex_checkpoint_all_done : Checkpoint :=
  mkCheckpoint "target" 512000 102400 "upload-1"
    [mkPartDone 1 "etag"; mkPartDone 2 "etag"; mkPartDone 3 "etag";
     mkPartDone 4 "etag"; mkPartDone 5 "etag"].
Definition ex_checkpoint_zero : Checkpoint :=
  mkCheckpoint "target" 512000 0 "upload-1" [].
Definition ex_options_resume_zero : Options :=
  mkOptions None None (Some ex_checkpoint_zero) None None.

(** The initiation of the upload fails. *)
Definition ex_init_fail (name : string) (options : Options)
    : Reply (string * Response) :=
  mkReply (inl (mkErr (MsgCollaborator "access denied") None)) false.

(** The copies of the parts 2 and 4 fail. *)
Definition ex_request_fail24 (params : Params) : Reply Response :=
  if fst (prm_subres params) =? 2
  then mkReply (inl (mkErr (MsgCollaborator "connection reset") None)) false
  else if fst (prm_subres params) =? 4
  then mkReply (inl (mkErr (MsgCollaborator "timeout") None)) false
  else ok (mkResponse 200 "etag" 0).

(** ** Proofs: the part planner *)

Lemma divide_loop_app fuel : forall i numParts partSize fileSize startOffset acc,
  divide_loop fuel i numParts partSize fileSize startOffset acc =
  acc ++ divide_loop fuel i numParts partSize fileSize startOffset [].
Proof.
  induction fuel as [|fuel IH]; intros; simpl.
  - now rewrite app_nil_r.
  - destruct (i <? numParts); [|now rewrite app_nil_r].
    rewrite IH. rewrite (IH _ _ _ _ _ [_]). now rewrite app_assoc.
Qed.

Lemma divide_loop_length fuel : forall i numParts partSize fileSize startOffset,
  Z.of_nat fuel = numParts - i ->
  length (divide_loop fuel i numParts partSize fileSize startOffset []) = fuel.
Proof.
  induction fuel as [|fuel IH]; intros i n ps fs so Hf; simpl; [reflexivity|].
  destruct (Z.ltb_spec i n); [|lia].
  rewrite divide_loop_app. simpl. rewrite IH by lia. reflexivity.
Qed.

Lemma divide_loop_nth fuel : forall i numParts partSize fileSize startOffset k,
  Z.of_nat fuel = numParts - i ->
  (k < fuel)%nat ->
  nth_error (divide_loop fuel i numParts partSize fileSize startOffset []) k =
  Some (mkPartOff (partSize * (i + Z.of_nat k) + startOffset)
          (Z.min (partSize * (i + Z.of_nat k) + startOffset + partSize)
                 (fileSize + startOffset))).
Proof.
  induction fuel as [|fuel IH]; intros i n ps fs so k Hf Hk; [lia|].
  simpl. destruct (Z.ltb_spec i n); [|lia].
  rewrite divide_loop_app. destruct k as [|k]; simpl.
  - now rewrite Z.add_0_r.
  - rewrite IH by lia. do 3 f_equal; lia.
Qed.

(** The ceiling of a quotient of positive integers. *)
Lemma ceil_bounds a b : 0 < b ->
  (- ((- a) / b) - 1) * b < a <= (- ((- a) / b)) * b.
Proof.
  intros Hb.
  pose proof (Z.div_mod (- a) b ltac:(lia)) as E.
  pose proof (Z.mod_pos_bound (- a) b Hb) as B.
  nia.
Qed.

(** C1: for copySize > 0, partSize > 0 and startOffset >= 0 the planner
    returns exactly ceil(copySize/partSize) parts (the one [n] with
    [(n-1)*partSize < copySize <= n*partSize]); part [i] spans
    [startOffset + i*partSize, min(startOffset + (i+1)*partSize,
    startOffset + copySize)); each part is non-empty, consecutive parts
    abut, two different parts share no byte, and a byte lies in some part
    exactly when it lies in [startOffset, startOffset + copySize); and
    copySize = 250000, partSize = 100000, startOffset = 0 gives the parts
    [0,100000), [100000,200000), [200000,250000). *)
Theorem divide_parts_tiling (copySize partSize startOffset : Z) :
  0 < copySize -> 0 < partSize -> 0 <= startOffset ->
  exists parts n,
    _divideMultipartCopyParts copySize partSize startOffset = Some parts /\
    Z.of_nat (length parts) = n /\
    (n - 1) * partSize < copySize <= n * partSize /\
    (forall i, (i < length parts)%nat ->
       nth_error parts i =
       Some (mkPartOff (startOffset + Z.of_nat i * partSize)
               (Z.min (startOffset + (Z.of_nat i + 1) * partSize)
                      (startOffset + copySize)))) /\
    (forall i p, nth_error parts i = Some p -> start p < end_ p) /\
    (forall i p q, nth_error parts i = Some p -> nth_error parts (S i) = Some q ->
       end_ p = start q) /\
    (forall i j p q b, nth_error parts i = Some p -> nth_error parts j = Some q ->
       in_part b p -> in_part b q -> i = j) /\
    (forall b, (exists p, In p parts /\ in_part b p) <->
               startOffset <= b < startOffset + copySize) /\
    _divideMultipartCopyParts 250000 100000 0 =
      Some [mkPartOff 0 100000; mkPartOff 100000 200000; mkPartOff 200000 250000].
Proof.
  intros Hc Hp Hs.
  unfold _divideMultipartCopyParts, Math_ceil_div.
  destruct (Z.eqb_spec partSize 0) as [|_]; [lia|].
  pose proof (ceil_bounds copySize partSize Hp) as Hn.
  set (n := - ((- copySize) / partSize)) in *.
  assert (Hn1 : 1 <= n) by nia.
  set (parts := divide_loop (Z.to_nat n) 0 n partSize copySize startOffset []).
  assert (Hlen : length parts = Z.to_nat n)
    by (apply divide_loop_length; lia).
  assert (Hnth : forall i, (i < length parts)%nat ->
     nth_error parts i =
       Some (mkPartOff (startOffset + Z.of_nat i * partSize)
               (Z.min (startOffset + (Z.of_nat i + 1) * partSize)
                      (startOffset + copySize)))).
  { intros i Hi. unfold parts. rewrite divide_loop_nth by lia.
    do 2 f_equal; [lia|f_equal; lia]. }
  assert (Hget : forall i p, nth_error parts i = Some p ->
     (i < length parts)%nat /\
     start p = startOffset + Z.of_nat i * partSize /\
     end_ p = Z.min (startOffset + (Z.of_nat i + 1) * partSize)
                    (startOffset + copySize)).
  { intros i p Hip.
    assert (Hi : (i < length parts)%nat)
      by (apply nth_error_Some; congruence).
    rewrite (Hnth i Hi) in Hip. inversion Hip; subst; simpl. auto. }
  exists parts, n.
  split; [reflexivity|]. split; [lia|]. split; [lia|]. split; [exact Hnth|].
  split; [|split; [|split; [|split]]].
  - intros i p Hip. destruct (Hget i p Hip) as (Hi & -> & ->). nia.
  - intros i p q Hip Hiq.
    destruct (Hget _ _ Hip) as (Hi & _ & ->).
    destruct (Hget _ _ Hiq) as (Hj & -> & _). nia.
  - intros i j p q b Hip Hjq [Hb1 Hb2] [Hb3 Hb4].
    destruct (Hget _ _ Hip) as (Hi & Ei & Fi).
    destruct (Hget _ _ Hjq) as (Hj & Ej & Fj).
    rewrite Ei, Fi in *. rewrite Ej, Fj in *.
    assert (Z.of_nat i = Z.of_nat j) by nia. lia.
  - intros b; split.
    + intros (p & Hin & [Hb1 Hb2]).
      apply In_nth_error in Hin as [i Hip].
      destruct (Hget _ _ Hip) as (Hi & Ei & Fi). rewrite Ei, Fi in *. nia.
    + intros [Hb1 Hb2].
      set (i := (b - startOffset) / partSize).
      pose proof (Z.div_mod (b - startOffset) partSize ltac:(lia)) as E.
      pose proof (Z.mod_pos_bound (b - startOffset) partSize Hp) as B.
      fold i in E.
      assert (Hi0 : 0 <= i) by (apply Z.div_pos; lia).
      assert (Hin : i < n) by nia.
      assert (Hi : (Z.to_nat i < length parts)%nat) by lia.
      exists (mkPartOff (startOffset + Z.of_nat (Z.to_nat i) * partSize)
                 (Z.min (startOffset + (Z.of_nat (Z.to_nat i) + 1) * partSize)
                        (startOffset + copySize))).
      split.
      * eapply nth_error_In. apply (Hnth _ Hi).
      * unfold in_part; simpl. rewrite Z2Nat.id by lia. nia.
  - reflexivity.
Qed.

(** ** Proofs: jobs and the pool *)

Section PoolProofs.

Variable request : Params -> Reply Response.
Variable checkpoint : Checkpoint.
Variable sourceData : Source.
Variable options : Options.
Variable partOffs : list PartOff.
Variable schedule : list nat.

Local Abbreviation pool_run' := (pool_run request schedule checkpoint sourceData options partOffs).
Local Abbreviation _thunkPool' := (_thunkPool request schedule checkpoint sourceData options partOffs).
Local Abbreviation job_resume' := (job_resume request checkpoint sourceData options partOffs).
Local Abbreviation resume_job' := (resume_job request checkpoint sourceData options partOffs).
Local Abbreviation run_job' := (run_job request checkpoint sourceData options partOffs).
Local Abbreviation uploadPartJob' := (uploadPartJob request checkpoint sourceData options partOffs).
Local Abbreviation pool_fill' := (pool_fill request checkpoint sourceData options partOffs).
Local Abbreviation pool_deliver' := (pool_deliver request checkpoint sourceData options partOffs).
Local Abbreviation pool_loop' := (pool_loop request checkpoint sourceData options partOffs).
Local Abbreviation pool_step' := (pool_step request checkpoint sourceData options partOffs).
Local Abbreviation pool_steps' := (pool_steps request checkpoint sourceData options partOffs).
Local Abbreviation sequential_loop' := (sequential_loop request checkpoint sourceData options partOffs).

Lemma resume_job_part j s : job_part (fst (resume_job' j s)) = job_part j.
Proof. unfold resume_job. now destruct (job_resume' _ _ _). Qed.

(** The generator of the source and the resumable machine are the same
    job. *)
Lemma uploadPartJob_run_job partNo s :
  uploadPartJob' partNo s =
  (match fst (run_job' partNo s) with
   | Finished None => Return tt
   | Finished (Some e) => Throw (Error e)
   | _ => Diverge
   end, snd (run_job' partNo s)).
Proof.
  unfold uploadPartJob, run_job, job_resume,
    uploadPartCopy, yield, deliver, isCancel, gets, modify, bind, try_catch,
    ret, throw.
  destruct s as [b c d t]; simpl.
  destruct c; simpl; [reflexivity|].
  destruct (partOffs_at partOffs partNo) as [pi|]; simpl; [|reflexivity].
  destruct (request _) as [[e|res] cr]; simpl; [reflexivity|].
  destruct cr; simpl; [reflexivity|].
  destruct (opt_progress options) as [f|]; simpl; [|reflexivity].
  destruct (f _ _ _) as [[e|[]] cr]; simpl; reflexivity.
Qed.

Lemma pool_steps_trans x y z : pool_steps' x y -> pool_steps' y z -> pool_steps' x z.
Proof.
  intros Hxy Hyz. induction Hyz as [|y z w Hyz IH Hstep]; [assumption|].
  eapply PoolTrans; [apply IH; assumption|exact Hstep].
Qed.

Lemma pool_step_one pre j post s :
  pool_steps' (pre ++ j :: post, s)
    (pre ++ fst (resume_job' j s) :: post, snd (resume_job' j s)).
Proof. eapply PoolTrans; [apply PoolRefl|apply PoolStep]. Qed.

Lemma pool_fill_steps jobs : forall slots pre s,
  pool_steps' (pre ++ jobs, s)
    (pre ++ fst (pool_fill' slots jobs s), snd (pool_fill' slots jobs s)).
Proof.
  induction jobs as [|j rest IH]; intros slots pre s; simpl.
  - apply PoolRefl.
  - assert (Hskip : pool_steps' (pre ++ j :: rest, s)
              (pre ++ j :: fst (pool_fill' slots rest s),
               snd (pool_fill' slots rest s))).
    { specialize (IH slots (pre ++ [j]) s).
      rewrite <- !app_assoc in IH. exact IH. }
    destruct (job_state j) eqn:Ej;
      try (destruct (pool_fill' slots rest s) eqn:E; simpl in *; exact Hskip).
    destruct slots as [|slots'];
      [destruct (pool_fill' 0 rest s) eqn:E; simpl in *; exact Hskip|].
    pose proof (pool_step_one pre j rest s) as H1.
    destruct (resume_job' j s) as [j' s1] eqn:Ej'. simpl in H1.
    set (sl := if in_flight j' then slots' else S slots').
    specialize (IH sl (pre ++ [j']) s1). rewrite <- !app_assoc in IH.
    simpl in IH.
    destruct (pool_fill' sl rest s1) eqn:E. simpl in *.
    eapply pool_steps_trans; eassumption.
Qed.

Lemma pool_deliver_steps jobs : forall k pre s,
  pool_steps' (pre ++ jobs, s)
    (pre ++ fst (pool_deliver' k jobs s), snd (pool_deliver' k jobs s)).
Proof.
  induction jobs as [|j rest IH]; intros k pre s; simpl.
  - apply PoolRefl.
  - assert (Hskip : forall k', pool_steps' (pre ++ j :: rest, s)
              (pre ++ j :: fst (pool_deliver' k' rest s),
               snd (pool_deliver' k' rest s))).
    { intros k'. specialize (IH k' (pre ++ [j]) s).
      rewrite <- !app_assoc in IH. exact IH. }
    destruct (in_flight j).
    + destruct k as [|k'].
      * pose proof (pool_step_one pre j rest s) as H1.
        destruct (resume_job' j s); exact H1.
      * specialize (Hskip k'). destruct (pool_deliver' k' rest s); exact Hskip.
    + specialize (Hskip k). destruct (pool_deliver' k rest s); exact Hskip.
Qed.

Lemma pool_loop_steps fuel : forall parallel sched jobs s,
  pool_steps' (jobs, s) (pool_loop' fuel parallel sched jobs s).
Proof.
  induction fuel as [|fuel IH]; intros parallel sched jobs s;
    cbn -[Nat.modulo Nat.sub].
  - apply PoolRefl.
  - destruct (count_in_flight jobs) as [|n]; [apply PoolRefl|].
    set (k := Nat.modulo (hd O sched) (S n)).
    pose proof (pool_deliver_steps jobs k [] s) as H1. simpl in H1.
    destruct (pool_deliver' k jobs s) as [jobs1 s1]. simpl in H1.
    pose proof (pool_fill_steps jobs1 (parallel - count_in_flight jobs1) [] s1) as H2.
    simpl in H2.
    destruct (pool_fill' _ jobs1 s1) as [jobs2 s2]. simpl in H2.
    eapply pool_steps_trans; [exact H1|].
    eapply pool_steps_trans; [exact H2|]. apply IH.
Qed.

(** An invariant of single resumptions holds along every execution. *)
Lemma pool_steps_invariant (I : list Job * State -> Prop) :
  (forall x y, pool_step' x y -> I x -> I y) ->
  forall x y, pool_steps' x y -> I x -> I y.
Proof. intros Hstep x y Hxy. induction Hxy; eauto. Qed.

Lemma resume_job_mk p js s :
  resume_job' (mkJob p js) s =
  (mkJob p (fst (job_resume' p js s)), snd (job_resume' p js s)).
Proof. unfold resume_job. simpl. now destruct (job_resume' p js s). Qed.

Lemma run_job_finished partNo s : exists r, fst (run_job' partNo s) = Finished r.
Proof.
  unfold run_job, job_resume. destruct s as [b c d t]; simpl.
  destruct c; simpl; [eauto|].
  destruct (partOffs_at partOffs partNo) as [pi|]; simpl; [|eauto].
  destruct (request _) as [[e|res] cr]; simpl; [eauto|].
  destruct cr; simpl; [eauto|].
  destruct (opt_progress options) as [f|]; simpl; [|eauto].
  destruct (f _ _ _) as [[e|[]] cr]; simpl; eauto.
Qed.

Lemma run_job_steps pre p post s :
  pool_steps' (pre ++ mkJob p Queued :: post, s)
    (pre ++ mkJob p (fst (run_job' p s)) :: post, snd (run_job' p s)).
Proof.
  unfold run_job.
  pose proof (pool_step_one pre (mkJob p Queued) post s) as H1.
  rewrite resume_job_mk in H1. cbn [fst snd] in H1.
  destruct (job_resume' p Queued s) as [j1 s1]. cbn [fst snd] in H1.
  pose proof (pool_step_one pre (mkJob p j1) post s1) as H2.
  rewrite resume_job_mk in H2. cbn [fst snd] in H2.
  destruct (job_resume' p j1 s1) as [j2 s2]. cbn [fst snd] in H2.
  pose proof (pool_step_one pre (mkJob p j2) post s2) as H3.
  rewrite resume_job_mk in H3. cbn [fst snd] in H3.
  eapply pool_steps_trans; [exact H1|].
  eapply pool_steps_trans; [exact H2|exact H3].
Qed.

Lemma sequential_loop_cons p rest s :
  sequential_loop' (p :: rest) s =
  if cancelFlag s then (Throw CancelEvent, s)
  else match uploadPartJob' p s with
       | (Return _, s') => sequential_loop' rest s'
       | (Throw t, s') => (Throw t, s')
       | (Diverge, s') => (Diverge, s')
       end.
Proof.
  cbn [sequential_loop]. unfold bind, isCancel, gets, throw, _makeCancelEvent.
  destruct (cancelFlag s); reflexivity.
Qed.

(** The sequential loop is an execution of the jobs: the jobs before the
    one that throws have finished, the jobs after it have not started. *)
Lemma sequential_loop_steps todo : forall pre s,
  exists jobs',
    pool_steps' (pre ++ queued_jobs todo, s)
      (pre ++ jobs', snd (sequential_loop' todo s)) /\
    map job_part jobs' = todo /\
    match fst (sequential_loop' todo s) with
    | Return _ => Forall (fun j => job_state j = Finished None) jobs'
    | Throw (Error e) =>
        exists done j rest, jobs' = done ++ j :: rest /\
          Forall (fun j => job_state j = Finished None) done /\
          job_state j = Finished (Some e) /\
          Forall (fun j => job_state j = Queued) rest
    | Throw CancelEvent => cancelFlag (snd (sequential_loop' todo s)) = true
    | Diverge => False
    end.
Proof.
  induction todo as [|p rest IH]; intros pre s.
  - exists []. simpl. repeat split; [apply PoolRefl|constructor].
  - rewrite sequential_loop_cons.
    destruct (cancelFlag s) eqn:Hc.
    + exists (queued_jobs (p :: rest)). cbn [fst snd].
      split; [apply PoolRefl|]. split; [|exact Hc].
      unfold queued_jobs. rewrite map_map. simpl. f_equal. apply map_id.
    + rewrite uploadPartJob_run_job.
      pose proof (run_job_steps pre p (queued_jobs rest) s) as H1.
      destruct (run_job_finished p s) as [r Hr].
      destruct (run_job' p s) as [j3 s3]. simpl in Hr, H1 |- *. subst j3.
      destruct r as [e|].
      * exists (mkJob p (Finished (Some e)) :: queued_jobs rest). simpl.
        split; [exact H1|]. split.
        { f_equal. unfold queued_jobs. rewrite map_map. simpl. apply map_id. }
        exists [], (mkJob p (Finished (Some e))), (queued_jobs rest).
        repeat split; [constructor|].
        unfold queued_jobs. apply Forall_forall. intros j Hj.
        apply in_map_iff in Hj as (q & <- & _). reflexivity.
      * destruct (IH (pre ++ [mkJob p (Finished None)]) s3)
          as (jobs' & Hsteps & Hparts & Hres).
        rewrite <- !app_assoc in Hsteps. simpl in Hsteps.
        exists (mkJob p (Finished None) :: jobs'). simpl.
        split; [eapply pool_steps_trans; eassumption|].
        split; [now rewrite Hparts|].
        destruct (sequential_loop' rest s3) as [[v|[|e]|] s4]; simpl in *.
        { constructor; [reflexivity|assumption]. }
        { assumption. }
        { destruct Hres as (done & j & post & -> & Hd & Hj & Hq).
          exists (mkJob p (Finished None) :: done), j, post.
          repeat split; try assumption. constructor; [reflexivity|assumption]. }
        { assumption. }
Qed.

Lemma pool_run_steps todo parallel s :
  pool_steps' (queued_jobs todo, s) (pool_run' todo parallel s).
Proof.
  unfold pool_run.
  pose proof (pool_fill_steps (queued_jobs todo) (Z.to_nat parallel) [] s) as H1.
  simpl in H1. destruct (pool_fill' _ _ s) as [jobs0 s0]. simpl in H1.
  eapply pool_steps_trans; [exact H1|apply pool_loop_steps].
Qed.

(** *** The pool comes back: every job finishes *)

Local Abbreviation weight jobs := (list_sum (map job_weight jobs)).

Lemma job_trichotomy j :
  (is_queued j = true /\ in_flight j = false /\ is_finished j = false) \/
  (is_queued j = false /\ in_flight j = true /\ is_finished j = false) \/
  (is_queued j = false /\ in_flight j = false /\ is_finished j = true).
Proof. unfold is_queued, in_flight, is_finished. destruct (job_state j); auto. Qed.

Lemma resume_job_not_queued j s : is_queued (fst (resume_job' j s)) = false.
Proof.
  destruct j as [p js]. rewrite resume_job_mk. unfold is_queued, job_resume.
  cbn [fst job_state].
  destruct js as [|r|r|o]; simpl.
  - destruct (cancelFlag s); [reflexivity|].
    destruct (partOffs_at partOffs p); reflexivity.
  - destruct (answer r); [reflexivity|].
    destruct (cancelFlag s || cancel_requested r); [reflexivity|].
    destruct (opt_progress options); reflexivity.
  - destruct (answer r); reflexivity.
  - reflexivity.
Qed.

Lemma resume_job_weight j s :
  (job_weight (fst (resume_job' j s)) <= job_weight j)%nat /\
  (in_flight j = true -> job_weight (fst (resume_job' j s)) < job_weight j)%nat.
Proof.
  destruct j as [p js]. rewrite resume_job_mk.
  unfold job_weight, in_flight, job_resume. cbn [fst job_state].
  destruct js as [|r|r|o]; simpl.
  - destruct (cancelFlag s); simpl; [split; [lia|discriminate]|].
    destruct (partOffs_at partOffs p); simpl; split; try lia; discriminate.
  - destruct (answer r); simpl; [split; lia|].
    destruct (cancelFlag s || cancel_requested r); simpl; [split; lia|].
    destruct (opt_progress options); simpl; split; lia.
  - destruct (answer r); simpl; split; lia.
  - split; [lia|discriminate].
Qed.

Lemma pool_fill_zero jobs : forall s, pool_fill' 0 jobs s = (jobs, s).
Proof.
  induction jobs as [|j rest IH]; intros s; simpl; [reflexivity|].
  rewrite IH. now destruct (job_state j).
Qed.

Lemma count_in_flight_cons j jobs :
  count_in_flight (j :: jobs) =
  ((if in_flight j then 1 else 0) + count_in_flight jobs)%nat.
Proof. unfold count_in_flight. simpl. now destruct (in_flight j). Qed.

Lemma pool_fill_weight jobs : forall slots s,
  (weight (fst (pool_fill' slots jobs s)) <= weight jobs)%nat.
Proof.
  induction jobs as [|j rest IH]; intros slots s; simpl; [lia|].
  assert (Hskip : forall sl s0,
            (weight (j :: fst (pool_fill' sl rest s0)) <= weight (j :: rest))%nat).
  { intros sl s0. specialize (IH sl s0). simpl. lia. }
  destruct (job_state j) eqn:Ej;
    try (specialize (Hskip slots s);
         destruct (pool_fill' slots rest s); exact Hskip).
  destruct slots as [|slots'];
    [specialize (Hskip O s); destruct (pool_fill' 0 rest s); exact Hskip|].
  pose proof (resume_job_weight j s) as [Hw _].
  destruct (resume_job' j s) as [j' s1]. cbn [fst] in Hw.
  set (sl := if in_flight j' then slots' else S slots').
  specialize (IH sl s1). destruct (pool_fill' sl rest s1). simpl in *. lia.
Qed.

(** After a fill no job waits while a slot is free. *)
Lemma pool_fill_saturated jobs : forall slots s,
  (count_in_flight (fst (pool_fill' slots jobs s))
   <= count_in_flight jobs + slots)%nat /\
  (existsb is_queued (fst (pool_fill' slots jobs s)) = false \/
   count_in_flight (fst (pool_fill' slots jobs s)) =
   (count_in_flight jobs + slots)%nat).
Proof.
  induction jobs as [|j rest IH]; intros slots s.
  - simpl. split; [unfold count_in_flight; simpl; lia|now left].
  - destruct slots as [|slots'].
    { rewrite pool_fill_zero. cbn [fst]. split; [lia|right; lia]. }
    cbn [pool_fill].
    destruct (job_trichotomy j) as [(Hq & Hf & _)|[(Hq & Hf & _)|(Hq & Hf & _)]].
    + assert (Ej : job_state j = Queued)
        by (unfold is_queued in Hq; destruct (job_state j); congruence).
      rewrite Ej.
      pose proof (resume_job_not_queued j s) as Hnq.
      destruct (resume_job' j s) as [j' s1]. cbn [fst] in Hnq.
      destruct (in_flight j') eqn:Hf'.
      * specialize (IH slots' s1). destruct (pool_fill' slots' rest s1) as [rest' s2].
        cbn [fst] in *. rewrite !count_in_flight_cons, Hf, Hf'.
        cbn [existsb]. rewrite Hnq. simpl. destruct IH as [IH1 IH2];
          (split; [lia|]); destruct IH2 as [IH2|IH2]; [now left|right; lia].
      * specialize (IH (S slots') s1).
        destruct (pool_fill' (S slots') rest s1) as [rest' s2].
        cbn [fst] in *. rewrite !count_in_flight_cons, Hf, Hf'.
        cbn [existsb]. rewrite Hnq. simpl. destruct IH as [IH1 IH2];
          (split; [lia|]); destruct IH2 as [IH2|IH2]; [now left|right; lia].
    + assert (Ej : job_state j <> Queued)
        by (unfold is_queued in Hq; destruct (job_state j); congruence).
      specialize (IH (S slots') s).
      assert (E : (match job_state j with
              | Queued =>
                  let (j', s1) := resume_job' j s in
                  let (rest', s2) :=
                    pool_fill' (if in_flight j' then slots' else S slots') rest s1 in
                  (j' :: rest', s2)
              | _ => let (rest', s2) := pool_fill' (S slots') rest s in (j :: rest', s2)
              end) = (j :: fst (pool_fill' (S slots') rest s),
                      snd (pool_fill' (S slots') rest s))).
      { destruct (job_state j); try congruence;
          now destruct (pool_fill' (S slots') rest s). }
      rewrite E. cbn [fst]. rewrite !count_in_flight_cons, Hf.
      cbn [existsb]. rewrite Hq. simpl. destruct IH as [IH1 IH2];
        (split; [lia|]); destruct IH2 as [IH2|IH2]; [now left|right; lia].
    + assert (Ej : job_state j <> Queued)
        by (unfold is_queued in Hq; destruct (job_state j); congruence).
      specialize (IH (S slots') s).
      assert (E : (match job_state j with
              | Queued =>
                  let (j', s1) := resume_job' j s in
                  let (rest', s2) :=
                    pool_fill' (if in_flight j' then slots' else S slots') rest s1 in
                  (j' :: rest', s2)
              | _ => let (rest', s2) := pool_fill' (S slots') rest s in (j :: rest', s2)
              end) = (j :: fst (pool_fill' (S slots') rest s),
                      snd (pool_fill' (S slots') rest s))).
      { destruct (job_state j); try congruence;
          now destruct (pool_fill' (S slots') rest s). }
      rewrite E. cbn [fst]. rewrite !count_in_flight_cons, Hf.
      cbn [existsb]. rewrite Hq. simpl. destruct IH as [IH1 IH2];
        (split; [lia|]); destruct IH2 as [IH2|IH2]; [now left|right; lia].
Qed.

Lemma pool_deliver_weight jobs : forall k s,
  (k < count_in_flight jobs)%nat ->
  (weight (fst (pool_deliver' k jobs s)) < weight jobs)%nat.
Proof.
  induction jobs as [|j rest IH]; intros k s Hk.
  - unfold count_in_flight in Hk. simpl in Hk. lia.
  - rewrite count_in_flight_cons in Hk. cbn [pool_deliver].
    destruct (in_flight j) eqn:Hf.
    + destruct k as [|k'].
      * pose proof (resume_job_weight j s) as [_ Hw]. specialize (Hw Hf).
        destruct (resume_job' j s) as [j' s1]. simpl in *. lia.
      * specialize (IH k' s ltac:(lia)).
        destruct (pool_deliver' k' rest s). simpl in *. lia.
    + specialize (IH k s ltac:(lia)).
      destruct (pool_deliver' k rest s). simpl in *. lia.
Qed.

Lemma weight_zero_finished jobs :
  weight jobs = O -> forallb is_finished jobs = true.
Proof.
  induction jobs as [|j rest IH]; simpl; [reflexivity|].
  intros H. rewrite IH by lia.
  unfold job_weight, is_finished in *. destruct (job_state j); simpl in *; lia.
Qed.

Lemma idle_finished jobs :
  count_in_flight jobs = O -> existsb is_queued jobs = false ->
  forallb is_finished jobs = true.
Proof.
  induction jobs as [|j rest IH]; [reflexivity|].
  rewrite count_in_flight_cons. cbn [existsb forallb].
  intros Hc Hq. apply orb_false_elim in Hq as [Hq1 Hq2].
  rewrite IH by (assumption || lia).
  destruct (job_trichotomy j) as [(? & ? & ?)|[(? & E & ?)|(? & ? & ->)]];
    [congruence| rewrite E in Hc; lia | reflexivity].
Qed.

Lemma pool_loop_finishes fuel : forall parallel sched jobs s,
  (1 <= parallel)%nat ->
  (weight jobs <= fuel)%nat ->
  (count_in_flight jobs = O -> existsb is_queued jobs = false) ->
  forallb is_finished (fst (pool_loop' fuel parallel sched jobs s)) = true.
Proof.
  induction fuel as [|fuel IH]; intros parallel sched jobs s Hp Hw Hsat;
    cbn -[Nat.modulo Nat.sub].
  - apply weight_zero_finished. lia.
  - destruct (count_in_flight jobs) as [|n] eqn:Hc.
    + cbn [fst]. apply idle_finished; auto.
    + set (k := Nat.modulo (hd O sched) (S n)).
      assert (Hk : (k < count_in_flight jobs)%nat).
      { rewrite Hc. apply Nat.mod_upper_bound. lia. }
      pose proof (pool_deliver_weight jobs k s Hk) as Hd.
      destruct (pool_deliver' k jobs s) as [jobs1 s1]. cbn [fst] in Hd.
      pose proof (pool_fill_weight jobs1 (parallel - count_in_flight jobs1) s1) as Hf.
      pose proof (pool_fill_saturated jobs1 (parallel - count_in_flight jobs1) s1)
        as [_ Hs].
      destruct (pool_fill' _ jobs1 s1) as [jobs2 s2]. cbn [fst] in Hf, Hs.
      apply IH; [assumption|lia|].
      intros Hz. destruct Hs as [Hs|Hs]; [assumption|lia].
Qed.

Lemma queued_jobs_weight todo : weight (queued_jobs todo) = (2 * length todo)%nat.
Proof. induction todo as [|p rest IH]; simpl in *; lia. Qed.

Lemma queued_jobs_idle todo : count_in_flight (queued_jobs todo) = O.
Proof.
  induction todo as [|p rest IH]; [reflexivity|].
  unfold queued_jobs in *. cbn [map]. rewrite count_in_flight_cons. exact IH.
Qed.

(** With a positive bound the pool runs every job to its end. *)
Lemma pool_run_finished todo parallel s :
  0 < parallel ->
  forallb is_finished (fst (pool_run' todo parallel s)) = true.
Proof.
  intros Hp. unfold pool_run.
  pose proof (pool_fill_weight (queued_jobs todo) (Z.to_nat parallel) s) as Hw.
  pose proof (pool_fill_saturated (queued_jobs todo) (Z.to_nat parallel) s) as [_ Hs].
  rewrite queued_jobs_idle in Hs. rewrite queued_jobs_weight in Hw.
  destruct (pool_fill' _ _ s) as [jobs0 s0]. cbn [fst] in *.
  apply pool_loop_finishes; [lia|lia|].
  intros Hz. destruct Hs as [Hs|Hs]; [assumption|lia].
Qed.

(** *** Progress reports stay in range *)

Lemma ratio_bounds len n :
  (len <= n)%nat -> (0 <= ratio len n /\ ratio len n <= 1)%Q.
Proof.
  intros H. unfold ratio. destruct n as [|n].
  - assert (len = O) by lia. subst. split; discriminate.
  - unfold Qdiv, Qinv, Qmult, Qle, inject_Z. simpl Z.of_nat at 2. simpl.
    split; lia.
Qed.

Lemma filter_length_middle {A} (f : A -> bool) pre j post :
  length (filter f (pre ++ j :: post)) =
  (length (filter f pre) + (if f j then 1 else 0) + length (filter f post))%nat.
Proof.
  rewrite filter_app, length_app. simpl. destruct (f j); simpl; lia.
Qed.

Lemma resume_job_progress j s :
  (length (doneParts s) + (if may_push j then 1 else 0) <= length partOffs)%nat ->
  (length (doneParts (snd (resume_job' j s)))
   + (if may_push (fst (resume_job' j s)) then 1 else 0)
   <= length (doneParts s) + (if may_push j then 1 else 0))%nat /\
  exists evs, trace (snd (resume_job' j s)) = trace s ++ evs /\
              Forall ratio_in_range evs.
Proof.
  destruct j as [p js]. rewrite resume_job_mk. cbn [fst snd].
  unfold may_push, job_resume. cbn [job_state].
  intros Hb.
  assert (Hnil : forall t : list Event, t = t ++ []) by (intros; now rewrite app_nil_r).
  destruct js as [|r|r|o].
  - destruct (cancelFlag s); simpl;
      [split; [lia|exists []; split; [apply Hnil|constructor]]|].
    destruct (partOffs_at partOffs p); simpl.
    + split; [lia|]. eexists; split; [reflexivity|]. repeat constructor.
    + split; [lia|exists []; split; [apply Hnil|constructor]].
  - destruct (answer r) as [e|res]; simpl;
      [split; [lia|exists []; split; [apply Hnil|constructor]]|].
    destruct (cancelFlag s || cancel_requested r); simpl;
      [split; [lia|exists []; split; [apply Hnil|constructor]]|].
    destruct (opt_progress options) as [f|]; simpl.
    + rewrite length_app. simpl. split; [lia|].
      eexists; split; [reflexivity|]. constructor; [|constructor].
      simpl. apply ratio_bounds. lia.
    + rewrite length_app. simpl.
      split; [lia|exists []; split; [apply Hnil|constructor]].
  - destruct (answer r); simpl;
      split; try lia; exists []; (split; [apply Hnil|constructor]).
  - simpl. split; [lia|exists []; split; [apply Hnil|constructor]].
Qed.

Lemma progress_inv_step t0 x y :
  pool_step' x y ->
  progress_inv partOffs t0 x -> progress_inv partOffs t0 y.
Proof.
  intros Hstep [Hb (evs & Ht & Hr)]. destruct Hstep as [pre j post s].
  cbn [fst snd] in *. rewrite filter_length_middle in Hb.
  destruct (resume_job_progress j s ltac:(lia)) as [Hb' (evs' & Ht' & Hr')].
  split.
  - cbn [fst snd]. rewrite filter_length_middle. lia.
  - exists (evs ++ evs'). cbn [snd]. rewrite Ht', Ht, app_assoc.
    split; [reflexivity|]. apply Forall_app; auto.
Qed.

(** Whatever the jobs do, every ratio they report lies in [0, 1] when
    [doneParts] and the jobs to run together do not exceed the plan. *)
Lemma pool_steps_progress jobs s y :
  (length (doneParts s) + length jobs <= length partOffs)%nat ->
  pool_steps' (jobs, s) y ->
  exists evs, trace (snd y) = trace s ++ evs /\ Forall ratio_in_range evs.
Proof.
  intros Hb Hsteps.
  apply (pool_steps_invariant (progress_inv partOffs (trace s))
           (progress_inv_step (trace s)) _ _ Hsteps).
  split.
  - cbn [fst snd]. pose proof (filter_length_le may_push jobs). lia.
  - exists []. cbn [snd]. rewrite app_nil_r. split; [reflexivity|constructor].
Qed.

Lemma copied_entry_numbers (parts : list Z) :
  map number
    (flat_map (copied_entry request checkpoint sourceData options partOffs) parts) =
  filter (copy_succeeds request checkpoint sourceData options partOffs) parts.
Proof.
  induction parts as [|p rest IH]; [reflexivity|].
  cbn [flat_map filter]. rewrite map_app, IH.
  unfold copied_entry, copy_succeeds.
  destruct (part_reply request checkpoint sourceData options partOffs p)
    as [r|]; [|reflexivity].
  destruct (answer r); reflexivity.
Qed.

(** *** The log only grows *)

Lemma resume_job_trace j s :
  exists evs, trace (snd (resume_job' j s)) = trace s ++ evs.
Proof.
  destruct j as [p js]. rewrite resume_job_mk. cbn [fst snd].
  unfold job_resume.
  assert (Hnil : exists evs, trace s = trace s ++ evs)
    by (exists []; now rewrite app_nil_r).
  destruct js as [|r|r|o]; cbn.
  - destruct (cancelFlag s); [exact Hnil|].
    destruct (partOffs_at partOffs p); cbn; [eauto|exact Hnil].
  - destruct (answer r); cbn; [exact Hnil|].
    destruct (cancelFlag s || cancel_requested r); cbn; [exact Hnil|].
    destruct (opt_progress options); cbn; [eauto|exact Hnil].
  - destruct (answer r); cbn; exact Hnil.
  - exact Hnil.
Qed.

Lemma pool_steps_trace x y :
  pool_steps' x y -> exists evs, trace (snd y) = trace (snd x) ++ evs.
Proof.
  intros H. induction H as [|x y z Hxy IH Hstep].
  - exists []. now rewrite app_nil_r.
  - destruct IH as [evs IH]. destruct Hstep as [pre j post s].
    cbn [snd] in *. destruct (resume_job_trace j s) as [evs' E].
    exists (evs ++ evs'). now rewrite E, IH, app_assoc.
Qed.

(** *** Executions in which nothing is cancelled *)

Section NoCancel.

Hypothesis Hnc : never_cancelled request options.

Local Abbreviation part_params' := (part_params checkpoint sourceData options partOffs).
Local Abbreviation part_reply' := (part_reply request checkpoint sourceData options partOffs).
Local Abbreviation copy_fails' := (copy_fails request checkpoint sourceData options partOffs).
Local Abbreviation copy_succeeds' := (copy_succeeds request checkpoint sourceData options partOffs).
Local Abbreviation copied_entry' := (copied_entry request checkpoint sourceData options partOffs).
Local Abbreviation recorded' := (recorded request checkpoint sourceData options partOffs).
Local Abbreviation job_ok' := (job_ok request checkpoint sourceData options partOffs).
Local Abbreviation requested' := (requested checkpoint sourceData options partOffs).
Local Abbreviation nocancel_inv' := (nocancel_inv request checkpoint sourceData options partOffs).

Lemma resume_job_nocancel j s :
  cancelFlag s = false -> job_ok' j ->
  cancelFlag (snd (resume_job' j s)) = false /\
  job_ok' (fst (resume_job' j s)) /\
  (exists delta,
     doneParts (snd (resume_job' j s)) = doneParts s ++ delta /\
     recorded' (fst (resume_job' j s)) = recorded' j ++ delta) /\
  (exists evs,
     trace (snd (resume_job' j s)) = trace s ++ evs /\
     (is_queued j = true -> requested' evs (fst (resume_job' j s)))).
Proof.
  destruct Hnc as [Hreq Hprog].
  destruct j as [p js]. rewrite resume_job_mk. cbn [fst snd].
  unfold job_ok, recorded, requested, may_push, is_queued, job_resume,
    copy_succeeds, copy_fails, copied_entry, part_reply, part_params.
  cbn [job_state job_part].
  intros Hc Hok.
  assert (Hnil : forall A (t : list A), t = t ++ []) by (intros; now rewrite app_nil_r).
  destruct js as [|r|r|o].
  - rewrite Hc. destruct (partOffs_at partOffs p) as [pi|] eqn:Hpi; cbn.
    + split; [first [assumption|reflexivity]|]. split; [reflexivity|].
      split; [exists []; split; [apply Hnil|reflexivity]|].
      eexists; split; [reflexivity|]. intros _ _ prm [= <-]. now left.
    + split; [first [assumption|reflexivity]|]. split.
      { split; [reflexivity|]. split; [intros e0 (r & [=] & _)|discriminate]. }
      split; [exists []; split; [apply Hnil|reflexivity]|].
      exists []; split; [apply Hnil|]. intros _ _ prm [=].
  - destruct (partOffs_at partOffs p) as [pi|] eqn:Hpi; [|discriminate].
    cbn in Hok. injection Hok as Hr.
    assert (Hcr : cancel_requested r = false) by (rewrite <- Hr; apply Hreq).
    rewrite Hc, Hcr. cbn. rewrite ?Hr.
    destruct (answer r) as [e|res] eqn:Ha; cbn.
    + split; [first [assumption|reflexivity]|]. split.
      { split; [reflexivity|]. split; [|discriminate].
        intros e0 (r' & [= <-] & Ha'). congruence. }
      split; [exists []; split; [apply Hnil|reflexivity]|].
      exists []; split; [apply Hnil|discriminate].
    + destruct (opt_progress options) as [f|] eqn:Hf; cbn.
      * split; [first [assumption|reflexivity]|]. split; [split; [reflexivity|eauto 6]|].
        split; [eexists; split; reflexivity|].
        eexists; split; [reflexivity|discriminate].
      * split; [first [assumption|reflexivity]|]. split; [reflexivity|].
        split; [eexists; split; reflexivity|].
        exists []; split; [apply Hnil|discriminate].
  - destruct Hok as (Hok & f & r0 & c & x & Hf & ->).
    rewrite Hc, (Hprog _ r0 c x Hf). cbn.
    destruct (answer (f r0 c x)) as [e|[]] eqn:Ha; cbn.
    + split; [first [assumption|reflexivity]|]. split.
      { split; [reflexivity|]. split.
        - intros e0 (r' & Hr' & Ha'). rewrite Hr' in Hok. rewrite Ha' in Hok.
          discriminate.
        - intros _. exists f, r0, c, x, e. auto. }
      split; [exists []; split; [apply Hnil|apply Hnil]|].
      exists []; split; [apply Hnil|discriminate].
    + split; [first [assumption|reflexivity]|]. split; [first [assumption|reflexivity]|].
      split; [exists []; split; [apply Hnil|apply Hnil]|].
      exists []; split; [apply Hnil|discriminate].
  - cbn. split; [first [assumption|reflexivity]|]. split; [first [assumption|reflexivity]|].
    split; [exists []; split; [apply Hnil|apply Hnil]|].
    exists []; split; [apply Hnil|discriminate].
Qed.

Lemma perm_insert {A} (a b c d : list A) :
  Permutation ((a ++ b ++ c) ++ d) (a ++ (b ++ d) ++ c).
Proof.
  rewrite <- !app_assoc. do 2 apply Permutation_app_head.
  apply Permutation_app_comm.
Qed.

Lemma requested_more evs evs' j : requested' evs j -> requested' (evs ++ evs') j.
Proof. intros H Hq prm Hp. apply in_or_app. left. now apply H. Qed.

Lemma nocancel_inv_step d0 t0 x y :
  pool_step' x y -> nocancel_inv' d0 t0 x -> nocancel_inv' d0 t0 y.
Proof.
  intros Hstep (Hc & Hok & (l & Hd & Hl) & (evs & Ht & Hreq)).
  destruct Hstep as [pre j post s]. cbn [fst snd] in *.
  apply Forall_app in Hok as [Hok1 Hok2].
  apply Forall_cons_iff in Hok2 as [Hokj Hok2].
  apply Forall_app in Hreq as [Hreq1 Hreq2].
  apply Forall_cons_iff in Hreq2 as [Hreqj Hreq2].
  destruct (resume_job_nocancel j s Hc Hokj)
    as (Hc' & Hok' & (delta & Hd' & Hrec) & (evs' & Ht' & Hreq')).
  pose proof (resume_job_part j s) as Hpart.
  split; [|split; [|split]]; cbn [fst snd].
  - exact Hc'.
  - apply Forall_app. split; [assumption|]. constructor; assumption.
  - exists (l ++ delta). split; [rewrite Hd', Hd; now rewrite app_assoc|].
    rewrite flat_map_app in *. cbn [flat_map] in *. rewrite Hrec.
    eapply Permutation_trans; [apply Permutation_app_tail; exact Hl|].
    apply perm_insert.
  - exists (evs ++ evs'). split; [rewrite Ht', Ht; now rewrite app_assoc|].
    apply Forall_app. split.
    + eapply Forall_impl; [|exact Hreq1]. intros a; apply requested_more.
    + constructor.
      * destruct (is_queued j) eqn:Hq.
        { intros Hq' prm Hp. apply in_or_app. right. now apply Hreq'. }
        { intros Hq' prm Hp. apply in_or_app. left.
          apply Hreqj; [assumption|]. now rewrite <- Hpart. }
      * eapply Forall_impl; [|exact Hreq2]. intros a; apply requested_more.
Qed.

Lemma nocancel_inv_init todo s :
  cancelFlag s = false ->
  nocancel_inv' (doneParts s) (trace s) (queued_jobs todo, s).
Proof.
  intros Hc. split; [|split; [|split]]; cbn [fst snd].
  - exact Hc.
  - apply Forall_forall. intros j Hj.
    apply in_map_iff in Hj as (p & <- & _). exact I.
  - exists []. rewrite app_nil_r. split; [reflexivity|].
    induction todo as [|p rest IH]; simpl; [constructor|exact IH].
  - exists []. rewrite app_nil_r. split; [reflexivity|].
    apply Forall_forall. intros j Hj.
    apply in_map_iff in Hj as (p & <- & _). intros Hq. discriminate.
Qed.

Lemma pool_steps_parts x y :
  pool_steps' x y -> map job_part (fst y) = map job_part (fst x).
Proof.
  intros H. induction H as [|x y z Hxy IH Hstep]; [reflexivity|].
  rewrite <- IH. destruct Hstep as [pre j post s]. cbn [fst].
  rewrite !map_app. cbn [map]. now rewrite resume_job_part.
Qed.

Lemma queued_jobs_parts todo : map job_part (queued_jobs todo) = todo.
Proof. unfold queued_jobs. rewrite map_map. simpl. apply map_id. Qed.

Lemma recorded_finished jobs :
  forallb is_finished jobs = true ->
  flat_map recorded' jobs = flat_map copied_entry' (map job_part jobs).
Proof.
  induction jobs as [|j rest IH]; [reflexivity|].
  cbn [forallb map flat_map]. intros H. apply andb_prop in H as [Hj Hr].
  rewrite IH by assumption. f_equal.
  unfold recorded, may_push, is_finished in *. now destruct (job_state j).
Qed.

(** When every job has finished and nothing was cancelled: [doneParts]
    has gained exactly the entries of the parts whose copy succeeded, and
    the request of every part is in the log. *)
Lemma nocancel_finished todo s jobs s' :
  cancelFlag s = false ->
  pool_steps' (queued_jobs todo, s) (jobs, s') ->
  forallb is_finished jobs = true ->
  cancelFlag s' = false /\
  map job_part jobs = todo /\
  Forall job_ok' jobs /\
  (exists l, doneParts s' = doneParts s ++ l /\
             Permutation l (flat_map copied_entry' todo)) /\
  (exists evs, trace s' = trace s ++ evs /\
     forall p prm, In p todo -> part_params' p = Some prm ->
                   In (EvRequest prm) evs).
Proof.
  intros Hc Hsteps Hfin.
  pose proof (pool_steps_parts _ _ Hsteps) as Hparts.
  cbn [fst] in Hparts. rewrite queued_jobs_parts in Hparts.
  pose proof (pool_steps_invariant _ (nocancel_inv_step (doneParts s) (trace s))
                _ _ Hsteps (nocancel_inv_init todo s Hc))
    as (Hc' & Hok & (l & Hd & Hl) & (evs & Ht & Hreq)).
  cbn [fst snd] in *.
  split; [assumption|]. split; [assumption|]. split; [assumption|]. split.
  - exists l. split; [assumption|].
    rewrite recorded_finished, Hparts in Hl; assumption.
  - exists evs. split; [assumption|].
    intros p prm Hin Hprm. rewrite <- Hparts in Hin.
    apply in_map_iff in Hin as (j & <- & Hj).
    rewrite Forall_forall in Hreq. apply (Hreq j Hj); [|assumption].
    rewrite forallb_forall in Hfin. specialize (Hfin j Hj).
    unfold is_finished, is_queued in *. now destruct (job_state j).
Qed.

Lemma nocancel_reach todo s jobs s' :
  cancelFlag s = false ->
  pool_steps' (queued_jobs todo, s) (jobs, s') ->
  cancelFlag s' = false /\ Forall job_ok' jobs /\ map job_part jobs = todo.
Proof.
  intros Hc Hsteps.
  pose proof (pool_steps_parts _ _ Hsteps) as Hparts.
  cbn [fst] in Hparts. rewrite queued_jobs_parts in Hparts.
  pose proof (pool_steps_invariant _ (nocancel_inv_step (doneParts s) (trace s))
                _ _ Hsteps (nocancel_inv_init todo s Hc))
    as (Hc' & Hok & _).
  auto.
Qed.

(** No job fails when every copy succeeds and the progress callback
    never throws. *)
Lemma job_ok_no_failure j e :
  job_ok' j ->
  copy_succeeds' (job_part j) = true ->
  (forall f r c x, opt_progress options = Some f -> answer (f r c x) = inr tt) ->
  job_state j <> Finished (Some e).
Proof.
  intros Hok Hcopy Hprog Hj. unfold job_ok in Hok. rewrite Hj in Hok.
  destruct Hok as (_ & _ & Hp).
  destruct (Hp Hcopy) as (f & r & c & x & e0 & Hf & Ha & _).
  rewrite (Hprog f r c x Hf) in Ha. discriminate.
Qed.

End NoCancel.

End PoolProofs.

(** ** Proofs: the copy *)

Lemma all_parts_in_plan (partOffs : list PartOff) (done : list Z) (p : Z) :
  In p (todo_parts (all_parts (length partOffs)) done) ->
  exists pi, partOffs_at partOffs p = Some pi.
Proof.
  unfold todo_parts, all_parts. intros H.
  apply filter_In in H as [H _].
  apply in_map_iff in H as (i & <- & Hi). apply in_seq in Hi.
  unfold partOffs_at. destruct (Z.ltb_spec (Z.of_nat i + 1 - 1) 0); [lia|].
  replace (Z.to_nat (Z.of_nat i + 1 - 1)) with i by lia.
  destruct (nth_error partOffs i) eqn:E; [eauto|].
  apply nth_error_None in E. lia.
Qed.

Lemma todo_parts_fresh (all : list Z) : todo_parts all [] = all.
Proof.
  unfold todo_parts. induction all as [|p rest IH]; [reflexivity|].
  cbn [filter existsb negb]. f_equal. exact IH.
Qed.

Lemma all_parts_length n : length (all_parts n) = n.
Proof. unfold all_parts. now rewrite length_map, length_seq. Qed.

(** The first error of a finished batch belongs to the first failed job. *)
Lemma first_error (jobs : list Job) (e : Err) (rest : list Err) :
  forallb is_finished jobs = true ->
  flat_map job_error jobs = e :: rest ->
  exists pre j post,
    jobs = pre ++ j :: post /\
    Forall (fun j => job_state j = Finished None) pre /\
    job_state j = Finished (Some e).
Proof.
  induction jobs as [|j jobs IH]; [discriminate|].
  cbn [forallb flat_map]. intros Hf He. apply andb_prop in Hf as [Hj Hf].
  unfold is_finished, job_error in *.
  destruct (job_state j) as [| | |[e'|]] eqn:Ej; try discriminate.
  - injection He as -> _. exists [], j, jobs. repeat split; [constructor|assumption].
  - destruct (IH Hf He) as (pre & j' & post & -> & Hpre & Hj').
    exists (j :: pre), j', post. repeat split; [constructor|]; assumption.
Qed.

(** A checkpoint that lists distinct parts of the plan leaves, with the
    parts to copy, no more entries than the plan has parts. *)
Lemma consistent_checkpoint_bound (checkpoint : Checkpoint)
    (partOffs : list PartOff) :
  NoDup (map number (cp_doneParts checkpoint)) ->
  incl (map number (cp_doneParts checkpoint)) (all_parts (length partOffs)) ->
  (length (cp_doneParts checkpoint) + length (resume_todo checkpoint partOffs)
   <= length partOffs)%nat.
Proof.
  intros Hnd Hincl. unfold resume_todo, todo_parts.
  set (done := map number (cp_doneParts checkpoint)) in *.
  set (all := all_parts (length partOffs)) in *.
  pose proof (filter_length (fun p => existsb (Z.eqb p) done) all) as Hlen.
  assert (Hle : (length done <= length (filter (fun p => existsb (Z.eqb p) done) all))%nat).
  { apply NoDup_incl_length; [exact Hnd|].
    intros p Hp. apply filter_In. split; [now apply Hincl|].
    apply existsb_exists. exists p. split; [exact Hp|apply Z.eqb_refl]. }
  unfold all in Hlen at 3. rewrite all_parts_length in Hlen.
  unfold done in Hle at 1. rewrite length_map in Hle. lia.
Qed.

Lemma yield_eq {A} (e : Event) (r : Reply A) (s : State) :
  yield e r s =
  (match answer r with
   | inl err => Throw (Error err)
   | inr a => Return a
   end,
   set_cancelFlag (cancelFlag s || cancel_requested r) (log e s)).
Proof.
  unfold yield, bind, modify, deliver. cbn [cancelFlag log].
  destruct (answer r); reflexivity.
Qed.

Section Claims.

Variable head : string -> string -> Reply Response.
Variable initMultipartUpload : string -> Options -> Reply (string * Response).
Variable request : Params -> Reply Response.
Variable completeMultipartUpload :
  string -> string -> list PartDone -> Options -> Reply string.
Variable checkBrowserAndVersion : string -> string -> bool.
Variable _getPartSize : Z -> option Z -> Z.
Variable schedule : list nat.

Local Abbreviation resume' :=
  (_resumeMultipartCopy request completeMultipartUpload checkBrowserAndVersion
     schedule).
Local Abbreviation copy_parts' :=
  (copy_parts request checkBrowserAndVersion schedule).
Local Abbreviation copy' :=
  (multipartUploadCopy head initMultipartUpload request completeMultipartUpload
     checkBrowserAndVersion _getPartSize schedule).

(** The last step of [_resumeMultipartCopy]: the complete-upload call
    with [doneParts] as it stands. *)
Lemma resume_run checkpoint sourceData options partOffs s :
  cancelFlag s = false ->
  _divideMultipartCopyParts (cp_copySize checkpoint) (cp_partSize checkpoint)
    (src_startOffset sourceData) = Some partOffs ->
  let s0 := set_doneParts (cp_doneParts checkpoint) s in
  let body := copy_parts' checkpoint sourceData options partOffs in
  resume' checkpoint sourceData options s =
  match body s0 with
  | (Return _, s1) =>
      yield (EvCompleteMultipartUpload (cp_name checkpoint)
               (cp_uploadId checkpoint) (doneParts s1))
        (completeMultipartUpload (cp_name checkpoint) (cp_uploadId checkpoint)
           (doneParts s1) options) s1
  | (Throw t, s1) => (Throw t, s1)
  | (Diverge, s1) => (Diverge, s1)
  end.
Proof.
  intros Hc Hd. cbv zeta.
  unfold _resumeMultipartCopy. rewrite Hd.
  unfold bind at 1. unfold modify at 1.
  unfold bind at 1. unfold isCancel at 1, gets at 1.
  cbn [cancelFlag set_doneParts]. rewrite Hc.
  unfold bind at 1. reflexivity.
Qed.

(** C2: a parallel run ([parallel] is not 1, the browser is not IE 10) in
    which cancellation is never requested and at least one part job
    fails. When the error is raised every job of the batch has finished
    and the request of every part to copy has been made; the error raised
    is that of the first failed job in submission order, whose part
    number it carries in [partNum], under the message `Failed to copy
    some parts ...`; a part whose copy fails leaves its job failed with
    that error; and [doneParts] is the checkpoint's [doneParts] followed,
    in some order, by exactly the entries of the parts whose copy
    succeeded. *)
Theorem parallel_failure_after_whole_batch
    (checkpoint : Checkpoint) (sourceData : Source) (options : Options)
    (partOffs : list PartOff) (s : State) :
  let parallel := or_default (opt_parallel options) defaultParallel in
  let todo := resume_todo checkpoint partOffs in
  let jobs := fst (pool_run request schedule checkpoint sourceData options
                     partOffs todo parallel
                     (set_doneParts (cp_doneParts checkpoint) s)) in
  let r := resume' checkpoint sourceData options s in
  checkBrowserAndVersion "Internet Explorer" "10" = false ->
  1 < parallel ->
  cancelFlag s = false ->
  never_cancelled request options ->
  _divideMultipartCopyParts (cp_copySize checkpoint) (cp_partSize checkpoint)
    (src_startOffset sourceData) = Some partOffs ->
  (exists j, In j jobs /\ job_error j <> []) ->
  map job_part jobs = todo /\
  forallb is_finished jobs = true /\
  (exists evs, trace (snd r) = trace s ++ evs /\
     forall p, In p todo ->
       exists prm, part_params checkpoint sourceData options partOffs p = Some prm /\
                   In (EvRequest prm) evs) /\
  (exists pre j post e,
     jobs = pre ++ j :: post /\
     Forall (fun j' => job_state j' = Finished None) pre /\
     job_state j = Finished (Some e) /\
     partNum e = Some (job_part j) /\
     fst r = Throw (Error (failed_to_copy e)) /\
     partNum (failed_to_copy e) = Some (job_part j)) /\
  (forall p e0, In p todo ->
     copy_fails request checkpoint sourceData options partOffs p e0 ->
     In (mkJob p (Finished (Some (with_partNum p e0)))) jobs) /\
  (exists l, doneParts (snd r) = cp_doneParts checkpoint ++ l /\
     Permutation l
       (flat_map (copied_entry request checkpoint sourceData options partOffs)
          todo) /\
     Permutation (map number l)
       (filter (copy_succeeds request checkpoint sourceData options partOffs)
          todo)) /\
  (forall p e0, In p todo ->
     copy_fails request checkpoint sourceData options partOffs p e0 ->
     (forall q, In q todo -> q <> p ->
        copy_succeeds request checkpoint sourceData options partOffs q = true) ->
     (forall f x c y, opt_progress options = Some f -> answer (f x c y) = inr tt) ->
     fst r = Throw (Error (failed_to_copy (with_partNum p e0))) /\
     partNum (failed_to_copy (with_partNum p e0)) = Some p /\
     exists l, doneParts (snd r) = cp_doneParts checkpoint ++ l /\
       Permutation (map number l) (filter (fun q => negb (q =? p)) todo)).
Proof.
  intros parallel todo jobs r Hie Hpar Hc Hnc Hdiv Hfail.
  assert (Hseq : checkBrowserAndVersion "Internet Explorer" "10"
                 || (parallel =? 1) = false).
  { rewrite Hie. simpl. apply Z.eqb_neq. lia. }
  set (s0 := set_doneParts (cp_doneParts checkpoint) s) in *.
  assert (Hc0 : cancelFlag s0 = false) by exact Hc.
  pose proof (pool_run_steps request checkpoint sourceData options partOffs
                schedule todo parallel s0) as Hsteps.
  pose proof (pool_run_finished request checkpoint sourceData options partOffs
                schedule todo parallel s0 ltac:(lia)) as Hfin.
  assert (Hr : r = resume' checkpoint sourceData options s) by reflexivity.
  rewrite (resume_run checkpoint sourceData options partOffs s Hc Hdiv) in Hr.
  cbv zeta in Hr. unfold copy_parts in Hr.
  fold parallel todo s0 in Hr. rewrite Hseq in Hr.
  unfold bind at 1, _thunkPool in Hr.
  fold jobs in Hfin.
  destruct (pool_run request schedule checkpoint sourceData options partOffs
              todo parallel s0) as [jobs' s'] eqn:Erun.
  subst jobs. cbn [fst] in Hfin, Hfail |- *. rewrite Hfin in Hr.
  destruct (nocancel_finished request checkpoint sourceData options partOffs
              Hnc todo s0 jobs' s' Hc0 Hsteps Hfin)
    as (Hc' & Hparts & Hok & (l & Hd & Hl) & (evs & Ht & Hreq)).
  unfold bind at 1, isCancel, gets in Hr. rewrite Hc' in Hr.
  destruct Hfail as (jf & Hjf & Hjerr).
  destruct (flat_map job_error jobs') as [|e rest] eqn:Eerr.
  { exfalso. apply Hjerr.
    pose proof (in_flat_map job_error jobs') as Hin.
    destruct (job_error jf) as [|x xs] eqn:Ex; [reflexivity|].
    assert (In x (flat_map job_error jobs')).
    { apply in_flat_map. exists jf. split; [exact Hjf|]. rewrite Ex. now left. }
    rewrite Eerr in H. contradiction. }
  unfold throw in Hr. subst r. rewrite Hr. cbn [fst snd].
  assert (Hnum : Permutation (map number l)
            (filter (copy_succeeds request checkpoint sourceData options partOffs)
               todo)).
  { rewrite <- copied_entry_numbers. now apply Permutation_map. }
  destruct (first_error jobs' e rest Hfin Eerr)
    as (pre & j & post & Ejobs & Hpre & Hj).
  assert (Hjin : In j jobs')
    by (rewrite Ejobs; apply in_or_app; right; now left).
  assert (Hjok : job_ok request checkpoint sourceData options partOffs j)
    by (rewrite Forall_forall in Hok; now apply Hok).
  split; [assumption|]. split; [assumption|].
  split; [|split; [|split; [|split]]].
  - exists evs. split; [exact Ht|].
    intros p Hp. destruct (all_parts_in_plan partOffs _ p Hp) as [pi Hpi].
    assert (Hprm : exists prm,
              part_params checkpoint sourceData options partOffs p = Some prm).
    { unfold part_params. rewrite Hpi. eauto. }
    destruct Hprm as [prm Hprm]. exists prm. split; [assumption|].
    eapply Hreq; eassumption.
  - exists pre, j, post, e.
    assert (Hpn : partNum e = Some (job_part j)).
    { unfold job_ok in Hjok. rewrite Hj in Hjok. apply Hjok. }
    repeat split; assumption.
  - intros p e0 Hp He0. rewrite <- Hparts in Hp.
    apply in_map_iff in Hp as (j1 & <- & Hj1).
    rewrite Forall_forall in Hok. pose proof (Hok j1 Hj1) as Hj1ok.
    rewrite forallb_forall in Hfin. pose proof (Hfin j1 Hj1) as Hj1f.
    clear Hjok Hj Hjin.
    unfold job_ok, is_finished in *.
    destruct j1 as [p js]. cbn [job_part job_state] in *.
    destruct js as [| | |[e1|]]; try discriminate.
    + destruct Hj1ok as (_ & Hj2 & _). rewrite (Hj2 e0 He0) in Hj1. exact Hj1.
    + destruct He0 as (r0 & Hr0 & Ha). unfold copy_succeeds in Hj1ok.
      rewrite Hr0, Ha in Hj1ok. discriminate.
  - exists l. split; [exact Hd|]. split; [exact Hl|exact Hnum].
  - intros p e0 Hp He0 Hothers Hprog.
    assert (Hpfail : copy_succeeds request checkpoint sourceData options
                       partOffs p = false).
    { destruct He0 as (r0 & Hr0 & Ha). unfold copy_succeeds.
      now rewrite Hr0, Ha. }
    assert (Hjp : job_part j = p).
    { destruct (Z.eq_dec (job_part j) p) as [|Hne]; [assumption|exfalso].
      eapply (job_ok_no_failure request checkpoint sourceData options partOffs
                j e Hjok); [|exact Hprog|exact Hj].
      apply Hothers; [|exact Hne].
      rewrite <- Hparts. now apply in_map. }
    assert (He : e = with_partNum p e0).
    { unfold job_ok in Hjok. rewrite Hj, Hjp in Hjok.
      destruct Hjok as (_ & Hjok & _). now apply Hjok. }
    rewrite He. split; [reflexivity|]. split; [reflexivity|].
    exists l. split; [exact Hd|].
    eapply Permutation_trans; [exact Hnum|].
    erewrite filter_ext_in; [apply Permutation_refl|].
    intros q Hq. cbv beta. destruct (Z.eqb_spec q p) as [->|Hne].
    + exact Hpfail.
    + now apply Hothers.
Qed.

(** A run of [_resumeMultipartCopy] throws, does not end, or ends with
    the complete-upload call. *)
Lemma resume_cases checkpoint sourceData options s :
  (exists t s1, resume' checkpoint sourceData options s = (Throw t, s1)) \/
  (exists s1, resume' checkpoint sourceData options s = (Diverge, s1)) \/
  (exists s1,
     resume' checkpoint sourceData options s =
     yield (EvCompleteMultipartUpload (cp_name checkpoint)
              (cp_uploadId checkpoint) (doneParts s1))
       (completeMultipartUpload (cp_name checkpoint) (cp_uploadId checkpoint)
          (doneParts s1) options) s1).
Proof.
  set (r := resume' checkpoint sourceData options s).
  assert (Er : r = resume' checkpoint sourceData options s) by reflexivity.
  clearbody r.
  unfold _resumeMultipartCopy in Er.
  unfold bind at 1, modify at 1 in Er.
  unfold bind at 1, isCancel at 1, gets at 1 in Er.
  destruct (cancelFlag (set_doneParts (cp_doneParts checkpoint) s));
    [left; unfold throw in Er; eauto|].
  destruct (_divideMultipartCopyParts _ _ _) as [partOffs|];
    [|right; left; unfold diverge in Er; eauto].
  unfold bind at 1 in Er.
  match type of Er with context [(if ?c then ?a else ?b) ?st] =>
    destruct ((if c then a else b) st) as [[u|t|] s1] end;
    [right; right|left; eauto|right; left; eauto].
  exists s1. exact Er.
Qed.

(** When every part copies, nothing is cancelled and the progress
    callback does not throw, the loop over the parts to copy (sequential
    or through the pool) ends normally with every part recorded. *)
Lemma parts_all_copied checkpoint sourceData options partOffs s0 :
  let todo := resume_todo checkpoint partOffs in
  let parallel := or_default (opt_parallel options) defaultParallel in
  let body := copy_parts' checkpoint sourceData options partOffs in
  cancelFlag s0 = false ->
  never_cancelled request options ->
  0 < parallel ->
  (forall p, In p todo ->
     copy_succeeds request checkpoint sourceData options partOffs p = true) ->
  (forall f r c x, opt_progress options = Some f -> answer (f r c x) = inr tt) ->
  fst (body s0) = Return tt /\
  exists l, doneParts (snd (body s0)) = doneParts s0 ++ l /\
    Permutation l
      (flat_map (copied_entry request checkpoint sourceData options partOffs) todo) /\
    exists evs, trace (snd (body s0)) = trace s0 ++ evs.
Proof.
  intros todo parallel body Hc Hnc Hpar Hcopy Hprog. subst body.
  unfold copy_parts. fold todo parallel.
  assert (Hnofail : forall jobs e,
            Forall (job_ok request checkpoint sourceData options partOffs) jobs ->
            map job_part jobs = todo ->
            forall j, In j jobs -> job_state j <> Finished (Some e)).
  { intros jobs e Hok Hparts j Hj.
    rewrite Forall_forall in Hok.
    eapply job_ok_no_failure; eauto.
    apply Hcopy. rewrite <- Hparts. now apply in_map. }
  destruct (checkBrowserAndVersion "Internet Explorer" "10" || (parallel =? 1)).
  - destruct (sequential_loop_steps request checkpoint sourceData options
                partOffs todo [] s0) as (jobs' & Hsteps & Hparts & Hres).
    cbn [app] in Hsteps.
    destruct (nocancel_reach request checkpoint sourceData options partOffs
                Hnc todo s0 _ _ Hc Hsteps) as (Hc' & Hok & _).
    destruct (sequential_loop request checkpoint sourceData options partOffs
                todo s0) as [[[]|[|e]|] s1]; cbn [fst snd] in *.
    + assert (Hfin : forallb is_finished jobs' = true).
      { apply forallb_forall. intros j Hj. rewrite Forall_forall in Hres.
        unfold is_finished. now rewrite (Hres j Hj). }
      destruct (nocancel_finished request checkpoint sourceData options partOffs
                  Hnc todo s0 jobs' s1 Hc Hsteps Hfin)
        as (_ & _ & _ & (l & Hd & Hl) & (evs & Ht & _)).
      split; [reflexivity|]. exists l. split; [exact Hd|]. split; [exact Hl|].
      exists evs. exact Ht.
    + congruence.
    + destruct Hres as (done & j & rest & -> & _ & Hj & _).
      exfalso. eapply (Hnofail _ e Hok Hparts j); [|exact Hj].
      apply in_or_app. right. now left.
    + contradiction.
  - pose proof (pool_run_steps request checkpoint sourceData options partOffs
                  schedule todo parallel s0) as Hsteps.
    pose proof (pool_run_finished request checkpoint sourceData options partOffs
                  schedule todo parallel s0 Hpar) as Hfin.
    destruct (pool_run request schedule checkpoint sourceData options partOffs
                todo parallel s0) as [jobs' s'] eqn:Erun.
    cbn [fst] in Hfin.
    destruct (nocancel_finished request checkpoint sourceData options partOffs
                Hnc todo s0 jobs' s' Hc Hsteps Hfin)
      as (Hc' & Hparts & Hok & (l & Hd & Hl) & (evs & Ht & _)).
    assert (Herr : flat_map job_error jobs' = []).
    { clear Hsteps Hfin Hd Hl Ht Erun.
      assert (Hall : forall j e, In j jobs' -> job_state j <> Finished (Some e))
        by (intros j e Hj; eapply Hnofail; eauto).
      clear Hok Hparts. induction jobs' as [|j jobs' IH]; [reflexivity|].
      cbn [flat_map]. rewrite IH by (intros; apply Hall; now right).
      unfold job_error. specialize (Hall j).
      destruct (job_state j) as [| | |[e|]]; try reflexivity.
      exfalso. apply (Hall e); [now left|reflexivity]. }
    match goal with |- context [fst (?b s0)] =>
      assert (E : b s0 = (Return tt, s')) end.
    { unfold bind, _thunkPool, isCancel, gets, ret.
      rewrite Erun, Hfin, Hc', Herr. reflexivity. }
    rewrite E. cbn [fst snd].
    split; [reflexivity|]. exists l. split; [exact Hd|]. split; [exact Hl|].
    exists evs. exact Ht.
Qed.

(** When every part to copy is copied, nothing is cancelled and the
    progress callback does not throw, the run ends with the
    complete-upload call and with what that call comes back with. *)
Lemma resume_all_copied checkpoint sourceData options partOffs s :
  let r := resume' checkpoint sourceData options s in
  let todo := resume_todo checkpoint partOffs in
  cancelFlag s = false ->
  never_cancelled request options ->
  0 < or_default (opt_parallel options) defaultParallel ->
  _divideMultipartCopyParts (cp_copySize checkpoint) (cp_partSize checkpoint)
    (src_startOffset sourceData) = Some partOffs ->
  (forall p, In p todo ->
     copy_succeeds request checkpoint sourceData options partOffs p = true) ->
  (forall f x c y, opt_progress options = Some f -> answer (f x c y) = inr tt) ->
  fst r = match answer (completeMultipartUpload (cp_name checkpoint)
                          (cp_uploadId checkpoint) (doneParts (snd r)) options) with
          | inr v => Return v
          | inl e => Throw (Error e)
          end /\
  (exists l, doneParts (snd r) = cp_doneParts checkpoint ++ l /\
     Permutation l
       (flat_map (copied_entry request checkpoint sourceData options partOffs)
          todo)) /\
  exists t, trace (snd r) =
    trace s ++ t ++ [EvCompleteMultipartUpload (cp_name checkpoint)
                       (cp_uploadId checkpoint) (doneParts (snd r))].
Proof.
  intros r todo Hc Hnc Hpar Hdiv Hcopy Hprog. subst r.
  rewrite (resume_run checkpoint sourceData options partOffs s Hc Hdiv).
  cbv zeta.
  destruct (parts_all_copied checkpoint sourceData options partOffs
              (set_doneParts (cp_doneParts checkpoint) s) Hc Hnc Hpar Hcopy Hprog)
    as (Hret & l & Hd & Hl & evs & Ht).
  cbv zeta in Hret, Hd, Ht. fold todo in Hret, Hd, Hl, Ht |- *.
  destruct (copy_parts' checkpoint sourceData options partOffs
              (set_doneParts (cp_doneParts checkpoint) s)) as [[u|t|] s1];
    cbn [fst snd] in Hret, Hd, Ht; try discriminate.
  rewrite yield_eq. cbn [fst snd doneParts set_cancelFlag log trace].
  split; [reflexivity|].
  split; [exists l; split; [exact Hd|exact Hl]|].
  exists evs. rewrite Ht. cbn [trace set_doneParts]. now rewrite app_assoc.
Qed.

(** C5 (amended): [_resumeMultipartCopy] returns only what the
    complete-upload call returns, and that call, the last operation of
    the run, is made with [doneParts] as it stands, unsorted; when every
    part to copy is copied (nothing cancelled, no callback failure) the
    call is made, with the [doneParts] of the checkpoint followed by the
    entries of the copied parts in the order they were appended, and its
    result is the result of the run. *)
Theorem complete_called_with_doneParts_as_recorded
    (checkpoint : Checkpoint) (sourceData : Source) (options : Options)
    (s : State) :
  let r := resume' checkpoint sourceData options s in
  let complete_call :=
    completeMultipartUpload (cp_name checkpoint) (cp_uploadId checkpoint)
      (doneParts (snd r)) options in
  (forall v, fst r = Return v ->
     answer complete_call = inr v /\
     exists t, trace (snd r) =
       t ++ [EvCompleteMultipartUpload (cp_name checkpoint)
               (cp_uploadId checkpoint) (doneParts (snd r))]) /\
  (forall partOffs,
     let todo := resume_todo checkpoint partOffs in
     cancelFlag s = false ->
     never_cancelled request options ->
     0 < or_default (opt_parallel options) defaultParallel ->
     _divideMultipartCopyParts (cp_copySize checkpoint) (cp_partSize checkpoint)
       (src_startOffset sourceData) = Some partOffs ->
     (forall p, In p todo ->
        copy_succeeds request checkpoint sourceData options partOffs p = true) ->
     (forall f x c y, opt_progress options = Some f -> answer (f x c y) = inr tt) ->
     fst r = match answer complete_call with
             | inr v => Return v
             | inl e => Throw (Error e)
             end /\
     (exists l, doneParts (snd r) = cp_doneParts checkpoint ++ l /\
        Permutation l
          (flat_map (copied_entry request checkpoint sourceData options partOffs)
             todo)) /\
     exists t, trace (snd r) =
       trace s ++ t ++ [EvCompleteMultipartUpload (cp_name checkpoint)
                          (cp_uploadId checkpoint) (doneParts (snd r))]).
Proof.
  intros r complete_call. split.
  - subst complete_call r. intros v.
    destruct (resume_cases checkpoint sourceData options s)
      as [(t & s1 & E)|[(s1 & E)|(s1 & E)]]; rewrite E; try discriminate.
    rewrite yield_eq. cbn [fst snd doneParts set_cancelFlag log trace].
    destruct (answer (completeMultipartUpload _ _ (doneParts s1) options))
      as [e|v'] eqn:Ha; [discriminate|].
    intros [= <-]. split; [reflexivity|]. eauto.
  - intros partOffs todo Hc Hnc Hpar Hdiv Hcopy Hprog.
    subst complete_call r todo.
    now apply resume_all_copied.
Qed.

(** [multipartUploadCopy] up to its call of [_resumeMultipartCopy], step
    by step. *)
Lemma getObjectMeta_eq bucket_ name s :
  _getObjectMeta head bucket_ name s =
  let s1 := after_yield (EvHead bucket_ name) (head bucket_ name)
              (set_bucket bucket_ s) in
  match answer (head bucket_ name) with
  | inl e => (Throw (Error e), s1)
  | inr data => (Return data, set_bucket (bucket s) s1)
  end.
Proof.
  unfold _getObjectMeta, getBucket, setBucket, bind, gets, modify, ret.
  cbn [bucket set_bucket]. rewrite yield_eq. unfold after_yield.
  destruct (answer (head bucket_ name)); reflexivity.
Qed.

Lemma copy_eq name sourceData options s :
  copy' name sourceData options s =
  let b := sourceBucketName sourceData in
  let k := sourceKey sourceData in
  let s1 := after_yield (EvHead b k) (head b k)
              (set_bucket b (set_cancelFlag false s)) in
  match answer (head b k) with
  | inl e => (Throw (Error e), s1)
  | inr objectMeta =>
      let s2 := set_bucket (bucket s) s1 in
      let sourceData' := filled_in sourceData (header_content_length objectMeta) in
      match resumable options with
      | Some checkpoint => resume' checkpoint sourceData' options s2
      | None =>
          let copySize := src_endOffset sourceData' - src_startOffset sourceData' in
          match validation_error copySize options with
          | Some e => (Throw (Error e), s2)
          | None =>
              let ri := initMultipartUpload name options in
              let s3 := after_yield (EvInitMultipartUpload name) ri s2 in
              match answer ri with
              | inl e => (Throw (Error e), s3)
              | inr result =>
                  let checkpoint :=
                    fresh_checkpoint _getPartSize name copySize options
                      (fst result) in
                  match opt_progress options with
                  | None => resume' checkpoint sourceData' options s3
                  | Some progress =>
                      let rp := progress 0%Q checkpoint (snd result) in
                      let s4 := after_yield
                                  (EvProgress 0 checkpoint (snd result)) rp s3 in
                      match answer rp with
                      | inl e => (Throw (Error e), s4)
                      | inr _ => resume' checkpoint sourceData' options s4
                      end
                  end
              end
          end
      end
  end.
Proof.
  cbv zeta. unfold multipartUploadCopy.
  unfold bind at 1, resetCancelFlag at 1, modify at 1.
  unfold bind at 1. rewrite getObjectMeta_eq. cbv zeta.
  cbn [bucket set_cancelFlag].
  destruct (answer (head _ _)) as [e|objectMeta]; [reflexivity|].
  fold (filled_in sourceData (header_content_length objectMeta)).
  destruct (resumable options) as [checkpoint|]; [reflexivity|].
  unfold validation_error.
  destruct (_ <? minPartSize); [reflexivity|].
  destruct (partSize_too_small _ _); [reflexivity|].
  unfold bind at 1. rewrite yield_eq. fold (after_yield (EvInitMultipartUpload name)
    (initMultipartUpload name options)).
  destruct (answer (initMultipartUpload name options)) as [e|result];
    [reflexivity|].
  unfold bind at 1. unfold fresh_checkpoint.
  destruct (opt_progress options) as [progress|]; [|reflexivity].
  rewrite yield_eq. destruct (answer (progress _ _ _)); reflexivity.
Qed.

(** The state after the loop over the parts is a state the jobs reach. *)
Lemma copy_parts_steps checkpoint sourceData options partOffs s0 :
  exists jobs,
    pool_steps request checkpoint sourceData options partOffs
      (queued_jobs (resume_todo checkpoint partOffs), s0)
      (jobs, snd (copy_parts' checkpoint sourceData options partOffs s0)).
Proof.
  unfold copy_parts.
  set (todo := resume_todo checkpoint partOffs).
  set (parallel := or_default (opt_parallel options) defaultParallel).
  destruct (checkBrowserAndVersion "Internet Explorer" "10" || (parallel =? 1)).
  - destruct (sequential_loop_steps request checkpoint sourceData options
                partOffs todo [] s0) as (jobs' & Hsteps & _).
    exists jobs'. exact Hsteps.
  - pose proof (pool_run_steps request checkpoint sourceData options partOffs
                  schedule todo parallel s0) as Hsteps.
    unfold bind, _thunkPool, isCancel, gets, throw, ret.
    destruct (pool_run request schedule checkpoint sourceData options partOffs
                todo parallel s0) as [jobs' s'].
    exists jobs'.
    destruct (forallb is_finished jobs'); [|exact Hsteps].
    destruct (cancelFlag s'); [exact Hsteps|].
    destruct (flat_map job_error jobs'); exact Hsteps.
Qed.

Lemma resume_trace checkpoint sourceData options s :
  exists evs,
    trace (snd (resume' checkpoint sourceData options s)) = trace s ++ evs.
Proof.
  assert (Hnil : exists evs, trace s = trace s ++ evs)
    by (exists []; now rewrite app_nil_r).
  destruct (cancelFlag s) eqn:Hc.
  - unfold _resumeMultipartCopy, bind, modify, isCancel, gets, throw.
    cbn [cancelFlag set_doneParts]. rewrite Hc. exact Hnil.
  - destruct (_divideMultipartCopyParts (cp_copySize checkpoint)
                (cp_partSize checkpoint) (src_startOffset sourceData))
      as [partOffs|] eqn:Hd.
    + rewrite (resume_run checkpoint sourceData options partOffs s Hc Hd).
      cbv zeta.
      destruct (copy_parts_steps checkpoint sourceData options partOffs
                  (set_doneParts (cp_doneParts checkpoint) s)) as [jobs Hsteps].
      apply pool_steps_trace in Hsteps as [evs Ht]. cbn [snd] in Ht.
      destruct (copy_parts' checkpoint sourceData options partOffs _)
        as [[u|t|] s1]; cbn [snd] in *; eauto.
      rewrite yield_eq. cbn [snd trace set_cancelFlag log].
      rewrite Ht. cbn [trace set_doneParts]. rewrite <- app_assoc. eauto.
    + unfold _resumeMultipartCopy, bind, modify, isCancel, gets, diverge.
      cbn [cancelFlag set_doneParts]. rewrite Hc, Hd. exact Hnil.
Qed.

(** On a run that starts with the parts to copy and [doneParts] within
    the plan, as a fresh copy does, every reported ratio is in [0, 1]. *)
Lemma resume_progress checkpoint sourceData options s :
  (forall partOffs,
     _divideMultipartCopyParts (cp_copySize checkpoint) (cp_partSize checkpoint)
       (src_startOffset sourceData) = Some partOffs ->
     (length (cp_doneParts checkpoint)
      + length (resume_todo checkpoint partOffs) <= length partOffs)%nat) ->
  exists evs,
    trace (snd (resume' checkpoint sourceData options s)) = trace s ++ evs /\
    Forall ratio_in_range evs.
Proof.
  intros Hb.
  assert (Hnil : exists evs, trace s = trace s ++ evs /\ Forall ratio_in_range evs)
    by (exists []; rewrite app_nil_r; split; [reflexivity|constructor]).
  destruct (cancelFlag s) eqn:Hc.
  - unfold _resumeMultipartCopy, bind, modify, isCancel, gets, throw.
    cbn [cancelFlag set_doneParts]. rewrite Hc. exact Hnil.
  - destruct (_divideMultipartCopyParts (cp_copySize checkpoint)
                (cp_partSize checkpoint) (src_startOffset sourceData))
      as [partOffs|] eqn:Hd.
    + rewrite (resume_run checkpoint sourceData options partOffs s Hc Hd).
      cbv zeta.
      destruct (copy_parts_steps checkpoint sourceData options partOffs
                  (set_doneParts (cp_doneParts checkpoint) s)) as [jobs Hsteps].
      apply pool_steps_progress in Hsteps as (evs & Ht & Hr).
      2:{ cbn [doneParts set_doneParts]. unfold queued_jobs.
          rewrite length_map. apply Hb. reflexivity. }
      cbn [snd] in Ht.
      destruct (copy_parts' checkpoint sourceData options partOffs _)
        as [[u|t|] s1]; cbn [snd] in *; eauto.
      rewrite yield_eq. cbn [snd trace set_cancelFlag log].
      rewrite Ht. cbn [trace set_doneParts]. rewrite <- app_assoc.
      eexists; split; [reflexivity|].
      apply Forall_app. split; [assumption|]. repeat constructor.
    + unfold _resumeMultipartCopy, bind, modify, isCancel, gets, diverge.
      cbn [cancelFlag set_doneParts]. rewrite Hc, Hd. exact Hnil.
Qed.

Lemma after_yield_trace {A} (e : Event) (r : Reply A) (s : State) :
  trace (after_yield e r s) = trace s ++ [e].
Proof. reflexivity. Qed.

Lemma fresh_checkpoint_bound name copySize options uploadId partOffs :
  (length (cp_doneParts (fresh_checkpoint _getPartSize name copySize options uploadId))
   + length (resume_todo
               (fresh_checkpoint _getPartSize name copySize options uploadId)
               partOffs)
   <= length partOffs)%nat.
Proof.
  unfold resume_todo, fresh_checkpoint. cbn [cp_doneParts map length].
  rewrite todo_parts_fresh, all_parts_length. lia.
Qed.

(** C7 (amended): when the copy of a part succeeds and cancellation has
    not been requested by the time it comes back, [doneParts] gains
    exactly one entry, appended, with the number of the part and the etag
    of the response, and the progress callback, if there is one, is then
    called with [doneParts.length / numParts], the checkpoint and the
    response (without a callback nothing else happens). On a fresh start
    the callback is first called with ratio 0, the fresh checkpoint and
    the response of the initiation, and every ratio reported during the
    invocation lies in [0, 1]; so does every ratio reported during a
    resume from a checkpoint whose [doneParts] lists distinct parts of
    the plan. *)
Theorem part_recorded_then_progress_reported :
  (forall checkpoint sourceData options partOffs partNo prm res s,
     let r := uploadPartJob request checkpoint sourceData options partOffs
                partNo s in
     cancelFlag s = false ->
     part_params checkpoint sourceData options partOffs partNo = Some prm ->
     request prm = mkReply (inr res) false ->
     doneParts (snd r) = doneParts s ++ [mkPartDone partNo (header_etag res)] /\
     match opt_progress options with
     | Some progress =>
         let ev := EvProgress (ratio (length (doneParts (snd r))) (length partOffs))
                     (snapshot checkpoint (snd r)) res in
         trace (snd r) = trace s ++ [EvRequest prm; ev] /\
         fst r = match answer (progress
                                 (ratio (length (doneParts (snd r))) (length partOffs))
                                 (snapshot checkpoint (snd r)) res) with
                 | inl e => Throw (Error (with_partNum partNo e))
                 | inr _ => Return tt
                 end
     | None => trace (snd r) = trace s ++ [EvRequest prm] /\ fst r = Return tt
     end) /\
  (forall name sourceData options s,
     let r := copy' name sourceData options s in
     let b := sourceBucketName sourceData in
     let k := sourceKey sourceData in
     resumable options = None ->
     (exists evs, trace (snd r) = trace s ++ evs /\ Forall ratio_in_range evs) /\
     (forall progress objectMeta result,
        let copySize :=
          or_default (endOffset sourceData) (header_content_length objectMeta)
          - or_default (startOffset sourceData) 0 in
        opt_progress options = Some progress ->
        answer (head b k) = inr objectMeta ->
        validation_error copySize options = None ->
        answer (initMultipartUpload name options) = inr result ->
        exists evs,
          trace (snd r) =
          trace s ++ EvHead b k :: EvInitMultipartUpload name
                  :: EvProgress 0
                       (fresh_checkpoint _getPartSize name copySize options
                          (fst result))
                       (snd result) :: evs)) /\
  (forall checkpoint sourceData options s,
     NoDup (map number (cp_doneParts checkpoint)) ->
     (forall partOffs,
        _divideMultipartCopyParts (cp_copySize checkpoint)
          (cp_partSize checkpoint) (src_startOffset sourceData) = Some partOffs ->
        incl (map number (cp_doneParts checkpoint))
          (all_parts (length partOffs))) ->
     exists evs,
       trace (snd (resume' checkpoint sourceData options s)) = trace s ++ evs /\
       Forall ratio_in_range evs).
Proof.
  split; [|split].
  3:{ intros checkpoint sourceData options s Hnd Hincl.
      apply resume_progress. intros partOffs Hd.
      apply consistent_checkpoint_bound; [exact Hnd|now apply Hincl]. }
  - intros checkpoint sourceData options partOffs partNo prm res s r Hc Hprm Hreq.
    subst r. unfold part_params in Hprm.
    unfold uploadPartJob, uploadPartCopy, bind, isCancel, gets, try_catch,
      modify, ret.
    rewrite Hc. cbn [negb].
    destruct (partOffs_at partOffs partNo) as [pi|]; [|discriminate].
    injection Hprm as Hprm. rewrite Hprm, yield_eq, Hreq.
    cbn [answer cancel_requested cancelFlag set_cancelFlag log pcr_res].
    rewrite Hc. cbn [orb negb].
    destruct (opt_progress options) as [progress|].
    + rewrite yield_eq. unfold throw, snapshot.
      destruct (answer (progress _ _ _)) as [e|[]] eqn:Ha;
        cbn [fst snd doneParts trace set_doneParts set_cancelFlag log] in Ha |- *;
        rewrite Ha, <- app_assoc; auto.
    + cbn [fst snd doneParts trace set_doneParts set_cancelFlag log].
      auto.
  - intros name sourceData options s r b k Hfresh. subst r.
    rewrite copy_eq. cbv zeta. fold b k. rewrite Hfresh.
    assert (Hzero : ratio_in_range
              (EvProgress 0
                 (fresh_checkpoint _getPartSize name 0 options "") (mkResponse 0 "" 0)))
      by (split; discriminate).
    destruct (answer (head b k)) as [e|objectMeta].
    { cbn [snd]. rewrite after_yield_trace. cbn [trace set_bucket set_cancelFlag].
      split; [|intros; discriminate].
      eexists; split; [reflexivity|repeat constructor]. }
    cbn [src_endOffset src_startOffset filled_in].
    set (copySize := or_default (endOffset sourceData)
                       (header_content_length objectMeta)
                     - or_default (startOffset sourceData) 0).
    destruct (validation_error copySize options) as [e|] eqn:Hv.
    { cbn [snd trace set_bucket]. rewrite after_yield_trace.
      cbn [trace set_bucket set_cancelFlag].
      split; [|intros p m res' Hp [= <-] Hv'; fold copySize in Hv'; congruence].
      eexists; split; [reflexivity|repeat constructor]. }
    destruct (answer (initMultipartUpload name options)) as [e|result].
    { cbn [snd]. rewrite after_yield_trace. cbn [trace set_bucket].
      rewrite after_yield_trace. cbn [trace set_bucket set_cancelFlag].
      split; [|intros; discriminate].
      rewrite <- app_assoc. eexists; split; [reflexivity|repeat constructor]. }
    set (cp := fresh_checkpoint _getPartSize name copySize options (fst result)).
    set (src := filled_in sourceData (header_content_length objectMeta)).
    pose proof (fresh_checkpoint_bound name copySize options (fst result)) as Hb.
    fold cp in Hb.
    destruct (opt_progress options) as [progress|].
    + destruct (answer (progress 0%Q cp (snd result))) as [e|u].
      * cbn [snd]. rewrite !after_yield_trace. cbn [trace set_bucket].
        rewrite after_yield_trace. cbn [trace set_bucket set_cancelFlag].
        split.
        { rewrite <- !app_assoc. eexists; split; [reflexivity|].
          repeat constructor; discriminate. }
        intros p m res' _ [= <-] _ [= <-]. exists [].
        now rewrite <- !app_assoc.
      * match goal with |- context [resume' cp src options ?st] =>
          destruct (resume_progress cp src options st (fun po _ => Hb po))
            as (evs & Ht & Hr) end.
        rewrite Ht. rewrite !after_yield_trace. cbn [trace set_bucket].
        rewrite after_yield_trace. cbn [trace set_bucket set_cancelFlag].
        split.
        { rewrite <- !app_assoc. eexists; split; [reflexivity|].
          cbn [app]. repeat (constructor; [first [exact I|split; discriminate]|]).
          exact Hr. }
        intros p m res' _ [= <-] _ [= <-]. exists evs.
        now rewrite <- !app_assoc.
    + match goal with |- context [resume' cp src options ?st] =>
        destruct (resume_progress cp src options st (fun po _ => Hb po))
          as (evs & Ht & Hr) end.
      rewrite Ht. rewrite !after_yield_trace. cbn [trace set_bucket].
      rewrite after_yield_trace. cbn [trace set_bucket set_cancelFlag].
      split; [|intros; discriminate].
      rewrite <- !app_assoc. eexists; split; [reflexivity|].
      cbn [app]. repeat (constructor; [exact I|]). exact Hr.
Qed.

(** C9: [_getObjectMeta] makes the head request on the source bucket;
    when the request succeeds the call returns its data and the client's
    bucket is what it was before the call; when the request throws, the
    call throws the same error and the bucket stays the source bucket. *)
Theorem getObjectMeta_restores_bucket_on_success (bucket_ name : string)
    (s : State) :
  let r := _getObjectMeta head bucket_ name s in
  trace (snd r) = trace s ++ [EvHead bucket_ name] /\
  match fst r with
  | Return data =>
      answer (head bucket_ name) = inr data /\ bucket (snd r) = bucket s
  | Throw t =>
      exists e, answer (head bucket_ name) = inl e /\ t = Error e /\
                bucket (snd r) = bucket_
  | Diverge => False
  end.
Proof.
  cbv zeta. rewrite getObjectMeta_eq. cbv zeta.
  destruct (answer (head bucket_ name)) as [e|data]; cbn [fst snd].
  - split; [reflexivity|]. exists e. auto.
  - split; [reflexivity|]. auto.
Qed.

Lemma resume_cancelled checkpoint sourceData options s :
  cancelFlag s = true ->
  resume' checkpoint sourceData options s =
  (Throw CancelEvent, set_doneParts (cp_doneParts checkpoint) s).
Proof.
  intros Hc. unfold _resumeMultipartCopy, bind, modify, isCancel, gets, throw.
  cbn [cancelFlag set_doneParts]. now rewrite Hc.
Qed.

(** C4 (amended): a fresh copy whose sizes fail the validation throws the
    validation error right after the head request for the metadata of the
    source, the only remote operation it makes: no upload is initiated,
    no part is copied, nothing is completed, and the client's bucket and
    [doneParts] are what they were. *)
Theorem validation_error_follows_head_request_only (name : string)
    (sourceData : SourceData) (options : Options) (s : State)
    (objectMeta : Response) (e : Err) :
  let b := sourceBucketName sourceData in
  let k := sourceKey sourceData in
  let copySize :=
    or_default (endOffset sourceData) (header_content_length objectMeta)
    - or_default (startOffset sourceData) 0 in
  let r := copy' name sourceData options s in
  resumable options = None ->
  answer (head b k) = inr objectMeta ->
  validation_error copySize options = Some e ->
  fst r = Throw (Error e) /\
  trace (snd r) = trace s ++ [EvHead b k] /\
  bucket (snd r) = bucket s /\
  doneParts (snd r) = doneParts s.
Proof.
  intros b k copySize r Hfresh Hhead Hval. subst r.
  rewrite copy_eq. cbv zeta. fold b k. rewrite Hhead, Hfresh.
  cbn [src_endOffset src_startOffset filled_in]. fold copySize. rewrite Hval.
  cbn [fst snd]. auto.
Qed.

(** C6 (amended): the minimum is 100 KiB; a fresh copy with copySize
    below it, or with a partSize that is given, not zero and below it,
    throws the validation error and initiates no upload (the log gains
    the head request only); copySize = minimum - 1 is rejected; with
    copySize at least the minimum (the minimum itself included) and a
    partSize that is absent, zero or at least the minimum, the upload is
    initiated. A partSize of zero counts as not given. *)
Theorem small_sizes_rejected_before_initiation (name : string)
    (sourceData : SourceData) (options : Options) (s : State)
    (objectMeta : Response) :
  let b := sourceBucketName sourceData in
  let k := sourceKey sourceData in
  let copySize :=
    or_default (endOffset sourceData) (header_content_length objectMeta)
    - or_default (startOffset sourceData) 0 in
  let r := copy' name sourceData options s in
  resumable options = None ->
  answer (head b k) = inr objectMeta ->
  minPartSize = 102400 /\
  ((copySize < minPartSize \/
    (exists p, opt_partSize options = Some p /\ p <> 0 /\ p < minPartSize)) ->
   (fst r = Throw (Error (mkErr (MsgCopySizeTooSmall minPartSize) None)) \/
    fst r = Throw (Error (mkErr (MsgPartSizeTooSmall minPartSize) None))) /\
   trace (snd r) = trace s ++ [EvHead b k]) /\
  (copySize = minPartSize - 1 ->
   fst r = Throw (Error (mkErr (MsgCopySizeTooSmall minPartSize) None))) /\
  (minPartSize <= copySize ->
   (opt_partSize options = None \/ opt_partSize options = Some 0 \/
    exists p, opt_partSize options = Some p /\ minPartSize <= p) ->
   exists evs,
     trace (snd r) = trace s ++ EvHead b k :: EvInitMultipartUpload name :: evs).
Proof.
  intros b k copySize r Hfresh Hhead. subst r.
  rewrite copy_eq. cbv zeta. fold b k. rewrite Hhead, Hfresh.
  cbn [src_endOffset src_startOffset filled_in]. fold copySize.
  unfold validation_error.
  split; [reflexivity|]. split; [|split].
  - intros [Hsmall|(p & Hp & Hp0 & Hpmin)].
    + destruct (Z.ltb_spec copySize minPartSize); [|lia].
      cbn [fst snd]. auto.
    + destruct (Z.ltb_spec copySize minPartSize); [cbn [fst snd]; auto|].
      rewrite Hp. unfold partSize_too_small.
      destruct (Z.eqb_spec p 0); [contradiction|].
      destruct (Z.ltb_spec p minPartSize); [|lia].
      cbn [fst snd negb andb]. auto.
  - intros Hsmall. destruct (Z.ltb_spec copySize minPartSize); [|lia].
    reflexivity.
  - intros Hbig Hps. destruct (Z.ltb_spec copySize minPartSize); [lia|].
    assert (Hok : partSize_too_small (opt_partSize options) minPartSize = false).
    { destruct Hps as [->|[->|(p & -> & Hp)]]; [reflexivity|reflexivity|].
      unfold partSize_too_small. destruct (Z.ltb_spec p minPartSize); [lia|].
      apply andb_false_r. }
    rewrite Hok.
    destruct (answer (initMultipartUpload name options)) as [e|result].
    { cbn [snd]. rewrite after_yield_trace. cbn [trace set_bucket].
      rewrite after_yield_trace. cbn [trace set_bucket set_cancelFlag].
      exists []. now rewrite <- app_assoc. }
    destruct (opt_progress options) as [progress|].
    + destruct (answer (progress _ _ _)).
      * cbn [snd]. rewrite !after_yield_trace. cbn [trace set_bucket].
        rewrite after_yield_trace. cbn [trace set_bucket set_cancelFlag].
        rewrite <- !app_assoc. cbn [app]. eauto.
      * match goal with |- context [resume' ?cp ?src options ?st] =>
          destruct (resume_trace cp src options st) as (evs & Ht) end.
        rewrite Ht, !after_yield_trace. cbn [trace set_bucket].
        rewrite after_yield_trace. cbn [trace set_bucket set_cancelFlag].
        rewrite <- !app_assoc. cbn [app]. eauto.
    + match goal with |- context [resume' ?cp ?src options ?st] =>
        destruct (resume_trace cp src options st) as (evs & Ht) end.
      rewrite Ht, !after_yield_trace. cbn [trace set_bucket].
      rewrite after_yield_trace. cbn [trace set_bucket set_cancelFlag].
      rewrite <- !app_assoc. cbn [app]. eauto.
Qed.

(** C10: with a checkpoint whose uploadId is truthy, [multipartUploadCopy]
    is, after the head request, [_resumeMultipartCopy] on that checkpoint,
    whatever the checkpoint's copySize and partSize, the caller's partSize
    and the range of the source are: neither size validation is made, and
    the sizes of the checkpoint are compared with nothing. So whatever
    these sizes are (as long as the plan they give is finite), when the
    remote operations succeed and nothing is cancelled, the copy is
    carried through to the complete-upload call. *)
Theorem checkpoint_resumes_without_validation (name : string)
    (sourceData : SourceData) (options : Options) (s : State)
    (checkpoint : Checkpoint) :
  let b := sourceBucketName sourceData in
  let k := sourceKey sourceData in
  let s1 := after_yield (EvHead b k) (head b k)
              (set_bucket b (set_cancelFlag false s)) in
  let r := copy' name sourceData options s in
  opt_checkpoint options = Some checkpoint ->
  cp_uploadId checkpoint <> ""%string ->
  r = match answer (head b k) with
      | inl e => (Throw (Error e), s1)
      | inr objectMeta =>
          resume' checkpoint
            (filled_in sourceData (header_content_length objectMeta)) options
            (set_bucket (bucket s) s1)
      end /\
  (forall objectMeta partOffs,
     let source := filled_in sourceData (header_content_length objectMeta) in
     answer (head b k) = inr objectMeta ->
     cancel_requested (head b k) = false ->
     never_cancelled request options ->
     0 < or_default (opt_parallel options) defaultParallel ->
     _divideMultipartCopyParts (cp_copySize checkpoint) (cp_partSize checkpoint)
       (src_startOffset source) = Some partOffs ->
     (forall p, In p (resume_todo checkpoint partOffs) ->
        copy_succeeds request checkpoint source options partOffs p = true) ->
     (forall f x c y, opt_progress options = Some f -> answer (f x c y) = inr tt) ->
     fst r = match answer (completeMultipartUpload (cp_name checkpoint)
                             (cp_uploadId checkpoint) (doneParts (snd r))
                             options) with
             | inr v => Return v
             | inl e => Throw (Error e)
             end).
Proof.
  intros b k s1 r Hcp Hid.
  assert (E : r = match answer (head b k) with
                  | inl e => (Throw (Error e), s1)
                  | inr objectMeta =>
                      resume' checkpoint
                        (filled_in sourceData (header_content_length objectMeta))
                        options (set_bucket (bucket s) s1)
                  end).
  { subst r. rewrite copy_eq. cbv zeta. fold b k s1.
    unfold resumable. rewrite Hcp.
    destruct (String.eqb_spec (cp_uploadId checkpoint) ""); [contradiction|].
    reflexivity. }
  split; [exact E|].
  intros objectMeta partOffs source Hhead Hcancel Hnc Hpar Hdiv Hcopy Hprog.
  rewrite E, Hhead.
  apply (resume_all_copied checkpoint source options partOffs); assumption.
Qed.


End Claims.

(** C8 (amended): the head request for the metadata of the source is made
    on every invocation, first of all operations, whether or not the
    caller gives endOffset; the size it reports is used only when the
    caller gives no endOffset (or gives zero): with an endOffset that is
    not zero the invocation does the same whatever size the request
    reports. *)
Theorem head_request_made_on_every_invocation
    (head : string -> string -> Reply Response)
    (initMultipartUpload : string -> Options -> Reply (string * Response))
    (request : Params -> Reply Response)
    (completeMultipartUpload :
       string -> string -> list PartDone -> Options -> Reply string)
    (checkBrowserAndVersion : string -> string -> bool)
    (_getPartSize : Z -> option Z -> Z) (schedule : list nat)
    (name : string) (sourceData : SourceData) (options : Options) (s : State) :
  let b := sourceBucketName sourceData in
  let k := sourceKey sourceData in
  let copy head_ :=
    multipartUploadCopy head_ initMultipartUpload request
      completeMultipartUpload checkBrowserAndVersion _getPartSize schedule
      name sourceData options s in
  (exists evs, trace (snd (copy head)) = trace s ++ EvHead b k :: evs) /\
  (forall head2 e m1 m2,
     endOffset sourceData = Some e -> e <> 0 ->
     answer (head b k) = inr m1 ->
     answer (head2 b k) = inr m2 ->
     cancel_requested (head2 b k) = cancel_requested (head b k) ->
     copy head2 = copy head).
Proof.
  intros b k copy. subst copy. cbv beta. split.
  - rewrite copy_eq. cbv zeta. fold b k.
    set (s1 := after_yield (EvHead b k) (head b k)
                 (set_bucket b (set_cancelFlag false s))).
    assert (Ht1 : trace (set_bucket (bucket s) s1) = trace s ++ [EvHead b k])
      by reflexivity.
    assert (Ht1' : trace s1 = trace s ++ [EvHead b k]) by reflexivity.
    assert (Hres : forall cp src st,
              trace st = trace s ++ [EvHead b k] ++ [] \/
              (exists e1, trace st = trace s ++ [EvHead b k] ++ [e1]) \/
              (exists e1 e2, trace st = trace s ++ [EvHead b k] ++ [e1; e2]) ->
              exists evs,
                trace (snd (_resumeMultipartCopy request completeMultipartUpload
                              checkBrowserAndVersion schedule cp src options st))
                = trace s ++ EvHead b k :: evs).
    { intros cp src st Hst.
      destruct (resume_trace request completeMultipartUpload
                  checkBrowserAndVersion schedule cp src options st) as [evs Ht].
      rewrite Ht.
      destruct Hst as [->|[(e1 & ->)|(e1 & e2 & ->)]];
        rewrite <- !app_assoc; cbn [app]; eauto. }
    destruct (answer (head b k)) as [e|objectMeta].
    { cbn [snd]. rewrite Ht1'. eauto. }
    destruct (resumable options) as [checkpoint|].
    { apply Hres. left. rewrite Ht1. now rewrite app_nil_r. }
    destruct (validation_error _ options).
    { cbn [snd]. rewrite Ht1. eauto. }
    destruct (answer (initMultipartUpload name options)) as [e|result].
    { cbn [snd]. rewrite after_yield_trace, Ht1, <- app_assoc. cbn [app]. eauto. }
    destruct (opt_progress options) as [progress|].
    + destruct (answer (progress _ _ _)).
      * cbn [snd]. rewrite !after_yield_trace, Ht1, <- !app_assoc. cbn [app].
        eauto.
      * apply Hres. right. right.
        rewrite !after_yield_trace, Ht1, <- !app_assoc. cbn [app]. eauto.
    + apply Hres. right. left.
      rewrite !after_yield_trace, Ht1, <- !app_assoc. cbn [app]. eauto.
  - intros head2 e m1 m2 Hend He H1 H2 Hc.
    rewrite !copy_eq. cbv zeta. fold b k. rewrite H1, H2.
    unfold after_yield. rewrite Hc.
    assert (Hsrc : filled_in sourceData (header_content_length m2) =
                   filled_in sourceData (header_content_length m1)).
    { unfold filled_in, or_default. rewrite Hend.
      destruct (Z.eqb_spec e 0); [contradiction|reflexivity]. }
    rewrite Hsrc. reflexivity.
Qed.

(** ** The properties at concrete inputs *)

Lemma divide_parts_tiling_witness :
  0 < 250000 /\ 0 < 100000 /\ 0 <= 0 /\
  exists parts n,
    _divideMultipartCopyParts 250000 100000 0 = Some parts /\
    Z.of_nat (length parts) = n /\
    (n - 1) * 100000 < 250000 <= n * 100000.
Proof.
  split; [lia|]. split; [lia|]. split; [lia|].
  destruct (divide_parts_tiling 250000 100000 0 ltac:(lia) ltac:(lia) ltac:(lia))
    as (parts & n & H1 & H2 & H3 & _).
  exists parts, n. auto.
Defined.

(** Part 3 of 5 fails, the parts 1, 2, 4 and 5 are copied. *)
Lemma parallel_failure_witness :
  ex_browser "Internet Explorer" "10" = false /\
  1 < or_default (opt_parallel ex_options) defaultParallel /\
  cancelFlag ex_state = false /\
  never_cancelled ex_request_fail3 ex_options /\
  _divideMultipartCopyParts 512000 102400 0 = Some ex_partOffs /\
  fst (ex_resume ex_request_fail3 [1; 0; 1]%nat ex_options) =
    Throw (Error (mkErr (MsgFailedToCopy (MsgCollaborator "connection reset")
                           (Some 3)) (Some 3))) /\
  exists l, doneParts (snd (ex_resume ex_request_fail3 [1; 0; 1]%nat ex_options)) = l /\
            Permutation (map number l) [1; 2; 4; 5].
Proof.
  assert (H1 : ex_browser "Internet Explorer" "10" = false) by reflexivity.
  assert (H2 : 1 < or_default (opt_parallel ex_options) defaultParallel)
    by (vm_compute; reflexivity).
  assert (H3 : cancelFlag ex_state = false) by reflexivity.
  assert (H4 : never_cancelled ex_request_fail3 ex_options).
  { split.
    - intros p. unfold ex_request_fail3. now destruct (fst (prm_subres p) =? 3).
    - intros f r c x H. discriminate H. }
  assert (H5 : _divideMultipartCopyParts 512000 102400 0 = Some ex_partOffs)
    by reflexivity.
  pose proof (parallel_failure_after_whole_batch ex_request_fail3 ex_complete
                ex_browser [1; 0; 1]%nat ex_checkpoint ex_src ex_options
                ex_partOffs ex_state H1 H2 H3 H4 H5) as T.
  cbv zeta in T.
  destruct T as (_ & _ & _ & _ & _ & _ & T).
  { exists (mkJob 3 (Finished (Some (mkErr (MsgCollaborator "connection reset")
                                      (Some 3))))).
    split; [vm_compute; auto 10|discriminate]. }
  destruct (T 3 (mkErr (MsgCollaborator "connection reset") None))
    as (Hr & _ & l & Hd & Hl).
  { vm_compute. auto 10. }
  { eexists. split; reflexivity. }
  { intros q Hq Hne. vm_compute in Hq.
    repeat (destruct Hq as [<-|Hq]; [try reflexivity; now contradiction Hne|]).
    contradiction. }
  { intros f x c y H. discriminate H. }
  split; [exact H1|]. split; [exact H2|]. split; [exact H3|].
  split; [exact H4|]. split; [exact H5|]. split; [exact Hr|].
  exists l. split; [exact Hd|exact Hl].
Defined.

Lemma validation_error_witness :
  resumable ex_options = None /\
  answer (ex_head "src" "key") = inr (mkResponse 200 "" 512000) /\
  validation_error (1000 - 0) ex_options =
    Some (mkErr (MsgCopySizeTooSmall 102400) None) /\
  fst (ex_copy ex_request [] ex_source_small ex_options ex_state) =
    Throw (Error (mkErr (MsgCopySizeTooSmall 102400) None)) /\
  trace (snd (ex_copy ex_request [] ex_source_small ex_options ex_state)) =
    [EvHead "src" "key"] /\
  bucket (snd (ex_copy ex_request [] ex_source_small ex_options ex_state)) = "dst"%string /\
  doneParts (snd (ex_copy ex_request [] ex_source_small ex_options ex_state)) = [].
Proof.
  split; [reflexivity|]. split; [reflexivity|]. split; [reflexivity|].
  exact (validation_error_follows_head_request_only ex_head ex_init ex_request
           ex_complete ex_browser ex_getPartSize [] "target" ex_source_small
           ex_options ex_state (mkResponse 200 "" 512000)
           (mkErr (MsgCopySizeTooSmall 102400) None)
           eq_refl eq_refl eq_refl).
Defined.

Lemma small_sizes_witness :
  resumable ex_options = None /\
  answer (ex_head "src" "key") = inr (mkResponse 200 "" 512000) /\
  fst (ex_copy ex_request [] ex_source_below ex_options ex_state) =
    Throw (Error (mkErr (MsgCopySizeTooSmall minPartSize) None)) /\
  exists evs,
    trace (snd (ex_copy ex_request [] ex_source ex_options ex_state)) =
    EvHead "src" "key" :: EvInitMultipartUpload "target" :: evs.
Proof.
  split; [reflexivity|]. split; [reflexivity|]. split.
  - destruct (small_sizes_rejected_before_initiation ex_head ex_init ex_request
                ex_complete ex_browser ex_getPartSize [] "target" ex_source_below
                ex_options ex_state (mkResponse 200 "" 512000) eq_refl eq_refl)
      as (_ & _ & H & _).
    apply H. reflexivity.
  - destruct (small_sizes_rejected_before_initiation ex_head ex_init ex_request
                ex_complete ex_browser ex_getPartSize [] "target" ex_source
                ex_options ex_state (mkResponse 200 "" 512000) eq_refl eq_refl)
      as (_ & _ & _ & H).
    apply H.
    + vm_compute. discriminate.
    + right. right. exists 102400. split; [reflexivity|]. vm_compute. discriminate.
Defined.

(** A checkpoint of 10 bytes in parts of 3 is resumed on a range of
    204800 bytes: four parts of at most 3 bytes are copied. *)
Lemma checkpoint_resumes_witness :
  opt_checkpoint ex_options_resume = Some ex_checkpoint_tiny /\
  cp_uploadId ex_checkpoint_tiny <> ""%string /\
  cp_copySize ex_checkpoint_tiny < minPartSize /\
  cp_partSize ex_checkpoint_tiny < minPartSize /\
  fst (ex_copy ex_request [] ex_source_range ex_options_resume ex_state) =
    Return "completed"%string /\
  map number
    (doneParts (snd (ex_copy ex_request [] ex_source_range ex_options_resume
                       ex_state))) = [1; 2; 3; 4].
Proof.
  split; [reflexivity|]. split; [discriminate|].
  split; [reflexivity|]. split; [reflexivity|].
  unfold ex_copy.
  destruct (checkpoint_resumes_without_validation ex_head ex_init ex_request
              ex_complete ex_browser ex_getPartSize [] "target" ex_source_range
              ex_options_resume ex_state ex_checkpoint_tiny eq_refl
              ltac:(discriminate)) as [E _].
  rewrite E. split; vm_compute; reflexivity.
Defined.

(** Every part is copied, the third pending request coming back first. *)
Lemma complete_called_witness :
  cancelFlag ex_state = false /\
  never_cancelled ex_request ex_options /\
  0 < or_default (opt_parallel ex_options) defaultParallel /\
  _divideMultipartCopyParts 512000 102400 0 = Some ex_partOffs /\
  fst (ex_resume ex_request [2; 0]%nat ex_options) = Return "completed"%string /\
  exists l, doneParts (snd (ex_resume ex_request [2; 0]%nat ex_options)) = l /\
            Permutation (map number l) [1; 2; 3; 4; 5].
Proof.
  assert (H1 : cancelFlag ex_state = false) by reflexivity.
  assert (H2 : never_cancelled ex_request ex_options)
    by (split; [reflexivity|intros f r c x H; discriminate H]).
  assert (H3 : 0 < or_default (opt_parallel ex_options) defaultParallel)
    by (vm_compute; reflexivity).
  assert (H4 : _divideMultipartCopyParts 512000 102400 0 = Some ex_partOffs)
    by reflexivity.
  destruct (complete_called_with_doneParts_as_recorded ex_request ex_complete
              ex_browser [2; 0]%nat ex_checkpoint ex_src ex_options ex_state)
    as [_ T].
  destruct (T ex_partOffs H1 H2 H3 H4) as (Hr & (l & Hd & Hl) & _).
  { intros p Hp. vm_compute in Hp.
    repeat (destruct Hp as [<-|Hp]; [reflexivity|]). contradiction. }
  { intros f x c y H. discriminate H. }
  split; [exact H1|]. split; [exact H2|]. split; [exact H3|].
  split; [exact H4|]. split.
  - exact Hr.
  - exists l. split; [exact Hd|].
    change [1; 2; 3; 4; 5] with
      (map number
         (flat_map (copied_entry ex_request ex_checkpoint ex_src ex_options
                      ex_partOffs)
            (resume_todo ex_checkpoint ex_partOffs))).
    now apply Permutation_map.
Defined.

(** The copy of part 1 succeeds, nothing is cancelled. *)
Lemma part_recorded_witness :
  cancelFlag ex_state = false /\
  part_params ex_checkpoint ex_src ex_options_progress ex_partOffs 1 =
    Some (ex_params 1 0 102399) /\
  ex_request (ex_params 1 0 102399) = mkReply (inr (mkResponse 200 "etag" 0)) false /\
  doneParts (snd (uploadPartJob ex_request ex_checkpoint ex_src
                    ex_options_progress ex_partOffs 1 ex_state)) =
    [mkPartDone 1 "etag"].
Proof.
  split; [reflexivity|]. split; [reflexivity|]. split; [reflexivity|].
  destruct (part_recorded_then_progress_reported ex_head ex_init ex_request
              ex_complete ex_browser ex_getPartSize []) as [T _].
  exact (proj1 (T ex_checkpoint ex_src ex_options_progress ex_partOffs 1
                  (ex_params 1 0 102399) (mkResponse 200 "etag" 0) ex_state
                  eq_refl eq_refl eq_refl)).
Defined.


(** With endOffset given, a head request that reports 999999 bytes
    instead of 512000 changes nothing. *)
Lemma head_size_unused_witness :
  endOffset ex_source_range = Some 205800 /\
  205800 <> 0 /\
  multipartUploadCopy ex_head_other ex_init ex_request ex_complete ex_browser
    ex_getPartSize [] "target" ex_source_range ex_options ex_state =
  multipartUploadCopy ex_head ex_init ex_request ex_complete ex_browser
    ex_getPartSize [] "target" ex_source_range ex_options ex_state.
Proof.
  split; [reflexivity|]. split; [discriminate|].
  destruct (head_request_made_on_every_invocation ex_head ex_init ex_request
              ex_complete ex_browser ex_getPartSize [] "target" ex_source_range
              ex_options ex_state) as [_ T].
  apply (T ex_head_other 205800 (mkResponse 200 "" 512000)
           (mkResponse 200 "" 999999)); try reflexivity.
  discriminate.
Defined.

(** ** Where the code departs from the specification *)


(** C4, as stated, fails: the validation error of a range of 1000 bytes
    comes after a remote operation, the head request. *)
Lemma validation_error_after_head_request :
  fst (ex_copy ex_request [] ex_source_small ex_options ex_state) =
    Throw (Error (mkErr (MsgCopySizeTooSmall 102400) None)) /\
  trace (snd (ex_copy ex_request [] ex_source_small ex_options ex_state)) =
    [EvHead "src" "key"].
Proof. split; vm_compute; reflexivity. Qed.

(** C5, as stated, fails: a checkpoint that lists part 2 as done is
    resumed one part after the other, part 1 is copied, and
    complete-upload is called with part 2 before part 1; and of two parts
    copied in parallel on a fresh start the second is done first, and
    complete-upload is called with part 2 before part 1. *)
Lemma complete_called_with_unsorted_parts :
  fst (ex_copy ex_request [] ex_source_two ex_options_resume2 ex_state) =
    Return "completed"%string /\
  In (EvCompleteMultipartUpload "target" "upload-1"
        [mkPartDone 2 "etag-2"; mkPartDone 1 "etag"])
     (trace (snd (ex_copy ex_request [] ex_source_two ex_options_resume2
                    ex_state))) /\
  fst (ex_copy ex_request [1]%nat ex_source_two ex_options ex_state) =
    Return "completed"%string /\
  In (EvCompleteMultipartUpload "target" "upload-1"
        [mkPartDone 2 "etag"; mkPartDone 1 "etag"])
     (trace (snd (ex_copy ex_request [1]%nat ex_source_two ex_options ex_state))).
Proof. repeat split; vm_compute; auto 10. Qed.

(** C6, as stated, fails: a partSize of 0, given by the caller and below
    the minimum, is not rejected: the upload is initiated and the copy
    completes. *)
Lemma zero_partSize_is_not_rejected :
  opt_partSize ex_options_zero = Some 0 /\
  0 < minPartSize /\
  fst (ex_copy ex_request [] ex_source_two ex_options_zero ex_state) =
    Return "completed"%string /\
  In (EvInitMultipartUpload "target")
     (trace (snd (ex_copy ex_request [] ex_source_two ex_options_zero ex_state))).
Proof. repeat split; vm_compute; auto 10. Qed.

(** C7, as stated, fails: the copy of part 1 succeeds while cancellation
    is requested; [doneParts] gains no entry and the progress callback,
    though supplied, is not called. And a ratio above 1 is reported when
    a checkpoint recorded with another partSize is resumed: four parts
    are listed as done, the plan has two parts, and after the copy of
    part 2 the ratio is 5/2. *)
Lemma part_copied_but_not_recorded_when_cancelled :
  answer (ex_request_cancel1 (ex_params 1 0 102399)) =
    inr (mkResponse 200 "etag" 0) /\
  opt_progress ex_options_progress = Some ex_progress /\
  uploadPartJob ex_request_cancel1 ex_checkpoint ex_src ex_options_progress
    ex_partOffs 1 ex_state =
  (Return tt, mkState "dst" true [] [EvRequest (ex_params 1 0 102399)]) /\
  exists r cp res,
    In (EvProgress r cp res)
       (trace (snd (_resumeMultipartCopy ex_request ex_complete ex_browser []
                      ex_checkpoint_mismatch ex_src ex_options_progress
                      ex_state))) /\
    (1 < r)%Q.
Proof.
  split; [reflexivity|]. split; [reflexivity|]. split; [reflexivity|].
  do 3 eexists. split; [vm_compute; right; left; reflexivity|reflexivity].
Qed.

(** C8, as stated, fails: with both offsets given the head request is
    made all the same. *)
Lemma head_request_made_with_both_offsets :
  startOffset ex_source_range = Some 1000 /\
  endOffset ex_source_range = Some 205800 /\
  In (EvHead "src" "key")
     (trace (snd (ex_copy ex_request [] ex_source_range ex_options ex_state))).
Proof. repeat split; vm_compute; auto. Qed.

(** * Further properties of the code *)

(** ** More on the part planner *)

(** The plan for positive sizes: its length and its parts. *)
Lemma divide_plan (copySize partSize startOffset : Z) :
  0 < copySize -> 0 < partSize ->
  let n := - ((- copySize) / partSize) in
  exists parts,
    _divideMultipartCopyParts copySize partSize startOffset = Some parts /\
    length parts = Z.to_nat n /\
    1 <= n /\ (n - 1) * partSize < copySize <= n * partSize /\
    forall i, (i < length parts)%nat ->
      nth_error parts i =
      Some (mkPartOff (partSize * Z.of_nat i + startOffset)
              (Z.min (partSize * Z.of_nat i + startOffset + partSize)
                     (copySize + startOffset))).
Proof.
  intros Hc Hp n.
  unfold _divideMultipartCopyParts, Math_ceil_div.
  destruct (Z.eqb_spec partSize 0) as [|_]; [lia|].
  pose proof (ceil_bounds copySize partSize Hp) as Hn. fold n in Hn |- *.
  assert (Hn1 : 1 <= n) by nia.
  eexists. split; [reflexivity|].
  assert (Hlen : length (divide_loop (Z.to_nat n) 0 n partSize copySize startOffset [])
                 = Z.to_nat n) by (apply divide_loop_length; lia).
  split; [exact Hlen|]. split; [exact Hn1|]. split; [exact Hn|].
  intros i Hi. rewrite divide_loop_nth by lia. reflexivity.
Qed.

Lemma divide_loop_sum fuel : forall i numParts partSize fileSize startOffset,
  Z.of_nat fuel = numParts - i -> 0 <= i -> 0 < partSize ->
  partSize * (numParts - 1) < fileSize ->
  Z_sum (map part_length
           (divide_loop fuel i numParts partSize fileSize startOffset [])) =
  Z.min (partSize * numParts) fileSize - Z.min (partSize * i) fileSize.
Proof.
  induction fuel as [|fuel IH]; intros i n ps fs so Hf Hi Hp Hn.
  - simpl. assert (i = n) by lia. subst. lia.
  - simpl. destruct (Z.ltb_spec i n); [|lia].
    rewrite divide_loop_app. cbn [app map Z_sum fold_right].
    fold (Z_sum (map part_length (divide_loop fuel (i + 1) n ps fs so []))).
    rewrite IH by lia. unfold part_length. cbn [start end_]. nia.
Qed.

(** X1: for copySize > 0 and partSize > 0 every part of the plan has
    between 1 and partSize bytes, every part but the last has exactly
    partSize bytes, the last one has the remainder
    copySize - (n - 1) * partSize, and the lengths of the parts add up
    to copySize. *)
Theorem divide_part_sizes (copySize partSize startOffset : Z) :
  0 < copySize -> 0 < partSize ->
  exists parts,
    _divideMultipartCopyParts copySize partSize startOffset = Some parts /\
    (forall p, In p parts -> 0 < part_length p <= partSize) /\
    (forall i p, nth_error parts i = Some p -> (S i < length parts)%nat ->
       part_length p = partSize) /\
    (forall p, nth_error parts (length parts - 1) = Some p ->
       part_length p = copySize - partSize * (Z.of_nat (length parts) - 1)) /\
    Z_sum (map part_length parts) = copySize.
Proof.
  intros Hc Hp.
  destruct (divide_plan copySize partSize startOffset Hc Hp)
    as (parts & Hd & Hlen & Hn1 & Hn & Hnth).
  cbv zeta in *. set (n := - ((- copySize) / partSize)) in *.
  assert (Hget : forall i p, nth_error parts i = Some p ->
     (i < length parts)%nat /\
     part_length p =
       Z.min (partSize * Z.of_nat i + startOffset + partSize) (copySize + startOffset)
       - (partSize * Z.of_nat i + startOffset)).
  { intros i p Hip.
    assert (Hi : (i < length parts)%nat) by (apply nth_error_Some; congruence).
    rewrite (Hnth i Hi) in Hip. inversion Hip; subst. auto. }
  exists parts. split; [exact Hd|]. split; [|split; [|split]].
  - intros p Hin. apply In_nth_error in Hin as [i Hip].
    destruct (Hget i p Hip) as [Hi ->]. nia.
  - intros i p Hip Hi. destruct (Hget i p Hip) as [_ ->]. nia.
  - intros p Hip. destruct (Hget _ p Hip) as [_ ->].
    replace (Z.of_nat (length parts - 1)) with (Z.of_nat (length parts) - 1) by lia.
    nia.
  - unfold _divideMultipartCopyParts, Math_ceil_div in Hd.
    destruct (Z.eqb_spec partSize 0) as [|_]; [lia|].
    fold n in Hd. injection Hd as <-.
    rewrite divide_loop_sum by lia. nia.
Qed.

Lemma divide_part_sizes_witness :
  0 < 250000 /\ 0 < 100000 /\
  exists parts,
    _divideMultipartCopyParts 250000 100000 7 = Some parts /\
    map part_length parts = [100000; 100000; 50000] /\
    Z_sum (map part_length parts) = 250000.
Proof.
  split; [lia|]. split; [lia|].
  destruct (divide_part_sizes 250000 100000 7 ltac:(lia) ltac:(lia))
    as (parts & Hd & _ & _ & _ & Hsum).
  exists parts. split; [exact Hd|]. split; [|exact Hsum].
  vm_compute in Hd. injection Hd as <-. reflexivity.
Defined.

(** X2: the planner at the edges. It never returns exactly when
    partSize is 0 and fileSize is positive (the number of parts is
    infinite); it returns the empty plan exactly when fileSize <= 0 with
    partSize >= 0, or fileSize >= 0 with partSize < 0; and with
    0 < fileSize <= partSize it returns the single part
    [startOffset, startOffset + fileSize). *)
Theorem divide_edge_cases (fileSize partSize startOffset : Z) :
  (_divideMultipartCopyParts fileSize partSize startOffset = None <->
   partSize = 0 /\ 0 < fileSize) /\
  (_divideMultipartCopyParts fileSize partSize startOffset = Some [] <->
   (fileSize <= 0 /\ 0 <= partSize) \/ (0 <= fileSize /\ partSize < 0)) /\
  (0 < fileSize <= partSize ->
   _divideMultipartCopyParts fileSize partSize startOffset =
   Some [mkPartOff startOffset (startOffset + fileSize)]).
Proof.
  unfold _divideMultipartCopyParts, Math_ceil_div.
  split; [|split].
  - destruct (Z.eqb_spec partSize 0) as [->|Hp].
    + destruct (Z.ltb_spec 0 fileSize); [tauto|].
      destruct (Z.ltb_spec fileSize 0); split; try discriminate; lia.
    + split; [discriminate|lia].
  - destruct (Z.eqb_spec partSize 0) as [->|Hp].
    + destruct (Z.ltb_spec 0 fileSize); [split; [discriminate|lia]|].
      destruct (Z.ltb_spec fileSize 0); split; auto; lia.
    + set (n := - ((- fileSize) / partSize)).
      assert (Hn : n <= 0 <-> (fileSize <= 0 /\ 0 <= partSize) \/
                              (0 <= fileSize /\ partSize < 0)).
      { unfold n. destruct (Z_lt_ge_dec 0 partSize) as [Hpos|Hneg].
        - pose proof (ceil_bounds fileSize partSize Hpos). nia.
        - assert (Hlt : partSize < 0) by lia.
          pose proof (Z.div_mod (- fileSize) partSize Hp).
          pose proof (Z.mod_neg_bound (- fileSize) partSize Hlt). nia. }
      destruct (Z_le_gt_dec n 0) as [Hle|Hgt].
      * replace (Z.to_nat n) with O by lia. simpl. tauto.
      * assert (Hlen : length (divide_loop (Z.to_nat n) 0 n partSize fileSize
                                 startOffset []) = Z.to_nat n)
          by (apply divide_loop_length; lia).
        split; [|lia]. intros [= E]. rewrite E in Hlen. simpl in Hlen. lia.
  - intros [Hf Hle].
    destruct (Z.eqb_spec partSize 0) as [|_]; [lia|].
    pose proof (ceil_bounds fileSize partSize ltac:(lia)) as Hn.
    set (n := - ((- fileSize) / partSize)) in *.
    assert (Hn1 : n = 1).
    { clearbody n. assert (1 <= n) by nia.
      destruct (Z_lt_ge_dec n 2); [lia|]. assert (partSize <= (n - 1) * partSize) by nia. lia. }
    rewrite Hn1. change (Z.to_nat 1) with 1%nat.
    cbn [divide_loop Z.ltb Z.compare app].
    do 2 f_equal. f_equal; lia.
Qed.

(** ** Proofs: the parts one after the other *)

Section SequentialProofs.

Variable request : Params -> Reply Response.
Variable completeMultipartUpload :
  string -> string -> list PartDone -> Options -> Reply string.
Variable checkBrowserAndVersion : string -> string -> bool.
Variable schedule : list nat.
Variable checkpoint : Checkpoint.
Variable sourceData : Source.
Variable options : Options.
Variable partOffs : list PartOff.

Local Abbreviation job' := (uploadPartJob request checkpoint sourceData options partOffs).
Local Abbreviation loop' := (sequential_loop request checkpoint sourceData options partOffs).
Local Abbreviation params' := (part_params checkpoint sourceData options partOffs).
Local Abbreviation reply' := (part_reply request checkpoint sourceData options partOffs).
Local Abbreviation entry' := (copied_entry request checkpoint sourceData options partOffs).
Local Abbreviation requests' := (request_events checkpoint sourceData options partOffs).
Local Abbreviation quietly' := (copies_quietly request checkpoint sourceData options partOffs).

Lemma part_reply_params p r :
  reply' p = Some r ->
  exists pi prm,
    partOffs_at partOffs p = Some pi /\
    prm = uploadPartCopy_params (cp_name checkpoint) (cp_uploadId checkpoint) p
            (Some (start pi, end_ pi - 1)) sourceData (copy_headers options) /\
    params' p = Some prm /\ request prm = r.
Proof.
  unfold part_reply, part_params.
  destruct (partOffs_at partOffs p) as [pi|]; [|discriminate].
  cbn. intros [= <-]. eauto 6.
Qed.

Lemma request_events_app l1 l2 : requests' (l1 ++ l2) = requests' l1 ++ requests' l2.
Proof. unfold request_events. apply flat_map_app. Qed.

Lemma request_events_one p prm : params' p = Some prm -> requests' [p] = [EvRequest prm].
Proof. unfold request_events. cbn. now intros ->. Qed.

(** A part job on a part that copies quietly. *)
Lemma uploadPartJob_quiet p s :
  cancelFlag s = false -> quiet_progress options -> quietly' p ->
  exists s',
    job' p s = (Return tt, s') /\
    cancelFlag s' = false /\ bucket s' = bucket s /\
    doneParts s' = doneParts s ++ entry' p /\
    exists evs, trace s' = trace s ++ evs /\
      filter is_request evs = requests' [p] /\
      Forall (fun e => is_complete e = false) evs.
Proof.
  intros Hc Hq [res Hr].
  destruct (part_reply_params p _ Hr) as (pi & prm & Hpi & Hprm & Hparams & Hreq).
  rewrite (request_events_one p prm Hparams).
  unfold copied_entry. rewrite Hr. cbn [answer].
  unfold uploadPartJob, uploadPartCopy, bind, isCancel, gets, try_catch,
    modify, ret.
  rewrite Hc. cbn [negb]. rewrite Hpi, <- Hprm, yield_eq, Hreq.
  cbn [answer cancel_requested cancelFlag set_cancelFlag log pcr_res].
  rewrite Hc. cbn [orb negb].
  destruct (opt_progress options) as [progress|] eqn:Hp.
  - rewrite yield_eq. rewrite (Hq progress _ _ _ Hp).
    cbn [answer cancel_requested cancelFlag set_cancelFlag set_doneParts log].
    eexists. split; [reflexivity|].
    cbn [cancelFlag bucket doneParts trace orb set_cancelFlag set_doneParts log].
    split; [reflexivity|]. split; [reflexivity|]. split; [reflexivity|].
    eexists. split; [rewrite <- app_assoc; reflexivity|].
    split; [reflexivity|]. repeat constructor.
  - eexists. split; [reflexivity|].
    cbn [cancelFlag bucket doneParts trace orb set_cancelFlag set_doneParts log].
    split; [reflexivity|]. split; [reflexivity|]. split; [reflexivity|].
    eexists. split; [reflexivity|].
    split; [reflexivity|]. repeat constructor.
Qed.

(** A part job on a part whose copy fails. *)
Lemma uploadPartJob_fails p e0 s :
  cancelFlag s = false ->
  copy_fails request checkpoint sourceData options partOffs p e0 ->
  exists s',
    job' p s = (Throw (Error (with_partNum p e0)), s') /\
    bucket s' = bucket s /\ doneParts s' = doneParts s /\
    exists evs, trace s' = trace s ++ evs /\
      filter is_request evs = requests' [p] /\
      Forall (fun e => is_complete e = false) evs.
Proof.
  intros Hc (r & Hr & Ha).
  destruct (part_reply_params p _ Hr) as (pi & prm & Hpi & Hprm & Hparams & Hreq).
  rewrite (request_events_one p prm Hparams).
  unfold uploadPartJob, uploadPartCopy, bind, isCancel, gets, try_catch,
    modify, ret, throw.
  rewrite Hc. cbn [negb]. rewrite Hpi, <- Hprm, yield_eq, Hreq, Ha.
  eexists. split; [reflexivity|].
  cbn [cancelFlag bucket doneParts trace orb set_cancelFlag set_doneParts log].
  split; [reflexivity|]. split; [reflexivity|].
  eexists. split; [reflexivity|]. split; [reflexivity|]. repeat constructor.
Qed.

(** A part job during whose copy cancellation is requested. *)
Lemma uploadPartJob_cancelled p res s :
  cancelFlag s = false ->
  reply' p = Some (mkReply (inr res) true) ->
  exists s',
    job' p s = (Return tt, s') /\
    cancelFlag s' = true /\ bucket s' = bucket s /\
    doneParts s' = doneParts s /\
    exists evs, trace s' = trace s ++ evs /\
      filter is_request evs = requests' [p] /\
      Forall (fun e => is_complete e = false) evs.
Proof.
  intros Hc Hr.
  destruct (part_reply_params p _ Hr) as (pi & prm & Hpi & Hprm & Hparams & Hreq).
  rewrite (request_events_one p prm Hparams).
  unfold uploadPartJob, uploadPartCopy, bind, isCancel, gets, try_catch,
    modify, ret, throw.
  rewrite Hc. cbn [negb]. rewrite Hpi, <- Hprm, yield_eq, Hreq.
  cbn [answer cancel_requested cancelFlag set_cancelFlag log pcr_res].
  rewrite orb_true_r. cbn [negb].
  eexists. split; [reflexivity|].
  cbn [cancelFlag bucket doneParts trace orb set_cancelFlag set_doneParts log].
  split; [reflexivity|]. split; [reflexivity|]. split; [reflexivity|].
  eexists. split; [reflexivity|]. split; [reflexivity|]. repeat constructor.
Qed.

(** The loop over parts that copy quietly comes to the part after them
    with these parts recorded and requested, in their order. *)
Lemma sequential_loop_quiet pre : forall rest s,
  cancelFlag s = false -> quiet_progress options ->
  (forall p, In p pre -> quietly' p) ->
  exists s',
    loop' (pre ++ rest) s = loop' rest s' /\
    cancelFlag s' = false /\ bucket s' = bucket s /\
    doneParts s' = doneParts s ++ flat_map entry' pre /\
    exists evs, trace s' = trace s ++ evs /\
      filter is_request evs = requests' pre /\
      Forall (fun e => is_complete e = false) evs.
Proof.
  induction pre as [|p pre IH]; intros rest s Hc Hq Hpre.
  - exists s. cbn [app flat_map]. rewrite !app_nil_r.
    repeat split; try assumption. exists []. rewrite app_nil_r.
    repeat split. constructor.
  - cbn [app]. rewrite sequential_loop_cons, Hc.
    destruct (uploadPartJob_quiet p s Hc Hq (Hpre p (or_introl eq_refl)))
      as (s1 & -> & Hc1 & Hb1 & Hd1 & evs1 & Ht1 & Hr1 & Hn1).
    destruct (IH rest s1 Hc1 Hq (fun q Hin => Hpre q (or_intror Hin)))
      as (s2 & E & Hc2 & Hb2 & Hd2 & evs2 & Ht2 & Hr2 & Hn2).
    exists s2. split; [exact E|]. split; [exact Hc2|].
    split; [congruence|]. split.
    + rewrite Hd2, Hd1. cbn [flat_map]. now rewrite app_assoc.
    + exists (evs1 ++ evs2). split; [rewrite Ht2, Ht1; now rewrite app_assoc|].
      split.
      * rewrite filter_app, Hr1, Hr2.
        change (p :: pre) with ([p] ++ pre). now rewrite request_events_app.
      * apply Forall_app. auto.
Qed.

End SequentialProofs.

(** *** The parts to copy *)

Lemma todo_parts_not_done (all done : list Z) (p : Z) :
  In p (todo_parts all done) -> In p all /\ ~ In p done.
Proof.
  unfold todo_parts. intros H. apply filter_In in H as [Hin Hn].
  split; [exact Hin|]. intros Hd.
  apply negb_true_iff in Hn.
  assert (existsb (Z.eqb p) done = true)
    by (apply existsb_exists; exists p; split; [exact Hd|apply Z.eqb_refl]).
  congruence.
Qed.

Lemma all_parts_bounds (n : nat) (p : Z) :
  In p (all_parts n) <-> 1 <= p <= Z.of_nat n.
Proof.
  unfold all_parts. rewrite in_map_iff. split.
  - intros (i & <- & Hi). apply in_seq in Hi. lia.
  - intros Hp. exists (Z.to_nat (p - 1)). split; [lia|]. apply in_seq. lia.
Qed.

Lemma all_parts_sorted (n : nat) : StronglySorted Z.lt (all_parts n).
Proof.
  unfold all_parts. generalize O as a.
  induction n as [|n IH]; intros a; cbn [seq map]; constructor.
  - apply IH.
  - apply Forall_forall. intros q Hq.
    apply in_map_iff in Hq as (i & <- & Hi). apply in_seq in Hi. lia.
Qed.

Lemma filter_sorted (f : Z -> bool) (l : list Z) :
  StronglySorted Z.lt l -> StronglySorted Z.lt (filter f l).
Proof.
  induction 1 as [|a l Hs IH Ha]; cbn [filter]; [constructor|].
  destruct (f a); [|exact IH]. constructor; [exact IH|].
  apply Forall_forall. intros q Hq. apply filter_In in Hq as [Hq _].
  rewrite Forall_forall in Ha. now apply Ha.
Qed.

Lemma sorted_NoDup (l : list Z) : StronglySorted Z.lt l -> NoDup l.
Proof.
  induction 1 as [|a l Hs IH Ha]; constructor; [|exact IH].
  intros Hin. rewrite Forall_forall in Ha. specialize (Ha a Hin). lia.
Qed.

Lemma resume_todo_sorted checkpoint partOffs :
  StronglySorted Z.lt (resume_todo checkpoint partOffs).
Proof. unfold resume_todo, todo_parts. apply filter_sorted, all_parts_sorted. Qed.

Lemma resume_todo_NoDup checkpoint partOffs : NoDup (resume_todo checkpoint partOffs).
Proof. apply sorted_NoDup, resume_todo_sorted. Qed.

Lemma copied_entry_quiet request checkpoint sourceData options partOffs
    (parts : list Z) :
  (forall p, In p parts ->
     copies_quietly request checkpoint sourceData options partOffs p) ->
  map number
    (flat_map (copied_entry request checkpoint sourceData options partOffs) parts) =
  parts.
Proof.
  intros Hq. rewrite copied_entry_numbers.
  induction parts as [|p rest IH]; [reflexivity|]. cbn [filter].
  destruct (Hq p (or_introl eq_refl)) as [res Hr].
  unfold copy_succeeds at 1. rewrite Hr. cbn [answer].
  f_equal. apply IH. intros q Hin. apply Hq. now right.
Qed.

(** ** Proofs: a resume that copies the parts one after the other *)

Section SequentialRuns.

Variable request : Params -> Reply Response.
Variable completeMultipartUpload :
  string -> string -> list PartDone -> Options -> Reply string.
Variable checkBrowserAndVersion : string -> string -> bool.
Variable schedule : list nat.

Local Abbreviation resume' :=
  (_resumeMultipartCopy request completeMultipartUpload checkBrowserAndVersion
     schedule).

Lemma resume_sequential checkpoint sourceData options partOffs s :
  sequential_mode checkBrowserAndVersion options = true ->
  cancelFlag s = false ->
  _divideMultipartCopyParts (cp_copySize checkpoint) (cp_partSize checkpoint)
    (src_startOffset sourceData) = Some partOffs ->
  resume' checkpoint sourceData options s =
  match sequential_loop request checkpoint sourceData options partOffs
          (resume_todo checkpoint partOffs)
          (set_doneParts (cp_doneParts checkpoint) s) with
  | (Return _, s1) =>
      yield (EvCompleteMultipartUpload (cp_name checkpoint)
               (cp_uploadId checkpoint) (doneParts s1))
        (completeMultipartUpload (cp_name checkpoint) (cp_uploadId checkpoint)
           (doneParts s1) options) s1
  | (Throw t, s1) => (Throw t, s1)
  | (Diverge, s1) => (Diverge, s1)
  end.
Proof.
  intros Hseq Hc Hd.
  rewrite (resume_run request completeMultipartUpload checkBrowserAndVersion
             schedule checkpoint sourceData options partOffs s Hc Hd).
  cbv zeta. unfold copy_parts. unfold sequential_mode in Hseq. rewrite Hseq.
  reflexivity.
Qed.

(** X3: a resume that copies the parts one after the other (Internet
    Explorer 10, or [parallel] is 1), every part to copy coming back with
    a response, no cancellation, no callback failure. The parts to copy
    are in ascending order; [doneParts] ends as the checkpoint's entries
    followed by one entry for each of them in that order; the requests are
    made in that order; complete-upload is then called, the last
    operation, and its outcome is the outcome of the run. On a checkpoint
    without done parts the numbers of [doneParts] are 1, 2, ..., n. *)
Theorem sequential_copy_in_part_order (checkpoint : Checkpoint)
    (sourceData : Source) (options : Options) (partOffs : list PartOff)
    (s : State) :
  let r := resume' checkpoint sourceData options s in
  let todo := resume_todo checkpoint partOffs in
  sequential_mode checkBrowserAndVersion options = true ->
  cancelFlag s = false ->
  _divideMultipartCopyParts (cp_copySize checkpoint) (cp_partSize checkpoint)
    (src_startOffset sourceData) = Some partOffs ->
  (forall p, In p todo ->
     copies_quietly request checkpoint sourceData options partOffs p) ->
  quiet_progress options ->
  StronglySorted Z.lt todo /\
  (exists l, doneParts (snd r) = cp_doneParts checkpoint ++ l /\
             map number l = todo) /\
  (exists evs,
     trace (snd r) =
       trace s ++ evs ++ [EvCompleteMultipartUpload (cp_name checkpoint)
                            (cp_uploadId checkpoint) (doneParts (snd r))] /\
     filter is_request evs =
       request_events checkpoint sourceData options partOffs todo /\
     Forall (fun e => is_complete e = false) evs) /\
  fst r = match answer (completeMultipartUpload (cp_name checkpoint)
                          (cp_uploadId checkpoint) (doneParts (snd r)) options) with
          | inr v => Return v
          | inl e => Throw (Error e)
          end /\
  (cp_doneParts checkpoint = [] ->
   map number (doneParts (snd r)) = all_parts (length partOffs)).
Proof.
  intros r todo Hseq Hc Hd Hquiet Hprog. subst r.
  rewrite (resume_sequential checkpoint sourceData options partOffs s Hseq Hc Hd).
  fold todo.
  destruct (sequential_loop_quiet request checkpoint sourceData options partOffs
              todo [] (set_doneParts (cp_doneParts checkpoint) s) Hc Hprog Hquiet)
    as (s1 & E & Hc1 & Hb1 & Hd1 & evs & Ht1 & Hr1 & Hn1).
  rewrite app_nil_r in E. rewrite E. cbn [sequential_loop]. unfold ret.
  rewrite yield_eq. cbn [fst snd doneParts trace set_cancelFlag log].
  cbn [doneParts trace set_doneParts] in Hd1, Ht1.
  pose proof (copied_entry_quiet request checkpoint sourceData options partOffs
                todo Hquiet) as Hnum.
  split; [apply resume_todo_sorted|].
  split; [eexists; split; [exact Hd1|exact Hnum]|].
  split; [exists evs; rewrite Ht1, <- app_assoc; auto|].
  split; [reflexivity|].
  intros Hfresh. rewrite Hd1, Hfresh. cbn [app]. rewrite Hnum.
  unfold todo, resume_todo. rewrite Hfresh. cbn [map]. apply todo_parts_fresh.
Qed.

(** X4: one part after the other, the loop stops at the first part whose
    copy fails: the error thrown is that error with [partNum] set to the
    part (its message is not rewritten), [doneParts] holds the
    checkpoint's entries and the parts before the failed one, the parts
    after it are not requested and complete-upload is not called. *)
Theorem sequential_stops_at_first_failure (checkpoint : Checkpoint)
    (sourceData : Source) (options : Options) (partOffs : list PartOff)
    (s : State) (pre : list Z) (p : Z) (post : list Z) (e0 : Err) :
  let r := resume' checkpoint sourceData options s in
  sequential_mode checkBrowserAndVersion options = true ->
  cancelFlag s = false ->
  _divideMultipartCopyParts (cp_copySize checkpoint) (cp_partSize checkpoint)
    (src_startOffset sourceData) = Some partOffs ->
  resume_todo checkpoint partOffs = pre ++ p :: post ->
  (forall q, In q pre ->
     copies_quietly request checkpoint sourceData options partOffs q) ->
  quiet_progress options ->
  copy_fails request checkpoint sourceData options partOffs p e0 ->
  fst r = Throw (Error (with_partNum p e0)) /\
  (exists l, doneParts (snd r) = cp_doneParts checkpoint ++ l /\
             map number l = pre) /\
  exists evs,
    trace (snd r) = trace s ++ evs /\
    filter is_request evs =
      request_events checkpoint sourceData options partOffs (pre ++ [p]) /\
    Forall (fun e => is_complete e = false) evs.
Proof.
  intros r Hseq Hc Hd Htodo Hquiet Hprog Hfail. subst r.
  rewrite (resume_sequential checkpoint sourceData options partOffs s Hseq Hc Hd).
  rewrite Htodo.
  destruct (sequential_loop_quiet request checkpoint sourceData options partOffs
              pre (p :: post) (set_doneParts (cp_doneParts checkpoint) s)
              Hc Hprog Hquiet)
    as (s1 & E & Hc1 & Hb1 & Hd1 & evs & Ht1 & Hr1 & Hn1).
  rewrite E, sequential_loop_cons, Hc1.
  destruct (uploadPartJob_fails request checkpoint sourceData options partOffs
              p e0 s1 Hc1 Hfail)
    as (s2 & -> & Hb2 & Hd2 & evs2 & Ht2 & Hr2 & Hn2).
  cbn [fst snd]. cbn [doneParts trace set_doneParts] in Hd1, Ht1.
  split; [reflexivity|]. split.
  - eexists. split; [rewrite Hd2; exact Hd1|].
    now apply copied_entry_quiet.
  - exists (evs ++ evs2). split; [rewrite Ht2, Ht1; now rewrite app_assoc|].
    split; [|apply Forall_app; auto].
    rewrite filter_app, Hr1, Hr2. now rewrite request_events_app.
Qed.

(** X5: one part after the other, cancellation is requested while the
    copy of part [p] is pending and the copy comes back with a response.
    The part is not recorded. When [p] is not the last part to copy, the
    cancel event is thrown before the next part is requested. When [p]
    is the last part, the loop is over, the flag is not looked at again,
    and complete-upload is called with [doneParts] that lack [p]; its
    outcome is the outcome of the run. *)
Theorem sequential_cancel_during_part (checkpoint : Checkpoint)
    (sourceData : Source) (options : Options) (partOffs : list PartOff)
    (s : State) (pre : list Z) (p : Z) (post : list Z) (res : Response) :
  let r := resume' checkpoint sourceData options s in
  sequential_mode checkBrowserAndVersion options = true ->
  cancelFlag s = false ->
  _divideMultipartCopyParts (cp_copySize checkpoint) (cp_partSize checkpoint)
    (src_startOffset sourceData) = Some partOffs ->
  resume_todo checkpoint partOffs = pre ++ p :: post ->
  (forall q, In q pre ->
     copies_quietly request checkpoint sourceData options partOffs q) ->
  quiet_progress options ->
  part_reply request checkpoint sourceData options partOffs p =
    Some (mkReply (inr res) true) ->
  cancelFlag (snd r) = true /\
  (exists l, doneParts (snd r) = cp_doneParts checkpoint ++ l /\
             map number l = pre) /\
  ~ In p (map number (doneParts (snd r))) /\
  (exists evs,
     trace (snd r) =
       trace s ++ evs ++
       (if is_nil post
        then [EvCompleteMultipartUpload (cp_name checkpoint)
                (cp_uploadId checkpoint) (doneParts (snd r))]
        else []) /\
     filter is_request evs =
       request_events checkpoint sourceData options partOffs (pre ++ [p]) /\
     Forall (fun e => is_complete e = false) evs) /\
  fst r =
    (if is_nil post
     then match answer (completeMultipartUpload (cp_name checkpoint)
                          (cp_uploadId checkpoint) (doneParts (snd r)) options) with
          | inr v => Return v
          | inl e => Throw (Error e)
          end
     else Throw CancelEvent).
Proof.
  intros r Hseq Hc Hd Htodo Hquiet Hprog Hcancel. subst r.
  rewrite (resume_sequential checkpoint sourceData options partOffs s Hseq Hc Hd).
  rewrite Htodo.
  destruct (sequential_loop_quiet request checkpoint sourceData options partOffs
              pre (p :: post) (set_doneParts (cp_doneParts checkpoint) s)
              Hc Hprog Hquiet)
    as (s1 & E & Hc1 & Hb1 & Hd1 & evs & Ht1 & Hr1 & Hn1).
  rewrite E, sequential_loop_cons, Hc1.
  destruct (uploadPartJob_cancelled request checkpoint sourceData options partOffs
              p res s1 Hc1 Hcancel)
    as (s2 & -> & Hc2 & Hb2 & Hd2 & evs2 & Ht2 & Hr2 & Hn2).
  cbn [doneParts trace set_doneParts] in Hd1, Ht1.
  pose proof (copied_entry_quiet request checkpoint sourceData options partOffs
                pre Hquiet) as Hnum.
  assert (Hnot : ~ In p (map number (doneParts s2))).
  { rewrite Hd2, Hd1, map_app, Hnum. intros Hin.
    apply in_app_or in Hin as [Hin|Hin].
    - assert (Hp : In p (resume_todo checkpoint partOffs))
        by (rewrite Htodo; apply in_or_app; right; now left).
      apply todo_parts_not_done in Hp as [_ Hp]. contradiction.
    - pose proof (resume_todo_NoDup checkpoint partOffs) as Hnd.
      rewrite Htodo in Hnd. apply NoDup_remove_2 in Hnd.
      apply Hnd. apply in_or_app. now left. }
  assert (Hreqs : filter is_request (evs ++ evs2) =
                  request_events checkpoint sourceData options partOffs (pre ++ [p])).
  { rewrite filter_app, Hr1, Hr2. now rewrite request_events_app. }
  destruct post as [|q post]; cbn [is_nil].
  - cbn [sequential_loop]. unfold ret. rewrite yield_eq.
    cbn [fst snd doneParts trace cancelFlag set_cancelFlag log].
    split; [now rewrite Hc2|].
    split; [eexists; split; [rewrite Hd2; exact Hd1|exact Hnum]|].
    split; [exact Hnot|]. split; [|reflexivity].
    exists (evs ++ evs2). rewrite Ht2, Ht1, <- !app_assoc.
    split; [reflexivity|]. split; [exact Hreqs|apply Forall_app; auto].
  - rewrite sequential_loop_cons, Hc2. cbn [fst snd].
    split; [exact Hc2|].
    split; [eexists; split; [rewrite Hd2; exact Hd1|exact Hnum]|].
    split; [exact Hnot|]. split; [|reflexivity].
    exists (evs ++ evs2). rewrite Ht2, Ht1, app_nil_r, <- !app_assoc.
    split; [reflexivity|]. split; [exact Hreqs|apply Forall_app; auto].
Qed.

End SequentialRuns.

(** ** Proofs: what every execution of the part jobs keeps *)

Section RunProofs.

Variable request : Params -> Reply Response.
Variable checkpoint : Checkpoint.
Variable sourceData : Source.
Variable options : Options.
Variable partOffs : list PartOff.

Local Abbreviation resume_job' := (resume_job request checkpoint sourceData options partOffs).
Local Abbreviation job_resume' := (job_resume request checkpoint sourceData options partOffs).
Local Abbreviation pool_step' := (pool_step request checkpoint sourceData options partOffs).
Local Abbreviation pool_steps' := (pool_steps request checkpoint sourceData options partOffs).
Local Abbreviation params' := (part_params checkpoint sourceData options partOffs).
Local Abbreviation reply' := (part_reply request checkpoint sourceData options partOffs).
Local Abbreviation entry' := (copied_entry request checkpoint sourceData options partOffs).
Local Abbreviation succeeds' := (copy_succeeds request checkpoint sourceData options partOffs).
Local Abbreviation requests' := (request_events checkpoint sourceData options partOffs).
Local Abbreviation job_wf' := (job_wf request checkpoint sourceData options partOffs).
Local Abbreviation run_inv' := (run_inv request checkpoint sourceData options partOffs).

Lemma set_cancelFlag_same s : cancelFlag s = true -> set_cancelFlag true s = s.
Proof. destruct s; cbn. now intros ->. Qed.

(** Once the cancel flag is set a resumed job changes nothing. *)
Lemma resume_job_frozen j s :
  cancelFlag s = true -> snd (resume_job' j s) = s.
Proof.
  intros Hc. destruct j as [p js]. rewrite resume_job_mk. cbn [snd].
  unfold job_resume. destruct js as [|r|r|o].
  - now rewrite Hc.
  - rewrite Hc. cbn [orb]. rewrite (set_cancelFlag_same s Hc).
    destruct (answer r); [reflexivity|]. now rewrite Hc.
  - rewrite Hc. cbn [orb]. rewrite (set_cancelFlag_same s Hc).
    destruct (answer r); reflexivity.
  - reflexivity.
Qed.

(** One resumption of a job. *)
Lemma resume_job_run j s :
  job_wf' j ->
  let j' := fst (resume_job' j s) in
  let s' := snd (resume_job' j s) in
  job_wf' j' /\ bucket s' = bucket s /\
  (cancelFlag s = true -> cancelFlag s' = true) /\
  (may_push j = false -> may_push j' = false) /\
  exists evs,
    trace s' = trace s ++ evs /\
    Forall (fun e => is_part_event e = true) evs /\
    ((filter is_request evs = [] /\ doneParts s' = doneParts s /\
      forall r, job_state j' <> Copying r) \/
     (is_queued j = true /\ (exists r, job_state j' = Copying r) /\
      filter is_request evs = requests' [job_part j] /\
      doneParts s' = doneParts s) \/
     (filter is_request evs = [] /\ (exists r, job_state j = Copying r) /\
      may_push j' = false /\ succeeds' (job_part j) = true /\
      doneParts s' = doneParts s ++ entry' (job_part j))).
Proof.
  destruct j as [p js]. cbv zeta. rewrite resume_job_mk. cbn [fst snd].
  unfold job_wf, may_push, is_queued, job_resume. cbn [job_state job_part].
  intros Hwf.
  assert (Hnil : forall A (t : list A), t = t ++ []) by (intros; now rewrite app_nil_r).
  destruct js as [|r|r|o].
  - destruct (cancelFlag s) eqn:Hc.
    + cbn. split; [exact I|]. split; [reflexivity|]. split; [auto|].
      split; [discriminate|]. exists []. split; [apply Hnil|].
      split; [constructor|]. left. repeat split; discriminate.
    + destruct (partOffs_at partOffs p) as [pi|] eqn:Hpi; cbn.
      * split; [unfold part_reply, part_params; now rewrite Hpi|].
        split; [reflexivity|]. split; [discriminate|]. split; [discriminate|].
        eexists. split; [reflexivity|]. split; [repeat constructor|].
        right. left. split; [reflexivity|]. split; [eauto|].
        split; [|reflexivity].
        unfold request_events, part_params. cbn. now rewrite Hpi.
      * split; [reflexivity|]. split; [reflexivity|]. split; [discriminate|].
        split; [discriminate|]. exists []. split; [apply Hnil|].
        split; [constructor|]. left. repeat split; discriminate.
  - destruct (answer r) as [e|res] eqn:Ha; cbn.
    + split; [reflexivity|]. split; [reflexivity|].
      split; [intros ->; reflexivity|]. split; [discriminate|].
      exists []. split; [apply Hnil|]. split; [constructor|].
      left. repeat split; discriminate.
    + destruct (cancelFlag s || cancel_requested r) eqn:Hc; cbn.
      * split; [exact I|]. split; [reflexivity|]. split; [auto|].
        split; [discriminate|]. exists []. split; [apply Hnil|].
        split; [constructor|]. left. repeat split; discriminate.
      * assert (Hs : succeeds' p = true)
          by (unfold copy_succeeds; now rewrite Hwf, Ha).
        assert (He : entry' p = [mkPartDone p (header_etag res)])
          by (unfold copied_entry; now rewrite Hwf, Ha).
        destruct (opt_progress options) as [f|]; cbn.
        { split; [exact I|]. split; [reflexivity|].
          split; [intros E; rewrite E in Hc; discriminate|].
          split; [discriminate|].
          eexists. split; [reflexivity|]. split; [repeat constructor|].
          right. right. rewrite He. repeat split; eauto. }
        { split; [exact I|]. split; [reflexivity|].
          split; [intros E; rewrite E in Hc; discriminate|].
          split; [discriminate|].
          exists []. split; [apply Hnil|]. split; [constructor|].
          right. right. rewrite He. repeat split; eauto. }
  - destruct (answer r) as [e|u]; cbn.
    + split; [reflexivity|]. split; [reflexivity|].
      split; [intros ->; reflexivity|]. split; [reflexivity|].
      exists []. split; [apply Hnil|]. split; [constructor|].
      left. repeat split; discriminate.
    + split; [exact I|]. split; [reflexivity|].
      split; [intros ->; reflexivity|]. split; [reflexivity|].
      exists []. split; [apply Hnil|]. split; [constructor|].
      left. repeat split; discriminate.
  - cbn. split; [exact Hwf|]. split; [reflexivity|]. split; [auto|].
    split; [reflexivity|]. exists []. split; [apply Hnil|].
    split; [constructor|]. left. repeat split; discriminate.
Qed.

Lemma in_middle {A} (a : A) (pre : list A) (x : A) (post : list A) :
  In a (pre ++ x :: post) -> a = x \/ In a (pre ++ post).
Proof.
  intros H. apply in_app_or in H as [H|[H|H]]; auto.
  - right. apply in_or_app. auto.
  - right. apply in_or_app. auto.
Qed.

Lemma in_middle_other {A} (a : A) (pre : list A) (y : A) (post : list A) :
  In a (pre ++ post) -> In a (pre ++ y :: post).
Proof.
  intros H. apply in_app_or in H as [H|H]; apply in_or_app; [auto|right; now right].
Qed.

Lemma part_unique (pre : list Job) (j : Job) (post : list Job) (j0 : Job) :
  NoDup (map job_part (pre ++ j :: post)) ->
  In j0 (pre ++ j :: post) -> job_part j0 = job_part j -> j0 = j.
Proof.
  intros Hnd Hin Hp. apply in_middle in Hin as [Hin|Hin]; [exact Hin|exfalso].
  rewrite map_app in Hnd. cbn [map] in Hnd. apply NoDup_remove_2 in Hnd.
  apply Hnd. rewrite <- map_app, <- Hp. now apply in_map.
Qed.

Lemma run_inv_step b0 d0 t0 x y :
  pool_step' x y -> run_inv' b0 d0 t0 x -> run_inv' b0 d0 t0 y.
Proof.
  intros Hstep (Hnd & Hwf & Hb & asked & copied & evs & Ht & Hev & Hreq & Hd
                & Hna & Hnc & Hincl & Hsucc & Hasked & Hcopied & Hcopying).
  destruct Hstep as [pre j post s]. cbn [fst snd] in *.
  assert (Hwfj : job_wf' j).
  { rewrite Forall_forall in Hwf. apply Hwf. apply in_or_app. right. now left. }
  pose proof (resume_job_part request checkpoint sourceData options partOffs j s)
    as Hpart.
  pose proof (resume_job_not_queued request checkpoint sourceData options partOffs
                j s) as Hnq.
  destruct (resume_job_run j s Hwfj)
    as (Hwf' & Hb' & _ & Hmp & evs' & Ht' & Hev' & Hcases).
  set (j' := fst (resume_job' j s)) in *.
  set (s' := snd (resume_job' j s)) in *.
  assert (Hwf2 : Forall job_wf' (pre ++ j' :: post)).
  { apply Forall_app in Hwf as [H1 H2]. apply Forall_cons_iff in H2 as [_ H2].
    apply Forall_app. split; [exact H1|]. constructor; assumption. }
  assert (Hnd2 : NoDup (map job_part (pre ++ j' :: post))).
  { rewrite map_app in *. cbn [map] in *. now rewrite Hpart. }
  assert (Hkeep : forall (P : Job -> bool) p,
            (P j = false -> P j' = false) ->
            (exists j0, In j0 (pre ++ j :: post) /\ job_part j0 = p /\ P j0 = false) ->
            exists j0, In j0 (pre ++ j' :: post) /\ job_part j0 = p /\ P j0 = false).
  { intros P p HP (j0 & Hin & Hp & HPj). apply in_middle in Hin as [->|Hin].
    - exists j'. split; [apply in_or_app; right; now left|]. split; [congruence|auto].
    - exists j0. split; [now apply in_middle_other|auto]. }
  assert (Hin' : In j' (pre ++ j' :: post)) by (apply in_or_app; right; now left).
  assert (Hin : In j (pre ++ j :: post)) by (apply in_or_app; right; now left).
  unfold run_inv. cbn [fst snd].
  split; [exact Hnd2|]. split; [exact Hwf2|]. split; [congruence|].
  destruct Hcases as [(Hr' & Hd' & Hnotc)|[(Hq & (r & Hc') & Hr' & Hd')
                                          |(Hr' & (r & Hc) & Hmp' & Hs & Hd')]].
  - exists asked, copied, (evs ++ evs').
    split; [rewrite Ht', Ht; now rewrite app_assoc|].
    split; [apply Forall_app; auto|].
    split; [rewrite filter_app, Hr', app_nil_r; exact Hreq|].
    split; [congruence|]. split; [exact Hna|]. split; [exact Hnc|].
    split; [exact Hincl|]. split; [exact Hsucc|].
    split; [intros p Hp; apply (Hkeep is_queued); [now intros _|auto]|].
    split; [intros p Hp; apply (Hkeep may_push); [exact Hmp|auto]|].
    intros j0 r Hj0 Hc0. apply in_middle in Hj0 as [->|Hj0].
    + now apply Hnotc in Hc0.
    + apply (Hcopying j0 r); [now apply in_middle_other|exact Hc0].
  - assert (Hfresh : ~ In (job_part j) asked).
    { intros Ha. destruct (Hasked _ Ha) as (j0 & Hj0 & Hp0 & Hq0).
      rewrite (part_unique pre j post j0 Hnd Hj0 Hp0) in Hq0. congruence. }
    exists (asked ++ [job_part j]), copied, (evs ++ evs').
    split; [rewrite Ht', Ht; now rewrite app_assoc|].
    split; [apply Forall_app; auto|].
    split; [rewrite filter_app, Hr', Hreq; now rewrite <- request_events_app|].
    split; [congruence|].
    split.
    { apply NoDup_app; [exact Hna|repeat constructor; intros []|].
      intros a Ha [<-|[]]. contradiction. }
    split; [exact Hnc|].
    split; [intros a Ha; apply in_or_app; left; now apply Hincl|].
    split; [exact Hsucc|].
    split.
    { intros p Hp. apply in_app_or in Hp as [Hp|[<-|[]]].
      - apply (Hkeep is_queued); [now intros _|auto].
      - exists j'. auto. }
    split; [intros p Hp; apply (Hkeep may_push); [exact Hmp|auto]|].
    intros j0 r0 Hj0 Hc0. apply in_or_app.
    apply in_middle in Hj0 as [->|Hj0]; [right; left; now rewrite Hpart|].
    left. apply (Hcopying j0 r0); [now apply in_middle_other|exact Hc0].
  - assert (Hask : In (job_part j) asked) by (apply (Hcopying j r); assumption).
    assert (Hfresh : ~ In (job_part j) copied).
    { intros Ha. destruct (Hcopied _ Ha) as (j0 & Hj0 & Hp0 & Hq0).
      rewrite (part_unique pre j post j0 Hnd Hj0 Hp0) in Hq0.
      unfold may_push in Hq0. rewrite Hc in Hq0. discriminate. }
    exists asked, (copied ++ [job_part j]), (evs ++ evs').
    split; [rewrite Ht', Ht; now rewrite app_assoc|].
    split; [apply Forall_app; auto|].
    split; [rewrite filter_app, Hr', app_nil_r; exact Hreq|].
    split.
    { rewrite Hd', Hd, flat_map_app. cbn [flat_map].
      now rewrite app_nil_r, app_assoc. }
    split; [exact Hna|].
    split.
    { apply NoDup_app; [exact Hnc|repeat constructor; intros []|].
      intros a Ha [<-|[]]. contradiction. }
    split.
    { intros a Ha. apply in_app_or in Ha as [Ha|[<-|[]]]; [now apply Hincl|exact Hask]. }
    split.
    { intros a Ha. apply in_app_or in Ha as [Ha|[<-|[]]]; [now apply Hsucc|exact Hs]. }
    split; [intros p Hp; apply (Hkeep is_queued); [now intros _|auto]|].
    split.
    { intros p Hp. apply in_app_or in Hp as [Hp|[<-|[]]].
      - apply (Hkeep may_push); [exact Hmp|auto].
      - exists j'. auto. }
    intros j0 r0 Hj0 Hc0. apply in_middle in Hj0 as [->|Hj0].
    + unfold may_push in Hmp'. rewrite Hc0 in Hmp'. discriminate.
    + apply (Hcopying j0 r0); [now apply in_middle_other|exact Hc0].
Qed.

Lemma run_inv_init todo s :
  NoDup todo ->
  run_inv' (bucket s) (doneParts s) (trace s) (queued_jobs todo, s).
Proof.
  intros Hnd. split; [|split; [|split]]; cbn [fst snd].
  - now rewrite queued_jobs_parts.
  - apply Forall_forall. intros j Hj.
    apply in_map_iff in Hj as (p & <- & _). exact I.
  - reflexivity.
  - exists [], [], []. rewrite !app_nil_r.
    split; [reflexivity|]. split; [constructor|]. split; [reflexivity|].
    split; [reflexivity|]. split; [constructor|]. split; [constructor|].
    split; [intros a []|]. split; [intros p []|]. split; [intros p []|].
    split; [intros p []|].
    intros j r Hj Hc. apply in_map_iff in Hj as (p & <- & _). discriminate.
Qed.

(** Every execution of the jobs of distinct parts keeps the invariant. *)
Lemma pool_steps_run todo s y :
  NoDup todo ->
  pool_steps' (queued_jobs todo, s) y ->
  run_inv' (bucket s) (doneParts s) (trace s) y.
Proof.
  intros Hnd Hsteps.
  apply (pool_steps_invariant request checkpoint sourceData options partOffs
           (run_inv' (bucket s) (doneParts s) (trace s))
           (run_inv_step (bucket s) (doneParts s) (trace s)) _ _ Hsteps).
  now apply run_inv_init.
Qed.

End RunProofs.

(** ** Proofs: every run of [_resumeMultipartCopy] *)

Lemma request_events_In checkpoint sourceData options partOffs asked prm :
  In (EvRequest prm) (request_events checkpoint sourceData options partOffs asked) <->
  exists p, In p asked /\
            part_params checkpoint sourceData options partOffs p = Some prm.
Proof.
  unfold request_events. rewrite in_flat_map. split.
  - intros (p & Hp & Hin). exists p. split; [exact Hp|].
    destruct (part_params _ _ _ _ p) as [prm'|]; [|contradiction].
    destruct Hin as [[= ->]|[]]. reflexivity.
  - intros (p & Hp & E). exists p. split; [exact Hp|]. rewrite E. now left.
Qed.

Lemma part_params_number checkpoint sourceData options partOffs p prm :
  part_params checkpoint sourceData options partOffs p = Some prm ->
  fst (prm_subres prm) = p.
Proof.
  unfold part_params. destruct (partOffs_at partOffs p); [|discriminate].
  now intros [= <-].
Qed.

Lemma request_events_NoDup checkpoint sourceData options partOffs asked :
  NoDup asked ->
  NoDup (request_events checkpoint sourceData options partOffs asked).
Proof.
  induction 1 as [|p l Hp Hl IH]; [constructor|].
  change (p :: l) with ([p] ++ l). rewrite request_events_app.
  unfold request_events at 1. cbn [flat_map]. rewrite app_nil_r.
  destruct (part_params checkpoint sourceData options partOffs p) as [prm|] eqn:E;
    [|exact IH].
  cbn [app]. constructor; [|exact IH].
  intros Hin. apply request_events_In in Hin as (q & Hq & Eq).
  apply part_params_number in E, Eq. congruence.
Qed.

Section Runs.

Variable head : string -> string -> Reply Response.
Variable initMultipartUpload : string -> Options -> Reply (string * Response).
Variable request : Params -> Reply Response.
Variable completeMultipartUpload :
  string -> string -> list PartDone -> Options -> Reply string.
Variable checkBrowserAndVersion : string -> string -> bool.
Variable _getPartSize : Z -> option Z -> Z.
Variable schedule : list nat.

Local Abbreviation resume' :=
  (_resumeMultipartCopy request completeMultipartUpload checkBrowserAndVersion
     schedule).
Local Abbreviation copy_parts' :=
  (copy_parts request checkBrowserAndVersion schedule).
Local Abbreviation copy' :=
  (multipartUploadCopy head initMultipartUpload request completeMultipartUpload
     checkBrowserAndVersion _getPartSize schedule).

(** [_resumeMultipartCopy], step by step. *)
Lemma resume_shape checkpoint sourceData options s :
  let s0 := set_doneParts (cp_doneParts checkpoint) s in
  resume' checkpoint sourceData options s =
  if cancelFlag s then (Throw CancelEvent, s0)
  else
    match _divideMultipartCopyParts (cp_copySize checkpoint)
            (cp_partSize checkpoint) (src_startOffset sourceData) with
    | None => (Diverge, s0)
    | Some partOffs =>
        match copy_parts' checkpoint sourceData options partOffs s0 with
        | (Return _, s1) =>
            yield (EvCompleteMultipartUpload (cp_name checkpoint)
                     (cp_uploadId checkpoint) (doneParts s1))
              (completeMultipartUpload (cp_name checkpoint)
                 (cp_uploadId checkpoint) (doneParts s1) options) s1
        | (Throw t, s1) => (Throw t, s1)
        | (Diverge, s1) => (Diverge, s1)
        end
    end.
Proof.
  cbv zeta. destruct (cancelFlag s) eqn:Hc.
  - now apply resume_cancelled.
  - destruct (_divideMultipartCopyParts _ _ _) as [partOffs|] eqn:Hd.
    + now apply resume_run.
    + unfold _resumeMultipartCopy, bind, modify, isCancel, gets, diverge.
      cbn [cancelFlag set_doneParts]. now rewrite Hc, Hd.
Qed.

(** The loop over the parts to copy is an execution of their jobs; when
    it throws the cancel event the flag is set, and when it throws an
    error the error is that of a failed job. *)
Lemma copy_parts_outcome checkpoint sourceData options partOffs s0 :
  let body := copy_parts' checkpoint sourceData options partOffs s0 in
  exists jobs,
    pool_steps request checkpoint sourceData options partOffs
      (queued_jobs (resume_todo checkpoint partOffs), s0) (jobs, snd body) /\
    match fst body with
    | Throw CancelEvent => cancelFlag (snd body) = true
    | Throw (Error e) =>
        exists j e1, In j jobs /\ job_state j = Finished (Some e1) /\
                     partNum e = partNum e1
    | _ => True
    end.
Proof.
  cbv zeta. unfold copy_parts.
  set (todo := resume_todo checkpoint partOffs).
  set (parallel := or_default (opt_parallel options) defaultParallel).
  destruct (checkBrowserAndVersion "Internet Explorer" "10" || (parallel =? 1)).
  - destruct (sequential_loop_steps request checkpoint sourceData options
                partOffs todo [] s0) as (jobs' & Hsteps & _ & Hres).
    exists jobs'. split; [exact Hsteps|].
    destruct (fst (sequential_loop request checkpoint sourceData options partOffs
                     todo s0)) as [u|[|e]|]; auto.
    destruct Hres as (done & j & rest & -> & _ & Hj & _).
    exists j, e. split; [apply in_or_app; right; now left|auto].
  - pose proof (pool_run_steps request checkpoint sourceData options partOffs
                  schedule todo parallel s0) as Hsteps.
    unfold bind, _thunkPool, isCancel, gets, throw, ret.
    destruct (pool_run request schedule checkpoint sourceData options partOffs
                todo parallel s0) as [jobs' s'].
    exists jobs'.
    destruct (forallb is_finished jobs') eqn:Hfin; [|split; [exact Hsteps|exact I]].
    destruct (cancelFlag s') eqn:Hc; [split; [exact Hsteps|exact Hc]|].
    destruct (flat_map job_error jobs') as [|e rest] eqn:He;
      [split; [exact Hsteps|exact I]|].
    split; [exact Hsteps|]. cbn [fst].
    destruct (first_error jobs' e rest Hfin He) as (pre & j & post & -> & _ & Hj).
    exists j, e. split; [apply in_or_app; right; now left|auto].
Qed.

(** What every run of [_resumeMultipartCopy] on a finite plan keeps. *)
Lemma resume_run_inv checkpoint sourceData options partOffs s :
  let r := resume' checkpoint sourceData options s in
  let todo := resume_todo checkpoint partOffs in
  cancelFlag s = false ->
  _divideMultipartCopyParts (cp_copySize checkpoint) (cp_partSize checkpoint)
    (src_startOffset sourceData) = Some partOffs ->
  bucket (snd r) = bucket s /\
  exists asked copied evs tail,
    trace (snd r) = trace s ++ evs ++ tail /\
    Forall (fun e => is_part_event e = true) evs /\
    filter is_request evs =
      request_events checkpoint sourceData options partOffs asked /\
    doneParts (snd r) =
      cp_doneParts checkpoint ++
      flat_map (copied_entry request checkpoint sourceData options partOffs) copied /\
    NoDup asked /\ NoDup copied /\ incl copied asked /\ incl asked todo /\
    (forall p, In p copied ->
       copy_succeeds request checkpoint sourceData options partOffs p = true) /\
    ((tail = [EvCompleteMultipartUpload (cp_name checkpoint)
                (cp_uploadId checkpoint) (doneParts (snd r))] /\
      fst r = match answer (completeMultipartUpload (cp_name checkpoint)
                              (cp_uploadId checkpoint) (doneParts (snd r))
                              options) with
              | inr v => Return v
              | inl e => Throw (Error e)
              end) \/
     (tail = [] /\
      (fst r = Diverge \/
       (fst r = Throw CancelEvent /\ cancelFlag (snd r) = true) \/
       exists e p, fst r = Throw (Error e) /\ partNum e = Some p /\ In p todo))).
Proof.
  intros r todo Hc Hd. subst r. rewrite resume_shape. cbv zeta. rewrite Hc, Hd.
  set (s0 := set_doneParts (cp_doneParts checkpoint) s).
  destruct (copy_parts_outcome checkpoint sourceData options partOffs s0)
    as (jobs & Hsteps & Hout).
  cbv zeta in Hout.
  pose proof (pool_steps_parts _ _ _ _ _ _ _ Hsteps) as Hparts.
  cbn [fst] in Hparts. rewrite queued_jobs_parts in Hparts.
  pose proof (pool_steps_run request checkpoint sourceData options partOffs
                _ s0 _ (resume_todo_NoDup checkpoint partOffs) Hsteps)
    as (_ & Hwf & Hb & asked & copied & evs & Ht & Hev & Hreq & Hdp
        & Hna & Hnc & Hincl & Hsucc & Hasked & _ & _).
  cbn [fst snd] in Hwf, Hb, Ht, Hdp, Hasked.
  cbn [bucket trace doneParts set_doneParts s0] in Hb, Ht, Hdp.
  assert (Htodo : incl asked todo).
  { intros p Hp. destruct (Hasked p Hp) as (j & Hj & <- & _).
    unfold todo. rewrite <- Hparts. now apply in_map. }
  destruct (copy_parts' checkpoint sourceData options partOffs s0)
    as [[u|[|e]|] s1]; cbn [fst snd] in *.
  - rewrite yield_eq. cbn [fst snd bucket doneParts trace set_cancelFlag log].
    split; [exact Hb|]. exists asked, copied, evs. eexists.
    split; [rewrite Ht, <- app_assoc; reflexivity|]. auto 15.
  - split; [exact Hb|]. exists asked, copied, evs, [].
    rewrite app_nil_r. auto 15.
  - split; [exact Hb|]. exists asked, copied, evs, [].
    rewrite app_nil_r. repeat (split; [assumption|]).
    right. split; [reflexivity|]. right. right.
    destruct Hout as (j & e1 & Hj & Hs & Hp).
    rewrite Forall_forall in Hwf. specialize (Hwf j Hj).
    unfold job_wf in Hwf. rewrite Hs in Hwf.
    exists e, (job_part j). split; [reflexivity|]. split; [congruence|].
    unfold todo. rewrite <- Hparts. now apply in_map.
  - split; [exact Hb|]. exists asked, copied, evs, [].
    rewrite app_nil_r. auto 15.
Qed.

End Runs.

Section RunTheorems.

Variable head : string -> string -> Reply Response.
Variable initMultipartUpload : string -> Options -> Reply (string * Response).
Variable request : Params -> Reply Response.
Variable completeMultipartUpload :
  string -> string -> list PartDone -> Options -> Reply string.
Variable checkBrowserAndVersion : string -> string -> bool.
Variable _getPartSize : Z -> option Z -> Z.
Variable schedule : list nat.

Local Abbreviation resume' :=
  (_resumeMultipartCopy request completeMultipartUpload checkBrowserAndVersion
     schedule).
Local Abbreviation copy' :=
  (multipartUploadCopy head initMultipartUpload request completeMultipartUpload
     checkBrowserAndVersion _getPartSize schedule).

Lemma filter_request_tail evs name uploadId parts :
  filter is_request (evs ++ [EvCompleteMultipartUpload name uploadId parts]) =
  filter is_request evs.
Proof. rewrite filter_app. cbn. apply app_nil_r. Qed.

(** X6: whatever fails and whatever is cancelled, in either mode, no
    part-copy request of a resume is made twice, and every one of them is
    the request of a part of the plan that the checkpoint does not list as
    done, for the byte range [start, end - 1] of that part, on the upload
    and the target of the checkpoint. *)
Theorem resume_requests_only_missing_parts (checkpoint : Checkpoint)
    (sourceData : Source) (options : Options) (s : State) :
  let r := resume' checkpoint sourceData options s in
  exists evs,
    trace (snd r) = trace s ++ evs /\
    NoDup (filter is_request evs) /\
    forall prm, In (EvRequest prm) evs ->
      exists partOffs p pi,
        _divideMultipartCopyParts (cp_copySize checkpoint)
          (cp_partSize checkpoint) (src_startOffset sourceData) = Some partOffs /\
        1 <= p <= Z.of_nat (length partOffs) /\
        ~ In p (map number (cp_doneParts checkpoint)) /\
        partOffs_at partOffs p = Some pi /\
        prm = uploadPartCopy_params (cp_name checkpoint) (cp_uploadId checkpoint)
                p (Some (start pi, end_ pi - 1)) sourceData
                (copy_headers options).
Proof.
  cbv zeta.
  destruct (cancelFlag s) eqn:Hc.
  { rewrite resume_shape. cbv zeta. rewrite Hc. cbn [snd trace set_doneParts].
    exists []. rewrite app_nil_r. split; [reflexivity|].
    split; [constructor|intros prm []]. }
  destruct (_divideMultipartCopyParts (cp_copySize checkpoint)
              (cp_partSize checkpoint) (src_startOffset sourceData))
    as [partOffs|] eqn:Hd.
  2:{ rewrite resume_shape. cbv zeta. rewrite Hc, Hd. cbn [snd trace set_doneParts].
      exists []. rewrite app_nil_r. split; [reflexivity|].
      split; [constructor|intros prm []]. }
  destruct (resume_run_inv request completeMultipartUpload checkBrowserAndVersion
              schedule checkpoint sourceData options partOffs s Hc Hd)
    as (_ & asked & copied & evs & tail & Ht & _ & Hreq & _ & Hna & _ & _
        & Htodo & _ & Htail).
  assert (Hf : filter is_request (evs ++ tail) =
               request_events checkpoint sourceData options partOffs asked).
  { destruct Htail as [[-> _]|[-> _]];
      [rewrite filter_request_tail|rewrite app_nil_r]; exact Hreq. }
  exists (evs ++ tail). split; [exact Ht|].
  split; [rewrite Hf; now apply request_events_NoDup|].
  intros prm Hin.
  assert (Hin' : In (EvRequest prm) (filter is_request (evs ++ tail)))
    by (apply filter_In; split; [exact Hin|reflexivity]).
  rewrite Hf in Hin'. apply request_events_In in Hin' as (p & Hp & Hprm).
  apply Htodo in Hp. apply todo_parts_not_done in Hp as [Hall Hnot].
  apply all_parts_bounds in Hall.
  unfold part_params in Hprm.
  destruct (partOffs_at partOffs p) as [pi|] eqn:Hpi; [|discriminate].
  injection Hprm as <-. exists partOffs, p, pi. auto.
Qed.

(** X7: whatever fails and whatever is cancelled, in either mode, a
    resume only appends to [doneParts]: the checkpoint's entries stay in
    front, the new entries have distinct part numbers that the checkpoint
    did not list, and each of them carries the etag of the response to a
    part-copy request made for that part during the run. So a checkpoint
    without repeated part numbers has none after the run. *)
Theorem resume_records_each_part_once (checkpoint : Checkpoint)
    (sourceData : Source) (options : Options) (s : State) :
  let r := resume' checkpoint sourceData options s in
  exists l evs,
    doneParts (snd r) = cp_doneParts checkpoint ++ l /\
    trace (snd r) = trace s ++ evs /\
    NoDup (map number l) /\
    (forall d, In d l ->
       ~ In (number d) (map number (cp_doneParts checkpoint)) /\
       exists prm res,
         In (EvRequest prm) evs /\ fst (prm_subres prm) = number d /\
         answer (request prm) = inr res /\ etag d = header_etag res) /\
    (NoDup (map number (cp_doneParts checkpoint)) ->
     NoDup (map number (doneParts (snd r)))).
Proof.
  cbv zeta.
  assert (Hnone : forall s0 : State,
            doneParts s0 = cp_doneParts checkpoint -> trace s0 = trace s ->
            exists l evs,
              doneParts s0 = cp_doneParts checkpoint ++ l /\
              trace s0 = trace s ++ evs /\
              NoDup (map number l) /\
              (forall d, In d l ->
                 ~ In (number d) (map number (cp_doneParts checkpoint)) /\
                 exists prm res,
                   In (EvRequest prm) evs /\ fst (prm_subres prm) = number d /\
                   answer (request prm) = inr res /\ etag d = header_etag res) /\
              (NoDup (map number (cp_doneParts checkpoint)) ->
               NoDup (map number (doneParts s0)))).
  { intros s0 Hd0 Ht0. exists [], []. rewrite !app_nil_r.
    split; [exact Hd0|]. split; [exact Ht0|]. split; [constructor|].
    split; [intros d []|]. now rewrite Hd0. }
  destruct (cancelFlag s) eqn:Hc.
  { rewrite resume_shape. cbv zeta. rewrite Hc. now apply Hnone. }
  destruct (_divideMultipartCopyParts (cp_copySize checkpoint)
              (cp_partSize checkpoint) (src_startOffset sourceData))
    as [partOffs|] eqn:Hd.
  2:{ rewrite resume_shape. cbv zeta. rewrite Hc, Hd. now apply Hnone. }
  clear Hnone.
  destruct (resume_run_inv request completeMultipartUpload checkBrowserAndVersion
              schedule checkpoint sourceData options partOffs s Hc Hd)
    as (_ & asked & copied & evs & tail & Ht & _ & Hreq & Hdp & _ & Hnc & Hincl
        & Htodo & Hsucc & _).
  set (entry := copied_entry request checkpoint sourceData options partOffs) in *.
  assert (Hnum : map number (flat_map entry copied) = copied).
  { unfold entry. rewrite copied_entry_numbers.
    clear Hnc Hincl Hdp. induction copied as [|p l IH]; [reflexivity|].
    cbn [filter]. rewrite (Hsucc p (or_introl eq_refl)). f_equal.
    apply IH. intros q Hq. apply Hsucc. now right. }
  assert (Hfresh : forall d, In d (flat_map entry copied) ->
            ~ In (number d) (map number (cp_doneParts checkpoint))).
  { intros d Hin.
    assert (Hn : In (number d) copied) by (rewrite <- Hnum; now apply in_map).
    apply Hincl, Htodo, todo_parts_not_done in Hn. tauto. }
  exists (flat_map entry copied), (evs ++ tail).
  split; [exact Hdp|]. split; [exact Ht|].
  split; [rewrite Hnum; exact Hnc|]. split.
  - intros d Hin. split; [now apply Hfresh|].
    apply in_flat_map in Hin as (p & Hp & Hin).
    unfold entry, copied_entry in Hin.
    destruct (part_reply request checkpoint sourceData options partOffs p)
      as [r|] eqn:Hr; [|contradiction].
    destruct (answer r) as [e|res] eqn:Ha; [contradiction|].
    destruct Hin as [<-|[]].
    destruct (part_reply_params request checkpoint sourceData options partOffs
                p r Hr) as (pi & prm & _ & _ & Hprm & Hrq).
    exists prm, res. cbn [number etag].
    split; [|split; [now apply part_params_number in Hprm|split; [congruence|auto]]].
    apply in_or_app. left.
    assert (Hin : In (EvRequest prm) (filter is_request evs)).
    { rewrite Hreq. apply request_events_In. exists p. split; [now apply Hincl|auto]. }
    now apply filter_In in Hin.
  - intros Hnd. rewrite Hdp, map_app. apply NoDup_app; [exact Hnd| |].
    + rewrite Hnum. exact Hnc.
    + intros a Ha Hal. apply in_map_iff in Hal as (d & <- & Hd').
      now apply (Hfresh d Hd').
Qed.

(** X8: the outcomes of a resume. Either complete-upload is called, once
    and as the last operation, with [doneParts] as it stands, and the
    outcome of the call is the outcome of the run; or it is not called at
    all and the run does not come back, or throws the cancel event with
    the cancel flag set, or throws an error whose [partNum] is one of the
    parts to copy. *)
Theorem resume_outcomes (checkpoint : Checkpoint) (sourceData : Source)
    (options : Options) (s : State) :
  let r := resume' checkpoint sourceData options s in
  let complete_event :=
    EvCompleteMultipartUpload (cp_name checkpoint) (cp_uploadId checkpoint)
      (doneParts (snd r)) in
  exists evs,
    Forall (fun e => is_complete e = false) evs /\
    ((trace (snd r) = trace s ++ evs ++ [complete_event] /\
      fst r = match answer (completeMultipartUpload (cp_name checkpoint)
                              (cp_uploadId checkpoint) (doneParts (snd r))
                              options) with
              | inr v => Return v
              | inl e => Throw (Error e)
              end) \/
     (trace (snd r) = trace s ++ evs /\
      (fst r = Diverge \/
       (fst r = Throw CancelEvent /\ cancelFlag (snd r) = true) \/
       exists e p partOffs,
         fst r = Throw (Error e) /\ partNum e = Some p /\
         _divideMultipartCopyParts (cp_copySize checkpoint)
           (cp_partSize checkpoint) (src_startOffset sourceData) = Some partOffs /\
         In p (resume_todo checkpoint partOffs)))).
Proof.
  cbv zeta.
  destruct (cancelFlag s) eqn:Hc.
  { rewrite resume_shape. cbv zeta. rewrite Hc.
    cbn [fst snd trace cancelFlag set_doneParts].
    exists []. split; [constructor|]. right. rewrite app_nil_r. auto. }
  destruct (_divideMultipartCopyParts (cp_copySize checkpoint)
              (cp_partSize checkpoint) (src_startOffset sourceData))
    as [partOffs|] eqn:Hd.
  2:{ rewrite resume_shape. cbv zeta. rewrite Hc, Hd.
      cbn [fst snd trace set_doneParts].
      exists []. split; [constructor|]. right. rewrite app_nil_r. auto. }
  destruct (resume_run_inv request completeMultipartUpload checkBrowserAndVersion
              schedule checkpoint sourceData options partOffs s Hc Hd)
    as (_ & asked & copied & evs & tail & Ht & Hev & _ & _ & _ & _ & _ & _ & _
        & Htail).
  exists evs. split.
  { eapply Forall_impl; [|exact Hev]. intros e He. now destruct e. }
  destruct Htail as [[-> Hr]|[-> Hr]].
  - left. auto.
  - right. rewrite app_nil_r in Ht. split; [exact Ht|].
    destruct Hr as [Hr|[Hr|(e & p & Hr & Hp & Hin)]]; auto.
    right. right. exists e, p, partOffs. auto.
Qed.

End RunTheorems.

(** ** Proofs: cancellation and the part jobs *)

Section CancelProofs.

Variable request : Params -> Reply Response.
Variable checkpoint : Checkpoint.
Variable sourceData : Source.
Variable options : Options.
Variable partOffs : list PartOff.

Local Abbreviation resume_job' := (resume_job request checkpoint sourceData options partOffs).
Local Abbreviation pool_step' := (pool_step request checkpoint sourceData options partOffs).
Local Abbreviation pool_steps' := (pool_steps request checkpoint sourceData options partOffs).
Local Abbreviation job_wf' := (job_wf request checkpoint sourceData options partOffs).
Local Abbreviation uncancelled' := (uncancelled request checkpoint sourceData options partOffs).

(** X9: once the cancel flag is set, resuming part jobs, in any number
    and any order, leaves the state as it is: no request is made, no
    part is recorded, no progress is reported. *)
Theorem cancelled_jobs_change_nothing (x y : list Job * State) :
  pool_steps' x y -> cancelFlag (snd x) = true -> snd y = snd x.
Proof.
  intros Hsteps Hc. induction Hsteps as [|x y z Hxy IH Hstep]; [reflexivity|].
  specialize (IH Hc). destruct Hstep as [pre j post s]. cbn [snd] in *.
  rewrite <- IH. apply resume_job_frozen. now rewrite IH.
Qed.

Lemma resume_job_uncancelled j s :
  job_wf' j -> uncancelled' j -> cancelFlag s = false ->
  cancelFlag (snd (resume_job' j s)) = true \/
  uncancelled' (fst (resume_job' j s)).
Proof.
  destruct j as [p js]. rewrite resume_job_mk. cbn [fst snd].
  unfold job_wf, uncancelled, job_resume. cbn [job_state job_part].
  intros Hwf Hun Hc. destruct js as [|r|r|o].
  - rewrite Hc. destruct (partOffs_at partOffs p) as [pi|] eqn:Hpi; cbn.
    + now right.
    + right. intros r. unfold part_reply, part_params. now rewrite Hpi.
  - rewrite Hc. cbn [orb]. destruct (cancel_requested r) eqn:Hcr.
    + left. destruct (answer r); reflexivity.
    + right. destruct (answer r); cbn.
      * intros r' Hr'. congruence.
      * destruct (opt_progress options); cbn; intros r' Hr'; congruence.
  - right. destruct (answer r); cbn; exact Hun.
  - right. exact Hun.
Qed.

Lemma uncancelled_step (x y : list Job * State) :
  pool_step' x y ->
  Forall job_wf' (fst x) ->
  cancelFlag (snd x) = true \/ Forall uncancelled' (fst x) ->
  cancelFlag (snd y) = true \/ Forall uncancelled' (fst y).
Proof.
  intros Hstep Hwf Hinv. destruct Hstep as [pre j post s]. cbn [fst snd] in *.
  destruct (cancelFlag s) eqn:Hc.
  { left. rewrite resume_job_frozen by exact Hc. exact Hc. }
  destruct Hinv as [Hinv|Hinv]; [discriminate|].
  apply Forall_app in Hwf as [_ Hwf]. apply Forall_cons_iff in Hwf as [Hwfj _].
  apply Forall_app in Hinv as [H1 H2]. apply Forall_cons_iff in H2 as [Hj H2].
  destruct (resume_job_uncancelled j s Hwfj Hj Hc) as [H|H]; [now left|right].
  apply Forall_app. split; [exact H1|]. constructor; assumption.
Qed.

(** When the jobs of distinct parts have all finished and the cancel
    flag is not set, no copy came back with a request for cancellation. *)
Lemma finished_uncancelled todo s jobs s' :
  pool_steps' (queued_jobs todo, s) (jobs, s') ->
  forallb is_finished jobs = true ->
  cancelFlag s' = false ->
  forall p r, In p todo ->
    part_reply request checkpoint sourceData options partOffs p = Some r ->
    cancel_requested r = false.
Proof.
  intros Hsteps Hfin Hc' p r Hp Hr.
  assert (Hinv : Forall job_wf' jobs /\
                 (cancelFlag s' = true \/ Forall uncancelled' jobs)).
  { apply (pool_steps_invariant request checkpoint sourceData options partOffs
             (fun x => Forall job_wf' (fst x) /\
                       (cancelFlag (snd x) = true \/ Forall uncancelled' (fst x)))
             ) with (x := (queued_jobs todo, s)) (y := (jobs, s')).
    - intros x y Hstep [Hwf Hun]. split.
      + destruct Hstep as [pre j post s0]. cbn [fst snd] in *.
        apply Forall_app in Hwf as [H1 H2]. apply Forall_cons_iff in H2 as [Hj H2].
        apply Forall_app. split; [exact H1|]. constructor; [|exact H2].
        apply (resume_job_run request checkpoint sourceData options partOffs j s0 Hj).
      + now apply (uncancelled_step x y).
    - exact Hsteps.
    - cbn [fst snd]. split.
      + apply Forall_forall. intros j Hj.
        apply in_map_iff in Hj as (q & <- & _). exact I.
      + right. apply Forall_forall. intros j Hj.
        apply in_map_iff in Hj as (q & <- & _). exact I. }
  destruct Hinv as [_ [Hinv|Hinv]]; [congruence|].
  pose proof (pool_steps_parts _ _ _ _ _ _ _ Hsteps) as Hparts.
  cbn [fst] in Hparts. rewrite queued_jobs_parts in Hparts.
  rewrite <- Hparts in Hp. apply in_map_iff in Hp as (j & <- & Hj).
  rewrite Forall_forall in Hinv. specialize (Hinv j Hj).
  rewrite forallb_forall in Hfin. specialize (Hfin j Hj).
  unfold uncancelled in Hinv. unfold is_finished in Hfin.
  destruct (job_state j); try discriminate. now apply Hinv.
Qed.

End CancelProofs.

(** ** Proofs: the whole copy *)

(** The execution of no job at all does nothing. *)
Lemma pool_steps_nil request checkpoint sourceData options partOffs
    (x y : list Job * State) :
  pool_steps request checkpoint sourceData options partOffs x y ->
  fst x = [] -> y = x.
Proof.
  intros H Hx. induction H as [|x y z Hxy IH Hstep]; [reflexivity|].
  specialize (IH Hx). subst y. exfalso.
  destruct Hstep as [pre j post s0]. cbn [fst] in Hx.
  destruct pre; discriminate Hx.
Qed.

Lemma todo_parts_all_done (all done : list Z) :
  (forall p, In p all -> In p done) -> todo_parts all done = [].
Proof.
  intros H. unfold todo_parts. induction all as [|p rest IH]; [reflexivity|].
  cbn [filter].
  assert (E : existsb (Z.eqb p) done = true).
  { apply existsb_exists. exists p. split; [apply H; now left|apply Z.eqb_refl]. }
  rewrite E. cbn [negb]. apply IH. intros q Hq. apply H. now right.
Qed.

Section CopyTheorems.

Variable head : string -> string -> Reply Response.
Variable initMultipartUpload : string -> Options -> Reply (string * Response).
Variable request : Params -> Reply Response.
Variable completeMultipartUpload :
  string -> string -> list PartDone -> Options -> Reply string.
Variable checkBrowserAndVersion : string -> string -> bool.
Variable _getPartSize : Z -> option Z -> Z.
Variable schedule : list nat.

Local Abbreviation resume' :=
  (_resumeMultipartCopy request completeMultipartUpload checkBrowserAndVersion
     schedule).
Local Abbreviation copy_parts' :=
  (copy_parts request checkBrowserAndVersion schedule).
Local Abbreviation copy' :=
  (multipartUploadCopy head initMultipartUpload request completeMultipartUpload
     checkBrowserAndVersion _getPartSize schedule).

Lemma resume_bucket checkpoint sourceData options s :
  bucket (snd (resume' checkpoint sourceData options s)) = bucket s.
Proof.
  destruct (cancelFlag s) eqn:Hc.
  { rewrite resume_shape. cbv zeta. now rewrite Hc. }
  destruct (_divideMultipartCopyParts (cp_copySize checkpoint)
              (cp_partSize checkpoint) (src_startOffset sourceData))
    as [partOffs|] eqn:Hd.
  - apply (resume_run_inv request completeMultipartUpload checkBrowserAndVersion
             schedule checkpoint sourceData options partOffs s Hc Hd).
  - rewrite resume_shape. cbv zeta. now rewrite Hc, Hd.
Qed.

(** X10: when the head request succeeds, the client's bucket after
    [multipartUploadCopy] is the bucket before it, whatever the
    invocation ends with; when the head request throws, the invocation
    throws that error and leaves the client on the source bucket. *)
Theorem copy_restores_bucket (name : string) (sourceData : SourceData)
    (options : Options) (s : State) :
  let r := copy' name sourceData options s in
  match answer (head (sourceBucketName sourceData) (sourceKey sourceData)) with
  | inr _ => bucket (snd r) = bucket s
  | inl e =>
      fst r = Throw (Error e) /\ bucket (snd r) = sourceBucketName sourceData
  end.
Proof.
  cbv zeta. rewrite copy_eq. cbv zeta.
  destruct (answer (head _ _)) as [e|objectMeta]; [split; reflexivity|].
  destruct (resumable options) as [checkpoint|].
  { now rewrite resume_bucket. }
  destruct (validation_error _ options); [reflexivity|].
  destruct (answer (initMultipartUpload name options)) as [e|result];
    [reflexivity|].
  destruct (opt_progress options) as [progress|].
  - destruct (answer (progress _ _ _)); [reflexivity|].
    now rewrite resume_bucket.
  - now rewrite resume_bucket.
Qed.

(** X11: a resume from a checkpoint that lists every part of the plan
    (an empty plan included) makes no part-copy request, when the parts
    are copied one after the other, and also in the parallel mode with a
    positive [parallel], where the pool is given no job: its only
    operation is complete-upload with the checkpoint's [doneParts], and
    the outcome of that call is the outcome of the run. *)
Theorem resume_nothing_to_copy (checkpoint : Checkpoint) (sourceData : Source)
    (options : Options) (partOffs : list PartOff) (s : State) :
  let r := resume' checkpoint sourceData options s in
  sequential_mode checkBrowserAndVersion options = true \/
  0 < or_default (opt_parallel options) defaultParallel ->
  cancelFlag s = false ->
  _divideMultipartCopyParts (cp_copySize checkpoint) (cp_partSize checkpoint)
    (src_startOffset sourceData) = Some partOffs ->
  (forall p, 1 <= p <= Z.of_nat (length partOffs) ->
     In p (map number (cp_doneParts checkpoint))) ->
  trace (snd r) =
    trace s ++ [EvCompleteMultipartUpload (cp_name checkpoint)
                  (cp_uploadId checkpoint) (cp_doneParts checkpoint)] /\
  doneParts (snd r) = cp_doneParts checkpoint /\
  fst r = match answer (completeMultipartUpload (cp_name checkpoint)
                          (cp_uploadId checkpoint) (cp_doneParts checkpoint)
                          options) with
          | inr v => Return v
          | inl e => Throw (Error e)
          end.
Proof.
  intros r Hmode Hc Hd Hall. subst r.
  assert (Htodo : resume_todo checkpoint partOffs = []).
  { unfold resume_todo. apply todo_parts_all_done.
    intros p Hp. apply Hall. now apply all_parts_bounds. }
  rewrite (resume_run request completeMultipartUpload checkBrowserAndVersion
             schedule checkpoint sourceData options partOffs s Hc Hd).
  cbv zeta.
  set (s0 := set_doneParts (cp_doneParts checkpoint) s).
  assert (E : copy_parts' checkpoint sourceData options partOffs s0 =
              (Return tt, s0)).
  { unfold copy_parts. rewrite Htodo. unfold sequential_mode in Hmode.
    destruct (checkBrowserAndVersion _ _ || _); [reflexivity|].
    destruct Hmode as [Hmode|Hpar]; [discriminate|].
    set (parallel := or_default (opt_parallel options) defaultParallel) in *.
    pose proof (pool_run_steps request checkpoint sourceData options partOffs
                  schedule [] parallel s0) as Hsteps.
    pose proof (pool_run_finished request checkpoint sourceData options partOffs
                  schedule [] parallel s0 Hpar) as Hfin.
    apply pool_steps_nil in Hsteps; [|reflexivity].
    unfold bind, _thunkPool, isCancel, gets, ret.
    rewrite Hsteps in Hfin |- *. cbn [fst] in Hfin. rewrite Hfin.
    cbn [flat_map]. change (cancelFlag s0) with (cancelFlag s).
    now rewrite Hc. }
  rewrite E, yield_eq. cbn [fst snd trace doneParts set_doneParts set_cancelFlag log s0].
  auto.
Qed.

End CopyTheorems.

Section CopyTheorems2.

Variable head : string -> string -> Reply Response.
Variable initMultipartUpload : string -> Options -> Reply (string * Response).
Variable request : Params -> Reply Response.
Variable completeMultipartUpload :
  string -> string -> list PartDone -> Options -> Reply string.
Variable checkBrowserAndVersion : string -> string -> bool.
Variable _getPartSize : Z -> option Z -> Z.
Variable schedule : list nat.

Local Abbreviation resume' :=
  (_resumeMultipartCopy request completeMultipartUpload checkBrowserAndVersion
     schedule).
Local Abbreviation copy_parts' :=
  (copy_parts request checkBrowserAndVersion schedule).
Local Abbreviation copy' :=
  (multipartUploadCopy head initMultipartUpload request completeMultipartUpload
     checkBrowserAndVersion _getPartSize schedule).

(** X12: in the parallel mode, with a positive [parallel], a
    cancellation requested while the copy of any part to copy is pending
    makes the run throw the cancel event, whatever parts fail:
    complete-upload is not called. *)
Theorem parallel_cancellation_before_errors (checkpoint : Checkpoint)
    (sourceData : Source) (options : Options) (partOffs : list PartOff)
    (s : State) (p : Z) (reply : Reply Response) :
  let r := resume' checkpoint sourceData options s in
  sequential_mode checkBrowserAndVersion options = false ->
  0 < or_default (opt_parallel options) defaultParallel ->
  cancelFlag s = false ->
  _divideMultipartCopyParts (cp_copySize checkpoint) (cp_partSize checkpoint)
    (src_startOffset sourceData) = Some partOffs ->
  In p (resume_todo checkpoint partOffs) ->
  part_reply request checkpoint sourceData options partOffs p = Some reply ->
  cancel_requested reply = true ->
  fst r = Throw CancelEvent /\
  cancelFlag (snd r) = true /\
  exists evs, trace (snd r) = trace s ++ evs /\
              Forall (fun e => is_complete e = false) evs.
Proof.
  intros r Hmode Hpar Hc Hd Hp Hreply Hcr. subst r.
  rewrite (resume_run request completeMultipartUpload checkBrowserAndVersion
             schedule checkpoint sourceData options partOffs s Hc Hd).
  cbv zeta. unfold copy_parts. unfold sequential_mode in Hmode. rewrite Hmode.
  set (s0 := set_doneParts (cp_doneParts checkpoint) s).
  set (todo := resume_todo checkpoint partOffs) in *.
  set (parallel := or_default (opt_parallel options) defaultParallel) in *.
  pose proof (pool_run_steps request checkpoint sourceData options partOffs
                schedule todo parallel s0) as Hsteps.
  pose proof (pool_run_finished request checkpoint sourceData options partOffs
                schedule todo parallel s0 Hpar) as Hfin.
  unfold bind, _thunkPool, isCancel, gets, throw, ret.
  destruct (pool_run request schedule checkpoint sourceData options partOffs
              todo parallel s0) as [jobs s1].
  cbn [fst] in Hfin. rewrite Hfin.
  pose proof (pool_steps_run request checkpoint sourceData options partOffs
                todo s0 _ (resume_todo_NoDup checkpoint partOffs) Hsteps)
    as (_ & _ & _ & asked & copied & evs & Ht & Hev & _).
  cbn [snd] in Ht.
  destruct (cancelFlag s1) eqn:Hc1.
  - cbn [fst snd]. split; [reflexivity|]. split; [exact Hc1|].
    exists evs. split; [exact Ht|].
    eapply Forall_impl; [|exact Hev]. intros e He. now destruct e.
  - exfalso.
    pose proof (finished_uncancelled request checkpoint sourceData options
                  partOffs todo s0 jobs s1 Hsteps Hfin Hc1 p reply Hp Hreply).
    congruence.
Qed.

(** X13: a checkpoint with a partSize of 0 and a positive copySize is
    resumed without any validation: after the head request the planner is
    asked for an infinite number of parts, and the invocation never comes
    back; nothing is requested and [doneParts] stays the checkpoint's. *)
Theorem zero_partSize_checkpoint_never_completes (name : string)
    (sourceData : SourceData) (options : Options) (s : State)
    (checkpoint : Checkpoint) (objectMeta : Response) :
  let b := sourceBucketName sourceData in
  let k := sourceKey sourceData in
  let r := copy' name sourceData options s in
  opt_checkpoint options = Some checkpoint ->
  cp_uploadId checkpoint <> ""%string ->
  cp_partSize checkpoint = 0 ->
  0 < cp_copySize checkpoint ->
  head b k = mkReply (inr objectMeta) false ->
  fst r = Diverge /\
  trace (snd r) = trace s ++ [EvHead b k] /\
  doneParts (snd r) = cp_doneParts checkpoint.
Proof.
  intros b k r Hcp Hid Hps Hcs Hhead. subst r.
  rewrite copy_eq. cbv zeta. fold b k. rewrite Hhead. cbn [answer].
  unfold resumable. rewrite Hcp.
  destruct (String.eqb_spec (cp_uploadId checkpoint) ""); [contradiction|].
  rewrite resume_shape. cbv zeta.
  cbn [cancelFlag after_yield set_bucket set_cancelFlag log cancel_requested orb].
  assert (Hd : forall so, _divideMultipartCopyParts (cp_copySize checkpoint)
                 (cp_partSize checkpoint) so = None).
  { intros so. unfold _divideMultipartCopyParts, Math_ceil_div. rewrite Hps.
    cbn [Z.eqb]. destruct (Z.ltb_spec 0 (cp_copySize checkpoint)); [reflexivity|lia]. }
  rewrite Hd. cbn [fst snd trace doneParts set_doneParts]. auto.
Qed.

End CopyTheorems2.

(** X14: the planner and the part jobs together. For copySize > 0 and
    partSize > 0 the request of part p (1 <= p <= n) asks for the bytes
    from startOffset + (p - 1) * partSize to
    min(startOffset + p * partSize, startOffset + copySize) - 1, both
    included, a range that is not empty; a byte lies in the range of some
    part exactly when it lies in [startOffset, startOffset + copySize),
    and then in the range of one part only. *)
Theorem part_ranges_partition (checkpoint : Checkpoint) (sourceData : Source)
    (options : Options) :
  let copySize := cp_copySize checkpoint in
  let partSize := cp_partSize checkpoint in
  let startOffset := src_startOffset sourceData in
  0 < copySize -> 0 < partSize ->
  exists partOffs,
    _divideMultipartCopyParts copySize partSize startOffset = Some partOffs /\
    (forall p, 1 <= p <= Z.of_nat (length partOffs) ->
       exists prm,
         part_params checkpoint sourceData options partOffs p = Some prm /\
         prm_copy_source_range prm =
           Some (startOffset + (p - 1) * partSize,
                 Z.min (startOffset + p * partSize) (startOffset + copySize) - 1) /\
         startOffset + (p - 1) * partSize <=
           Z.min (startOffset + p * partSize) (startOffset + copySize) - 1) /\
    (forall b, startOffset <= b < startOffset + copySize <->
       exists p prm,
         part_params checkpoint sourceData options partOffs p = Some prm /\
         in_range b prm) /\
    (forall b p q prm prm',
       part_params checkpoint sourceData options partOffs p = Some prm ->
       part_params checkpoint sourceData options partOffs q = Some prm' ->
       in_range b prm -> in_range b prm' -> p = q).
Proof.
  intros copySize partSize startOffset Hc Hp.
  destruct (divide_plan copySize partSize startOffset Hc Hp)
    as (parts & Hd & Hlen & Hn1 & Hn & Hnth).
  cbv zeta in Hlen, Hn1, Hn. set (n := - ((- copySize) / partSize)) in *.
  clearbody n.
  assert (Hat : forall p, 1 <= p <= n ->
            partOffs_at parts p =
            Some (mkPartOff (startOffset + (p - 1) * partSize)
                    (Z.min (startOffset + p * partSize) (startOffset + copySize)))).
  { intros p Hpn. unfold partOffs_at.
    destruct (Z.ltb_spec (p - 1) 0); [lia|].
    rewrite Hnth by lia. rewrite Z2Nat.id by lia.
    do 2 f_equal; [lia|f_equal; lia]. }
  assert (Hin : forall p pi, partOffs_at parts p = Some pi -> 1 <= p <= n).
  { intros p pi. unfold partOffs_at.
    destruct (Z.ltb_spec (p - 1) 0); [discriminate|]. intros E.
    assert (Hlt : (Z.to_nat (p - 1) < length parts)%nat)
      by (apply nth_error_Some; congruence).
    lia. }
  assert (Hprm : forall p prm,
            part_params checkpoint sourceData options parts p = Some prm ->
            1 <= p <= n /\
            prm_copy_source_range prm =
              Some (startOffset + (p - 1) * partSize,
                    Z.min (startOffset + p * partSize) (startOffset + copySize) - 1)).
  { intros p prm. unfold part_params.
    destruct (partOffs_at parts p) as [pi|] eqn:Hpi; [|discriminate].
    pose proof (Hin p pi Hpi) as Hpn. rewrite (Hat p Hpn) in Hpi.
    injection Hpi as <-. intros [= <-]. split; [exact Hpn|reflexivity]. }
  exists parts. split; [exact Hd|]. split; [|split].
  - intros p Hpn. rewrite Hlen in Hpn. rewrite Z2Nat.id in Hpn by lia.
    unfold part_params. rewrite (Hat p Hpn). eexists. split; [reflexivity|].
    split; [reflexivity|]. nia.
  - intros b. split.
    + intros [Hb1 Hb2].
      set (i := (b - startOffset) / partSize).
      pose proof (Z.div_mod (b - startOffset) partSize ltac:(lia)) as E.
      pose proof (Z.mod_pos_bound (b - startOffset) partSize Hp) as B.
      fold i in E.
      assert (Hi0 : 0 <= i) by (apply Z.div_pos; lia).
      assert (Hilt : i < n) by nia.
      exists (i + 1). unfold part_params. rewrite (Hat (i + 1)) by lia.
      eexists. split; [reflexivity|]. unfold in_range. cbn. nia.
    + intros (p & prm & Hpp & Hr). destruct (Hprm p prm Hpp) as [Hpn E].
      unfold in_range in Hr. rewrite E in Hr. nia.
  - intros b p q prm prm' Hpp Hqq Hr Hr'.
    destruct (Hprm p prm Hpp) as [Hpn E]. destruct (Hprm q prm' Hqq) as [Hqn E'].
    unfold in_range in Hr, Hr'. rewrite E in Hr. rewrite E' in Hr'.
    assert (Hlo : (p - 1) * partSize <= b - startOffset < p * partSize) by lia.
    assert (Hlo' : (q - 1) * partSize <= b - startOffset < q * partSize) by lia.
    nia.
Qed.

Section CopyTheorems3.

Variable head : string -> string -> Reply Response.
Variable initMultipartUpload : string -> Options -> Reply (string * Response).
Variable request : Params -> Reply Response.
Variable completeMultipartUpload :
  string -> string -> list PartDone -> Options -> Reply string.
Variable checkBrowserAndVersion : string -> string -> bool.
Variable _getPartSize : Z -> option Z -> Z.
Variable schedule : list nat.

Local Abbreviation resume' :=
  (_resumeMultipartCopy request completeMultipartUpload checkBrowserAndVersion
     schedule).
Local Abbreviation copy' :=
  (multipartUploadCopy head initMultipartUpload request completeMultipartUpload
     checkBrowserAndVersion _getPartSize schedule).

(** X15: a fresh copy carried through. With sizes that pass the
    validation, a positive partSize from [_getPartSize], a positive
    [parallel], every remote operation coming back with a response, no
    cancellation and no callback failure, [multipartUploadCopy] makes the
    head request, initiates the upload, copies every part of the plan for
    copySize and partSize, and calls complete-upload, the last operation,
    on the new upload with [doneParts] holding each of the parts 1..n
    once; the outcome of that call is the outcome of the invocation, and
    the client's bucket is what it was. *)
Theorem fresh_copy_completes (name : string) (sourceData : SourceData)
    (options : Options) (s : State) (objectMeta : Response)
    (result : string * Response) :
  let b := sourceBucketName sourceData in
  let k := sourceKey sourceData in
  let startOffset_ := or_default (startOffset sourceData) 0 in
  let copySize :=
    or_default (endOffset sourceData) (header_content_length objectMeta)
    - startOffset_ in
  let partSize := _getPartSize copySize (opt_partSize options) in
  let r := copy' name sourceData options s in
  resumable options = None ->
  head b k = mkReply (inr objectMeta) false ->
  validation_error copySize options = None ->
  initMultipartUpload name options = mkReply (inr result) false ->
  0 < partSize ->
  0 < or_default (opt_parallel options) defaultParallel ->
  quiet_progress options ->
  (forall prm, exists res, request prm = mkReply (inr res) false) ->
  exists partOffs,
    _divideMultipartCopyParts copySize partSize startOffset_ = Some partOffs /\
    fst r = match answer (completeMultipartUpload name (fst result)
                            (doneParts (snd r)) options) with
            | inr v => Return v
            | inl e => Throw (Error e)
            end /\
    Permutation (map number (doneParts (snd r))) (all_parts (length partOffs)) /\
    bucket (snd r) = bucket s /\
    exists evs,
      trace (snd r) =
        trace s ++ EvHead b k :: EvInitMultipartUpload name :: evs ++
        [EvCompleteMultipartUpload name (fst result) (doneParts (snd r))] /\
      Forall (fun e => is_part_event e = true) evs.
Proof.
  intros b k startOffset_ copySize partSize r Hfresh Hhead Hval Hinit Hps Hpar
         Hprog Hreq.
  assert (Hcs : 0 < copySize).
  { unfold validation_error in Hval.
    destruct (Z.ltb_spec copySize minPartSize); [discriminate|].
    unfold minPartSize in *. lia. }
  destruct (divide_plan copySize partSize startOffset_ Hcs Hps)
    as (partOffs & Hd & _).
  exists partOffs. split; [exact Hd|].
  assert (Er : exists s3 pre,
            r = resume' (fresh_checkpoint _getPartSize name copySize options
                           (fst result))
                  (filled_in sourceData (header_content_length objectMeta))
                  options s3 /\
            cancelFlag s3 = false /\ bucket s3 = bucket s /\
            trace s3 = trace s ++ EvHead b k :: EvInitMultipartUpload name :: pre /\
            Forall (fun e => is_part_event e = true) pre).
  { subst r. rewrite copy_eq. cbv zeta. fold b k. rewrite Hhead, Hfresh.
    cbn [answer src_endOffset src_startOffset filled_in].
    fold startOffset_ copySize. rewrite Hval, Hinit. cbn [answer].
    destruct (opt_progress options) as [progress|] eqn:Hp.
    - rewrite (Hprog progress _ _ _ Hp). cbn [answer].
      eexists. eexists. split; [reflexivity|].
      split; [reflexivity|]. split; [reflexivity|]. split.
      + rewrite !after_yield_trace. cbn [trace set_bucket].
        rewrite after_yield_trace. cbn [trace set_bucket set_cancelFlag].
        rewrite <- !app_assoc. cbn [app]. reflexivity.
      + repeat constructor.
    - eexists. exists []. split; [reflexivity|].
      split; [reflexivity|]. split; [reflexivity|]. split; [|constructor].
      rewrite !after_yield_trace. cbn [trace set_bucket].
      rewrite after_yield_trace. cbn [trace set_bucket set_cancelFlag].
      rewrite <- !app_assoc. reflexivity. }
  destruct Er as (s3 & pre & Er & Hc3 & Hb3 & Ht3 & Hpre).
  assert (Hb : bucket (snd r) = bucket s)
    by (rewrite Er, <- Hb3; apply resume_bucket).
  set (cp := fresh_checkpoint _getPartSize name copySize options (fst result)) in *.
  set (src := filled_in sourceData (header_content_length objectMeta)) in *.
  assert (Hd' : _divideMultipartCopyParts (cp_copySize cp) (cp_partSize cp)
                  (src_startOffset src) = Some partOffs) by exact Hd.
  destruct (resume_run_inv request completeMultipartUpload checkBrowserAndVersion
              schedule cp src options partOffs s3 Hc3 Hd')
    as (_ & asked & copied & evs & tail & Ht & Hev & _ & _ & _ & _ & _ & _ & _
        & Htail).
  assert (Hnc : never_cancelled request options).
  { split.
    - intros prm. destruct (Hreq prm) as [res ->]. reflexivity.
    - intros f x c y Hf. now rewrite (Hprog f x c y Hf). }
  assert (Hsucc : forall p, In p (resume_todo cp partOffs) ->
            copy_succeeds request cp src options partOffs p = true).
  { intros p Hin. destruct (all_parts_in_plan partOffs _ p Hin) as [pi Hpi].
    unfold copy_succeeds, part_reply, part_params. rewrite Hpi.
    cbn [option_map].
    match goal with |- context [request ?x] => destruct (Hreq x) as [res ->] end.
    reflexivity. }
  destruct (resume_all_copied request completeMultipartUpload
              checkBrowserAndVersion schedule cp src options partOffs s3
              Hc3 Hnc Hpar Hd' Hsucc)
    as (Hr & (l & Hl & Hperm) & t & Htr).
  { intros f x c y Hf. now rewrite (Hprog f x c y Hf). }
  rewrite <- Er in Hr, Hl, Htr, Ht.
  split; [exact Hr|]. split; [|split; [exact Hb|]].
  - rewrite Hl. cbn [cp_doneParts cp fresh_checkpoint app].
    eapply Permutation_trans; [apply Permutation_map; exact Hperm|].
    rewrite copied_entry_numbers.
    assert (E : resume_todo cp partOffs = all_parts (length partOffs))
      by (unfold resume_todo; apply todo_parts_fresh).
    rewrite <- E.
    assert (F : forall l0, (forall p, In p l0 ->
                  copy_succeeds request cp src options partOffs p = true) ->
                filter (copy_succeeds request cp src options partOffs) l0 = l0).
    { induction l0 as [|p l0 IH]; [reflexivity|]. intros H. cbn [filter].
      rewrite (H p (or_introl eq_refl)). f_equal. apply IH.
      intros q Hq. apply H. now right. }
    rewrite (F _ Hsucc). apply Permutation_refl.
  - rewrite Ht in Htr. apply app_inv_head in Htr.
    destruct Htail as [[-> _]|[-> _]].
    + apply app_inj_tail in Htr as [-> _].
      exists (pre ++ t). rewrite Ht, Ht3, <- !app_assoc. cbn [app].
      rewrite <- Er. split; [reflexivity|].
      apply Forall_app. auto.
    + exfalso. rewrite app_nil_r in Htr.
      assert (Hin : In (EvCompleteMultipartUpload (cp_name cp) (cp_uploadId cp)
                          (doneParts (snd r))) evs)
        by (rewrite Htr; apply in_or_app; right; now left).
      rewrite Forall_forall in Hev. specialize (Hev _ Hin). discriminate.
Qed.

End CopyTheorems3.

(** ** Proofs: the progress reports *)

Lemma progress_reports_app checkpoint numParts l : forall d x,
  progress_reports checkpoint numParts d (l ++ [x]) =
  progress_reports checkpoint numParts d l ++
  [(ratio (length (d ++ l ++ [x])) numParts,
    checkpoint_with checkpoint (d ++ l ++ [x]))].
Proof.
  induction l as [|y l IH]; intros d x; cbn [app progress_reports].
  - reflexivity.
  - rewrite IH. rewrite <- !app_assoc. reflexivity.
Qed.

Lemma progress_reports_nth checkpoint numParts l : forall d i,
  (i < length l)%nat ->
  nth_error (progress_reports checkpoint numParts d l) i =
  Some (ratio (length d + i + 1) numParts,
        checkpoint_with checkpoint (d ++ firstn (i + 1) l)).
Proof.
  induction l as [|y l IH]; intros d i Hi; [cbn in Hi; lia|].
  cbn [progress_reports]. destruct i as [|i].
  - cbn [nth_error]. rewrite length_app. cbn. do 3 f_equal. lia.
  - cbn [nth_error]. rewrite IH by (cbn in Hi; lia).
    rewrite length_app. cbn [length Nat.add firstn].
    rewrite <- app_assoc. cbn [app]. do 3 f_equal. lia.
Qed.

Lemma progress_reports_length checkpoint numParts l : forall d,
  length (progress_reports checkpoint numParts d l) = length l.
Proof. induction l as [|y l IH]; intros d; cbn; [reflexivity|now rewrite IH]. Qed.

Section ProgressProofs.

Variable request : Params -> Reply Response.
Variable checkpoint : Checkpoint.
Variable sourceData : Source.
Variable options : Options.
Variable partOffs : list PartOff.

Local Abbreviation resume_job' := (resume_job request checkpoint sourceData options partOffs).
Local Abbreviation pool_steps' := (pool_steps request checkpoint sourceData options partOffs).

(** One resumption of a job reports what it appends. *)
Lemma resume_job_reports j s f :
  opt_progress options = Some f ->
  exists evs delta,
    trace (snd (resume_job' j s)) = trace s ++ evs /\
    doneParts (snd (resume_job' j s)) = doneParts s ++ delta /\
    flat_map progress_view evs =
      progress_reports checkpoint (length partOffs) (doneParts s) delta.
Proof.
  intros Hf. destruct j as [p js]. rewrite resume_job_mk. cbn [snd].
  unfold job_resume.
  assert (Hnil : exists evs delta,
            trace s = trace s ++ evs /\ doneParts s = doneParts s ++ delta /\
            flat_map progress_view evs =
              progress_reports checkpoint (length partOffs) (doneParts s) delta)
    by (exists [], []; rewrite !app_nil_r; auto).
  destruct js as [|r|r|o].
  - destruct (cancelFlag s); [exact Hnil|].
    destruct (partOffs_at partOffs p); [|exact Hnil].
    cbn. eexists. exists [].
    split; [reflexivity|]. split; [now rewrite app_nil_r|reflexivity].
  - destruct (answer r) as [e|res]; [exact Hnil|].
    cbn [cancelFlag set_cancelFlag].
    destruct (cancelFlag s || cancel_requested r); [exact Hnil|].
    rewrite Hf. cbn [snd trace doneParts set_doneParts set_cancelFlag log].
    eexists. eexists. split; [reflexivity|]. split; [reflexivity|].
    reflexivity.
  - destruct (answer r); exact Hnil.
  - exact Hnil.
Qed.

Lemma pool_steps_reports x y f :
  opt_progress options = Some f ->
  pool_steps' x y ->
  exists evs l,
    trace (snd y) = trace (snd x) ++ evs /\
    doneParts (snd y) = doneParts (snd x) ++ l /\
    flat_map progress_view evs =
      progress_reports checkpoint (length partOffs) (doneParts (snd x)) l.
Proof.
  intros Hf Hsteps. induction Hsteps as [|x y z Hxy IH Hstep].
  - exists [], []. rewrite !app_nil_r. auto.
  - destruct IH as (evs & l & Ht & Hd & Hv).
    destruct Hstep as [pre j post s]. cbn [snd] in *.
    destruct (resume_job_reports j s f Hf) as (evs' & delta & Ht' & Hd' & Hv').
    exists (evs ++ evs'), (l ++ delta).
    split; [rewrite Ht', Ht; now rewrite app_assoc|].
    split; [rewrite Hd', Hd; now rewrite app_assoc|].
    rewrite flat_map_app, Hv, Hv', Hd.
    generalize (doneParts (snd x)) as d. clear. intros d. revert l.
    induction delta as [|e delta IH]; intros l.
    + now rewrite !app_nil_r.
    + cbn [progress_reports].
      replace (l ++ e :: delta) with ((l ++ [e]) ++ delta)
        by (now rewrite <- app_assoc).
      rewrite <- IH, progress_reports_app, <- !app_assoc. reflexivity.
Qed.

End ProgressProofs.

Section ProgressTheorems.

Variable head : string -> string -> Reply Response.
Variable initMultipartUpload : string -> Options -> Reply (string * Response).
Variable request : Params -> Reply Response.
Variable completeMultipartUpload :
  string -> string -> list PartDone -> Options -> Reply string.
Variable checkBrowserAndVersion : string -> string -> bool.
Variable _getPartSize : Z -> option Z -> Z.
Variable schedule : list nat.

Local Abbreviation resume' :=
  (_resumeMultipartCopy request completeMultipartUpload checkBrowserAndVersion
     schedule).
Local Abbreviation copy' :=
  (multipartUploadCopy head initMultipartUpload request completeMultipartUpload
     checkBrowserAndVersion _getPartSize schedule).

(** X16: with a progress callback, a resume reports progress once for
    every entry it appends to [doneParts], in the order of the entries,
    whatever fails and whatever is cancelled, in either mode: the i-th
    report carries the ratio (d + i) / numParts, [d] being the number of
    entries of the checkpoint, and the checkpoint with exactly the entries
    appended so far. *)
Theorem progress_reports_follow_doneParts (checkpoint : Checkpoint)
    (sourceData : Source) (options : Options) (partOffs : list PartOff)
    (s : State) (progress : Progress) :
  let r := resume' checkpoint sourceData options s in
  let d0 := cp_doneParts checkpoint in
  _divideMultipartCopyParts (cp_copySize checkpoint) (cp_partSize checkpoint)
    (src_startOffset sourceData) = Some partOffs ->
  opt_progress options = Some progress ->
  exists l evs,
    doneParts (snd r) = d0 ++ l /\
    trace (snd r) = trace s ++ evs /\
    length (flat_map progress_view evs) = length l /\
    forall i, (i < length l)%nat ->
      nth_error (flat_map progress_view evs) i =
      Some (ratio (length d0 + i + 1) (length partOffs),
            checkpoint_with checkpoint (d0 ++ firstn (i + 1) l)).
Proof.
  intros r d0 Hd Hf. subst r. rewrite resume_shape. cbv zeta. rewrite Hd.
  destruct (cancelFlag s).
  { exists [], []. cbn [snd doneParts trace set_doneParts]. rewrite !app_nil_r.
    split; [reflexivity|]. split; [reflexivity|]. split; [reflexivity|].
    intros i Hi. cbn in Hi. lia. }
  set (s0 := set_doneParts (cp_doneParts checkpoint) s).
  destruct (copy_parts_steps request checkBrowserAndVersion schedule checkpoint
              sourceData options partOffs s0) as [jobs Hsteps].
  destruct (pool_steps_reports request checkpoint sourceData options partOffs
              _ _ progress Hf Hsteps) as (evs & l & Ht & Hdp & Hv).
  cbn [snd] in Ht, Hdp, Hv. cbn [s0 trace doneParts set_doneParts] in Ht, Hdp, Hv.
  fold d0 in Hdp, Hv.
  assert (Hlen : length (flat_map progress_view evs) = length l)
    by (rewrite Hv; apply progress_reports_length).
  assert (Hnth : forall i, (i < length l)%nat ->
            nth_error (flat_map progress_view evs) i =
            Some (ratio (length d0 + i + 1) (length partOffs),
                  checkpoint_with checkpoint (d0 ++ firstn (i + 1) l)))
    by (intros i Hi; rewrite Hv; now apply progress_reports_nth).
  destruct (copy_parts request checkBrowserAndVersion schedule checkpoint
              sourceData options partOffs s0) as [[u|t|] s1]; cbn [snd] in *.
  - rewrite yield_eq. cbn [snd doneParts trace set_cancelFlag log].
    exists l, (evs ++ [EvCompleteMultipartUpload (cp_name checkpoint)
                         (cp_uploadId checkpoint) (doneParts s1)]).
    split; [exact Hdp|]. split; [rewrite Ht; now rewrite app_assoc|].
    rewrite flat_map_app. cbn [flat_map progress_view]. rewrite !app_nil_r.
    auto.
  - exists l, evs. auto.
  - exists l, evs. auto.
Qed.

(** X17: a fresh copy whose sizes pass the validation. When the
    initiation of the upload throws, the invocation throws that error
    after the head request and the initiation; when the first progress
    report (ratio 0, the fresh checkpoint) throws, the invocation throws
    that error after these two and the report. In both cases no part is
    requested and [doneParts] is untouched. *)
Theorem copy_errors_before_first_part (name : string)
    (sourceData : SourceData) (options : Options) (s : State)
    (objectMeta : Response) :
  let b := sourceBucketName sourceData in
  let k := sourceKey sourceData in
  let copySize :=
    or_default (endOffset sourceData) (header_content_length objectMeta)
    - or_default (startOffset sourceData) 0 in
  let r := copy' name sourceData options s in
  resumable options = None ->
  answer (head b k) = inr objectMeta ->
  validation_error copySize options = None ->
  (forall e, answer (initMultipartUpload name options) = inl e ->
     fst r = Throw (Error e) /\
     trace (snd r) = trace s ++ [EvHead b k; EvInitMultipartUpload name] /\
     doneParts (snd r) = doneParts s) /\
  (forall result progress e,
     let checkpoint :=
       fresh_checkpoint _getPartSize name copySize options (fst result) in
     answer (initMultipartUpload name options) = inr result ->
     opt_progress options = Some progress ->
     answer (progress 0%Q checkpoint (snd result)) = inl e ->
     fst r = Throw (Error e) /\
     trace (snd r) =
       trace s ++ [EvHead b k; EvInitMultipartUpload name;
                   EvProgress 0 checkpoint (snd result)] /\
     doneParts (snd r) = doneParts s).
Proof.
  intros b k copySize r Hfresh Hhead Hval. subst r.
  rewrite copy_eq. cbv zeta. fold b k. rewrite Hhead, Hfresh.
  cbn [src_endOffset src_startOffset filled_in]. fold copySize. rewrite Hval.
  split.
  - intros e Hinit. rewrite Hinit. cbn [fst snd].
    rewrite after_yield_trace. cbn [trace set_bucket].
    rewrite after_yield_trace. cbn [trace set_bucket set_cancelFlag].
    rewrite <- app_assoc. auto.
  - intros result progress e Hinit Hp Ha.
    rewrite Hinit, Hp, Ha. cbn [fst snd].
    rewrite !after_yield_trace. cbn [trace set_bucket].
    rewrite after_yield_trace. cbn [trace set_bucket set_cancelFlag].
    rewrite <- !app_assoc. auto.
Qed.

End ProgressTheorems.

(** ** Proofs: the error of a parallel run *)

Lemma sorted_middle (pre : list Z) (a : Z) (post : list Z) :
  StronglySorted Z.lt (pre ++ a :: post) -> forall b, In b post -> a < b.
Proof.
  induction pre as [|x pre IH]; cbn [app]; intros Hs b Hb.
  - apply StronglySorted_inv in Hs as [_ Hall].
    rewrite Forall_forall in Hall. now apply Hall.
  - apply StronglySorted_inv in Hs as [Hs _]. now apply IH.
Qed.

Section ParallelErrors.

Variable request : Params -> Reply Response.
Variable completeMultipartUpload :
  string -> string -> list PartDone -> Options -> Reply string.
Variable checkBrowserAndVersion : string -> string -> bool.
Variable schedule : list nat.

Local Abbreviation resume' :=
  (_resumeMultipartCopy request completeMultipartUpload checkBrowserAndVersion
     schedule).

(** X18: in the parallel mode, nothing cancelled and no callback failure,
    the error of a run in which part copies fail is the error of the
    failed part with the lowest number, whatever the order in which the
    copies come back: it carries that number in [partNum] and in its
    message. *)
Theorem parallel_reports_lowest_failed_part (checkpoint : Checkpoint)
    (sourceData : Source) (options : Options) (partOffs : list PartOff)
    (s : State) (p : Z) (e0 : Err) :
  let r := resume' checkpoint sourceData options s in
  let todo := resume_todo checkpoint partOffs in
  sequential_mode checkBrowserAndVersion options = false ->
  0 < or_default (opt_parallel options) defaultParallel ->
  cancelFlag s = false ->
  never_cancelled request options ->
  (forall f x c y, opt_progress options = Some f -> answer (f x c y) = inr tt) ->
  _divideMultipartCopyParts (cp_copySize checkpoint) (cp_partSize checkpoint)
    (src_startOffset sourceData) = Some partOffs ->
  In p todo ->
  copy_fails request checkpoint sourceData options partOffs p e0 ->
  (forall q, In q todo -> q < p ->
     copy_succeeds request checkpoint sourceData options partOffs q = true) ->
  fst r = Throw (Error (failed_to_copy (with_partNum p e0))) /\
  failed_to_copy (with_partNum p e0) =
    mkErr (MsgFailedToCopy (message e0) (Some p)) (Some p).
Proof.
  intros r todo Hmode Hpar Hc Hnc Hprog Hd Hp Hfail Hlow.
  split; [|reflexivity]. subst r.
  rewrite (resume_run request completeMultipartUpload checkBrowserAndVersion
             schedule checkpoint sourceData options partOffs s Hc Hd).
  cbv zeta. unfold copy_parts. unfold sequential_mode in Hmode. rewrite Hmode.
  fold todo.
  set (s0 := set_doneParts (cp_doneParts checkpoint) s).
  set (parallel := or_default (opt_parallel options) defaultParallel) in *.
  pose proof (pool_run_steps request checkpoint sourceData options partOffs
                schedule todo parallel s0) as Hsteps.
  pose proof (pool_run_finished request checkpoint sourceData options partOffs
                schedule todo parallel s0 Hpar) as Hfin.
  unfold bind at 1, _thunkPool.
  destruct (pool_run request schedule checkpoint sourceData options partOffs
              todo parallel s0) as [jobs s1].
  cbn [fst] in Hfin. rewrite Hfin.
  destruct (nocancel_finished request checkpoint sourceData options partOffs
              Hnc todo s0 jobs s1 Hc Hsteps Hfin)
    as (Hc1 & Hparts & Hok & _).
  unfold bind, isCancel, gets, throw. rewrite Hc1.
  rewrite Forall_forall in Hok.
  assert (Hsucc_fail : copy_succeeds request checkpoint sourceData options
                         partOffs p = false).
  { destruct Hfail as (r0 & Hr0 & Ha). unfold copy_succeeds. now rewrite Hr0, Ha. }
  (* the job of part p has failed with the error of the copy *)
  assert (Hjp : exists jp, In jp jobs /\ job_part jp = p /\
                           job_state jp = Finished (Some (with_partNum p e0))).
  { pose proof Hp as Hp'. rewrite <- Hparts in Hp'.
    apply in_map_iff in Hp' as (jp & Ejp & Hin).
    exists jp. split; [exact Hin|]. split; [exact Ejp|].
    pose proof (Hok jp Hin) as Hjok.
    rewrite forallb_forall in Hfin. pose proof (Hfin jp Hin) as Hjf.
    unfold job_ok, is_finished in *. rewrite Ejp in Hjok.
    destruct (job_state jp) as [| | |[e1|]]; try discriminate.
    - destruct Hjok as (_ & Hj2 & _). now rewrite (Hj2 e0 Hfail).
    - congruence. }
  destruct Hjp as (jp & Hjpin & Hjpp & Hjps).
  destruct (flat_map job_error jobs) as [|e rest] eqn:Eerr.
  { exfalso.
    assert (Hin : In (with_partNum p e0) (flat_map job_error jobs)).
    { apply in_flat_map. exists jp. split; [exact Hjpin|].
      unfold job_error. rewrite Hjps. now left. }
    rewrite Eerr in Hin. contradiction. }
  destruct (first_error jobs e rest Hfin Eerr) as (pre & j & post & Ejobs & Hpre & Hj).
  assert (Hjin : In j jobs) by (rewrite Ejobs; apply in_or_app; right; now left).
  pose proof (Hok j Hjin) as Hjok.
  assert (Hjpart : job_part j = p).
  { rewrite Ejobs in Hjpin. apply in_app_or in Hjpin as [Hin|[Hin|Hin]].
    - exfalso. rewrite Forall_forall in Hpre. rewrite (Hpre jp Hin) in Hjps.
      discriminate.
    - now rewrite Hin.
    - exfalso.
      pose proof (resume_todo_sorted checkpoint partOffs) as Hs.
      fold todo in Hs. rewrite <- Hparts, Ejobs, map_app in Hs. cbn [map] in Hs.
      assert (Hlt : job_part j < p).
      { apply (sorted_middle _ _ _ Hs). rewrite <- Hjpp. now apply in_map. }
      eapply (job_ok_no_failure request checkpoint sourceData options partOffs
                j e Hjok); [|exact Hprog|exact Hj].
      apply Hlow; [|exact Hlt]. rewrite <- Hparts. now apply in_map. }
  assert (He : e = with_partNum p e0).
  { unfold job_ok in Hjok. rewrite Hj, Hjpart in Hjok.
    destruct Hjok as (_ & Hjok & _). now apply Hjok. }
  rewrite He. reflexivity.
Qed.

End ParallelErrors.

(** ** The further properties at concrete inputs *)

Lemma ex_quiet_parts (request : Params -> Reply Response) (options : Options)
    (parts : list Z) :
  forallb (fun p =>
             match part_reply request ex_checkpoint ex_src options ex_partOffs p with
             | Some (mkReply (inr _) false) => true
             | _ => false
             end) parts = true ->
  forall p, In p parts ->
    copies_quietly request ex_checkpoint ex_src options ex_partOffs p.
Proof.
  intros H p Hp. rewrite forallb_forall in H. specialize (H p Hp).
  unfold copies_quietly.
  destruct (part_reply request ex_checkpoint ex_src options ex_partOffs p)
    as [[[e|res] []]|]; try discriminate.
  now exists res.
Defined.

Lemma ex_quiet_progress (options : Options) :
  opt_progress options = None -> quiet_progress options.
Proof. intros H f r c x Hf. congruence. Defined.

(** Five parts copied one after the other. *)
Lemma sequential_copy_in_part_order_witness :
  sequential_mode ex_browser ex_options_seq = true /\
  exists l, doneParts (snd (ex_resume ex_request [] ex_options_seq)) = [] ++ l /\
            map number l = [1; 2; 3; 4; 5].
Proof.
  split; [reflexivity|].
  destruct (sequential_copy_in_part_order ex_request ex_complete ex_browser []
              ex_checkpoint ex_src ex_options_seq ex_partOffs ex_state
              eq_refl eq_refl eq_refl
              (ex_quiet_parts ex_request ex_options_seq [1; 2; 3; 4; 5] eq_refl)
              (ex_quiet_progress ex_options_seq eq_refl))
    as (_ & H & _).
  exact H.
Defined.

(** The copy of part 3 fails: the parts 4 and 5 are not requested. *)
Lemma sequential_stops_at_first_failure_witness :
  resume_todo ex_checkpoint ex_partOffs = [1; 2] ++ 3 :: [4; 5] /\
  copy_fails ex_request_fail3 ex_checkpoint ex_src ex_options_seq ex_partOffs 3
    (mkErr (MsgCollaborator "connection reset") None) /\
  fst (ex_resume ex_request_fail3 [] ex_options_seq) =
    Throw (Error (mkErr (MsgCollaborator "connection reset") (Some 3))) /\
  exists evs,
    trace (snd (ex_resume ex_request_fail3 [] ex_options_seq)) = [] ++ evs /\
    filter is_request evs =
      [EvRequest (ex_params 1 0 102399); EvRequest (ex_params 2 102400 204799);
       EvRequest (ex_params 3 204800 307199)].
Proof.
  assert (Hfail : copy_fails ex_request_fail3 ex_checkpoint ex_src ex_options_seq
                    ex_partOffs 3 (mkErr (MsgCollaborator "connection reset") None))
    by (eexists; split; reflexivity).
  split; [reflexivity|]. split; [exact Hfail|].
  destruct (sequential_stops_at_first_failure ex_request_fail3 ex_complete
              ex_browser [] ex_checkpoint ex_src ex_options_seq ex_partOffs
              ex_state [1; 2] 3 [4; 5]
              (mkErr (MsgCollaborator "connection reset") None)
              eq_refl eq_refl eq_refl eq_refl
              (ex_quiet_parts ex_request_fail3 ex_options_seq [1; 2] eq_refl)
              (ex_quiet_progress ex_options_seq eq_refl) Hfail)
    as (Hr & _ & evs & Ht & Hreq & _).
  split; [exact Hr|]. exists evs. split; [exact Ht|exact Hreq].
Defined.

(** Cancellation is requested while the last part is copied: the upload
    is completed without part 5. *)
Lemma sequential_cancel_during_part_witness :
  part_reply ex_request_cancel5 ex_checkpoint ex_src ex_options_seq ex_partOffs 5 =
    Some (mkReply (inr (mkResponse 200 "etag" 0)) true) /\
  fst (ex_resume ex_request_cancel5 [] ex_options_seq) = Return "completed"%string /\
  ~ In 5 (map number (doneParts (snd (ex_resume ex_request_cancel5 []
                                         ex_options_seq)))).
Proof.
  split; [reflexivity|].
  destruct (sequential_cancel_during_part ex_request_cancel5 ex_complete
              ex_browser [] ex_checkpoint ex_src ex_options_seq ex_partOffs
              ex_state [1; 2; 3; 4] 5 [] (mkResponse 200 "etag" 0)
              eq_refl eq_refl eq_refl eq_refl
              (ex_quiet_parts ex_request_cancel5 ex_options_seq [1; 2; 3; 4] eq_refl)
              (ex_quiet_progress ex_options_seq eq_refl) eq_refl)
    as (_ & _ & Hnot & _ & Hr).
  split; [exact Hr|exact Hnot].
Defined.

(** Three jobs run through the pool after cancellation. *)
Lemma cancelled_jobs_change_nothing_witness :
  cancelFlag ex_state_cancelled = true /\
  snd (pool_run ex_request [] ex_checkpoint ex_src ex_options ex_partOffs
         [1; 2; 3] 5 ex_state_cancelled) = ex_state_cancelled.
Proof.
  split; [reflexivity|].
  exact (cancelled_jobs_change_nothing ex_request ex_checkpoint ex_src ex_options
           ex_partOffs _ _
           (pool_run_steps ex_request ex_checkpoint ex_src ex_options ex_partOffs
              [] [1; 2; 3] 5 ex_state_cancelled)
           eq_refl).
Defined.

(** Every part is listed as done; [parallel] is 5. *)
Lemma resume_nothing_to_copy_witness :
  0 < or_default (opt_parallel ex_options) defaultParallel /\
  trace (snd (_resumeMultipartCopy ex_request ex_complete ex_browser []
                ex_checkpoint_all_done ex_src ex_options ex_state)) =
    [EvCompleteMultipartUpload "target" "upload-1"
       (cp_doneParts ex_checkpoint_all_done)] /\
  fst (_resumeMultipartCopy ex_request ex_complete ex_browser []
         ex_checkpoint_all_done ex_src ex_options ex_state) =
    Return "completed"%string.
Proof.
  split; [reflexivity|].
  destruct (resume_nothing_to_copy ex_request ex_complete ex_browser []
              ex_checkpoint_all_done ex_src ex_options ex_partOffs ex_state
              (or_intror eq_refl) eq_refl eq_refl) as (Ht & _ & Hr).
  - intros p Hp. cbn in Hp |- *. lia.
  - split; [exact Ht|exact Hr].
Defined.

(** Cancellation is requested while part 1 is copied, in parallel with
    the others. *)
Lemma parallel_cancellation_before_errors_witness :
  sequential_mode ex_browser ex_options = false /\
  cancel_requested (ex_request_cancel1 (ex_params 1 0 102399)) = true /\
  fst (ex_resume ex_request_cancel1 [] ex_options) = Throw CancelEvent.
Proof.
  split; [reflexivity|]. split; [reflexivity|].
  destruct (parallel_cancellation_before_errors ex_request_cancel1 ex_complete
              ex_browser [] ex_checkpoint ex_src ex_options ex_partOffs ex_state
              1 (ex_request_cancel1 (ex_params 1 0 102399))
              eq_refl eq_refl eq_refl eq_refl)
    as (Hr & _).
  - cbn. auto.
  - reflexivity.
  - reflexivity.
  - exact Hr.
Defined.

(** A checkpoint with a partSize of zero. *)
Lemma zero_partSize_checkpoint_witness :
  cp_partSize ex_checkpoint_zero = 0 /\
  fst (ex_copy ex_request [] ex_source ex_options_resume_zero ex_state) = Diverge /\
  trace (snd (ex_copy ex_request [] ex_source ex_options_resume_zero ex_state)) =
    [EvHead "src" "key"].
Proof.
  split; [reflexivity|].
  destruct (zero_partSize_checkpoint_never_completes ex_head ex_init ex_request
              ex_complete ex_browser ex_getPartSize [] "target" ex_source
              ex_options_resume_zero ex_state ex_checkpoint_zero
              (mkResponse 200 "" 512000) eq_refl ltac:(discriminate) eq_refl
              eq_refl eq_refl) as (Hr & Ht & _).
  split; [exact Hr|exact Ht].
Defined.

(** Five parts of 102400 bytes. *)
Lemma part_ranges_partition_witness :
  0 < cp_copySize ex_checkpoint /\ 0 < cp_partSize ex_checkpoint /\
  exists partOffs prm,
    _divideMultipartCopyParts 512000 102400 0 = Some partOffs /\
    part_params ex_checkpoint ex_src ex_options partOffs 5 = Some prm /\
    prm_copy_source_range prm = Some (409600, 511999).
Proof.
  split; [reflexivity|]. split; [reflexivity|].
  destruct (part_ranges_partition ex_checkpoint ex_src ex_options
              eq_refl eq_refl) as (partOffs & Hd & Hparts & _).
  assert (E : partOffs = ex_partOffs)
    by (vm_compute in Hd; injection Hd as <-; reflexivity).
  destruct (Hparts 5) as (prm & Hprm & Hrange & _).
  { rewrite E. cbn. lia. }
  exists partOffs, prm. split; [exact Hd|]. split; [exact Hprm|exact Hrange].
Defined.

(** A fresh copy of 512000 bytes in five parts. *)
Lemma fresh_copy_completes_witness :
  resumable ex_options = None /\
  fst (ex_copy ex_request [2; 0]%nat ex_source ex_options ex_state) =
    Return "completed"%string /\
  exists partOffs,
    _divideMultipartCopyParts 512000 102400 0 = Some partOffs /\
    Permutation
      (map number (doneParts (snd (ex_copy ex_request [2; 0]%nat ex_source
                                     ex_options ex_state))))
      (all_parts (length partOffs)).
Proof.
  split; [reflexivity|].
  destruct (fresh_copy_completes ex_head ex_init ex_request ex_complete ex_browser
              ex_getPartSize [2; 0]%nat "target" ex_source ex_options ex_state
              (mkResponse 200 "" 512000) ("upload-1"%string, mkResponse 200 "" 0)
              eq_refl eq_refl eq_refl eq_refl eq_refl eq_refl
              (ex_quiet_progress ex_options eq_refl)
              (fun prm => ex_intro _ (mkResponse 200 "etag" 0) eq_refl))
    as (partOffs & Hd & Hr & Hperm & _).
  split; [exact Hr|]. exists partOffs. split; [exact Hd|exact Hperm].
Defined.

(** Five parts copied with a progress callback. *)
Lemma progress_reports_witness :
  opt_progress ex_options_progress = Some ex_progress /\
  exists l evs,
    doneParts (snd (ex_resume ex_request [2; 0]%nat ex_options_progress)) = [] ++ l /\
    trace (snd (ex_resume ex_request [2; 0]%nat ex_options_progress)) = [] ++ evs /\
    length l = 5%nat /\
    map fst (flat_map progress_view evs) =
      [ratio 1 5; ratio 2 5; ratio 3 5; ratio 4 5; ratio 5 5].
Proof.
  split; [reflexivity|].
  destruct (progress_reports_follow_doneParts ex_request ex_complete ex_browser
              [2; 0]%nat ex_checkpoint ex_src ex_options_progress ex_partOffs
              ex_state ex_progress eq_refl eq_refl)
    as (l & evs & Hd & Ht & _).
  exists l, evs. split; [exact Hd|]. split; [exact Ht|].
  vm_compute in Hd, Ht. cbn [app] in Hd, Ht. subst l evs.
  split; reflexivity.
Defined.

(** The initiation fails. *)
Lemma copy_errors_before_first_part_witness :
  resumable ex_options = None /\
  fst (multipartUploadCopy ex_head ex_init_fail ex_request ex_complete ex_browser
         ex_getPartSize [] "target" ex_source ex_options ex_state) =
    Throw (Error (mkErr (MsgCollaborator "access denied") None)) /\
  trace (snd (multipartUploadCopy ex_head ex_init_fail ex_request ex_complete
                ex_browser ex_getPartSize [] "target" ex_source ex_options
                ex_state)) =
    [EvHead "src" "key"; EvInitMultipartUpload "target"].
Proof.
  split; [reflexivity|].
  destruct (copy_errors_before_first_part ex_head ex_init_fail ex_request
              ex_complete ex_browser ex_getPartSize [] "target" ex_source
              ex_options ex_state (mkResponse 200 "" 512000)
              eq_refl eq_refl eq_refl) as [H _].
  destruct (H (mkErr (MsgCollaborator "access denied") None) eq_refl)
    as (Hr & Ht & _).
  split; [exact Hr|exact Ht].
Defined.

(** The copies of the parts 2 and 4 fail, and the copy of part 4 comes
    back first. *)
Lemma parallel_reports_lowest_failed_part_witness :
  copy_fails ex_request_fail24 ex_checkpoint ex_src ex_options ex_partOffs 4
    (mkErr (MsgCollaborator "timeout") None) /\
  copy_fails ex_request_fail24 ex_checkpoint ex_src ex_options ex_partOffs 2
    (mkErr (MsgCollaborator "connection reset") None) /\
  fst (ex_resume ex_request_fail24 [3; 0]%nat ex_options) =
    Throw (Error (mkErr (MsgFailedToCopy (MsgCollaborator "connection reset")
                           (Some 2)) (Some 2))).
Proof.
  assert (H2 : copy_fails ex_request_fail24 ex_checkpoint ex_src ex_options
                 ex_partOffs 2 (mkErr (MsgCollaborator "connection reset") None))
    by (eexists; split; reflexivity).
  split; [eexists; split; reflexivity|]. split; [exact H2|].
  destruct (parallel_reports_lowest_failed_part ex_request_fail24 ex_complete
              ex_browser [3; 0]%nat ex_checkpoint ex_src ex_options ex_partOffs
              ex_state 2 (mkErr (MsgCollaborator "connection reset") None)
              eq_refl eq_refl eq_refl) as [Hr _].
  - split.
    + intros prm. unfold ex_request_fail24.
      destruct (fst (prm_subres prm) =? 2); [reflexivity|].
      destruct (fst (prm_subres prm) =? 4); reflexivity.
    + intros f r c x H. discriminate H.
  - intros f x c y H. discriminate H.
  - reflexivity.
  - cbn. auto.
  - exact H2.
  - intros q Hq Hlt. cbn in Hq.
    destruct Hq as [<-|[<-|[<-|[<-|[<-|[]]]]]]; try lia. reflexivity.
  - exact Hr.
Defined.
